(** * Stream replicator: delivery results, target adapters and the SQS source

    A shallow embedding of
    - [internal/models/target_write_result.go] (latency statistics),
    - [pkg/target/kafka.go] and [pkg/target/eventhub.go] (target adapters),
    - the SQS source (bounded-concurrency read loop),
    together with the properties stated about them. *)

From Stdlib Require Import ZArith Lia Ascii String.
From stdpp Require Import base gmap strings list.

Open Scope Z_scope.

(** ** Machine integers, time and errors *)

(** Go's [int64]: values live in [minInt64 .. maxInt64], arithmetic wraps. *)
Definition minInt64 : Z := - 2 ^ 63.
Definition maxInt64 : Z := 2 ^ 63 - 1.
Definition wrap64 (z : Z) : Z := (z + 2 ^ 63) mod 2 ^ 64 - 2 ^ 63.

(** [time.Time] stripped of its monotonic reading (every instant of the
    program went through [UTC()]): nanoseconds since the Unix epoch. The
    range of [time.Time] is far wider than that of [time.Duration]. *)
Definition Time : Type := Z.

(** [time.Duration] is an [int64] count of nanoseconds. *)
Definition Duration : Type := Z.

Definition Nanosecond : Duration := 1.
Definition Millisecond : Duration := 1000000.
Definition Second : Duration := 1000000000.
Definition Minute : Duration := 60 * Second.

(** [Time.Sub]: the difference, saturated to the range of [Duration]. *)
Definition Sub (t u : Time) : Duration :=
  if t - u <? minInt64 then minInt64
  else if maxInt64 <? t - u then maxInt64
  else t - u.

(** Go's [error] values, as far as the program builds them: opaque errors
    of the libraries and of [fmt.Errorf] (their text), [errors.Wrap], and
    [multierror.Error] (the list of its causes). *)
#[warnings="-register-all"]
Inductive error : Type :=
| ErrText (text : string)
| ErrWrap (cause : error) (message : string)
| ErrMulti (causes : list error).

(** [multierror.Append(err, e)]: a nil [err] starts a new list; appending a
    multierror flattens it. *)
Definition multierror_Append (err : option error) (e : error) : option error :=
  let old := match err with
             | None => []
             | Some (ErrMulti es) => es
             | Some other => [other]
             end in
  let new := match e with
             | ErrMulti es => es
             | other => [other]
             end in
  Some (ErrMulti (old ++ new)).

(** [errors.Wrap(err, message)] returns nil on a nil [err]. *)
Definition errors_Wrap (err : option error) (message : string) : option error :=
  match err with
  | None => None
  | Some e => Some (ErrWrap e message)
  end.

(** ** Messages *)

(** An acknowledgment callback ([func()]). The SQS source builds closures
    that delete the message with a given receipt handle; other callbacks are
    opaque. *)
Inductive Callback : Type :=
| AckDelete (queueURL receiptHandle : string)
| AckOpaque (id : nat).

(** Modelled from the spec: the [Message] struct of package [models] is not
    among the sources. It holds the payload, the partition key, the optional
    acknowledgment callback, the two timestamps and an optional attached
    error; these are the fields the source sets and the targets read. *)
Record Message : Type := mkMessage {
  Data : list Byte.byte;
  PartitionKey : string;
  AckFunc : option Callback;
  TimeCreated : Time;
  TimePulled : Time;
  err : option error
}.

(** Modelled from the spec: [Message.SetError] is not among the sources; it
    attaches the error to the message and leaves the other fields alone. *)
Definition SetError (m : Message) (e : error) : Message :=
  {| Data := Data m; PartitionKey := PartitionKey m; AckFunc := AckFunc m;
     TimeCreated := TimeCreated m; TimePulled := TimePulled m;
     err := Some e |}.

(** ** internal/models: the result of a target write *)

Module Models.

Record TargetWriteResult : Type := mkResult {
  Sent : Z;
  Failed : Z;
  MaxProcLatency : Duration;
  MinProcLatency : Duration;
  AvgProcLatency : Duration;
  MaxMsgLatency : Duration;
  MinMsgLatency : Duration;
  AvgMsgLatency : Duration
}.

(** Modelled from the spec: [common.GetAverageFromDuration] (package
    [internal/common]) is not among the sources; the spec calls its result
    the average latency. It is the sum divided by the count, in Go's
    integer division (truncation toward zero), and zero for a count that is
    not positive. *)
Definition GetAverageFromDuration (sum : Duration) (total : Z) : Duration :=
  if 0 <? total then Z.quot sum total else 0.

(** The state of the loop of [NewWriteResultWithTime]: the four extreme
    fields of [r] and the two running sums. *)
Record LatencyAcc : Type := mkAcc {
  accMaxProc : Duration;
  accMinProc : Duration;
  sumProcLatency : Duration;
  accMaxMsg : Duration;
  accMinMsg : Duration;
  sumMessageLatency : Duration
}.

Definition acc0 : LatencyAcc := mkAcc 0 0 0 0 0 0.

(** One iteration of [for _, msg := range messages]. *)
Definition latencyStep (timeOfWrite : Time) (a : LatencyAcc) (msg : Message)
  : LatencyAcc :=
  let procLatency := Sub timeOfWrite (TimePulled msg) in
  let messageLatency := Sub timeOfWrite (TimeCreated msg) in
  {| accMaxProc :=
       if accMaxProc a <? procLatency then procLatency else accMaxProc a;
     accMinProc :=
       if (accMinProc a >? procLatency) || (accMinProc a =? 0)
       then procLatency else accMinProc a;
     sumProcLatency := wrap64 (sumProcLatency a + procLatency);
     accMaxMsg :=
       if accMaxMsg a <? messageLatency then messageLatency else accMaxMsg a;
     accMinMsg :=
       if (accMinMsg a >? messageLatency) || (accMinMsg a =? 0)
       then messageLatency else accMinMsg a;
     sumMessageLatency := wrap64 (sumMessageLatency a + messageLatency) |}.

Definition NewWriteResultWithTime (sent failed : Z) (timeOfWrite : Time)
    (messages : list Message) : TargetWriteResult :=
  let messagesLen := Z.of_nat (length messages) in
  let a := fold_left (latencyStep timeOfWrite) messages acc0 in
  {| Sent := sent;
     Failed := failed;
     MaxProcLatency := accMaxProc a;
     MinProcLatency := accMinProc a;
     AvgProcLatency :=
       if 0 <? messagesLen
       then GetAverageFromDuration (sumProcLatency a) messagesLen else 0;
     MaxMsgLatency := accMaxMsg a;
     MinMsgLatency := accMinMsg a;
     AvgMsgLatency :=
       if 0 <? messagesLen
       then GetAverageFromDuration (sumMessageLatency a) messagesLen else 0 |}.

(** [NewWriteResult], with the reading of the clock as [now]. *)
Definition NewWriteResult (now : Time) (sent failed : Z)
    (messages : list Message) : TargetWriteResult :=
  NewWriteResultWithTime sent failed now messages.

(** [TargetWriteResult.Total]. *)
Definition Total (wr : TargetWriteResult) : Z := wrap64 (Sent wr + Failed wr).

(** The latencies the statistics range over. *)
Definition procLatencies (timeOfWrite : Time) (messages : list Message)
  : list Duration :=
  map (fun msg => Sub timeOfWrite (TimePulled msg)) messages.

Definition msgLatencies (timeOfWrite : Time) (messages : list Message)
  : list Duration :=
  map (fun msg => Sub timeOfWrite (TimeCreated msg)) messages.

(** [x] is the greatest (least) element of [l]. *)
Definition is_maximum (x : Z) (l : list Z) : Prop :=
  In x l /\ Forall (fun y => y <= x) l.
Definition is_minimum (x : Z) (l : list Z) : Prop :=
  In x l /\ Forall (fun y => x <= y) l.

Definition sumZ (l : list Z) : Z := fold_right Z.add 0 l.

(** The three updates of an iteration, on one list of latencies. *)
Definition maxStep (mx l : Z) : Z := if mx <? l then l else mx.
Definition minStep (mn l : Z) : Z := if (mn >? l) || (mn =? 0) then l else mn.
Definition sumStep (sm l : Z) : Z := wrap64 (sm + l).

End Models.

(** ** pkg/models: messages behind pointers, chunking, delivery results *)

(** The targets receive [[]*models.Message]: a slice of pointers into a
    store of messages, which [SetError] mutates in place. *)
Definition ptr : Type := nat.
Definition Heap : Type := ptr -> Message.

Definition heap_SetError (h : Heap) (p : ptr) (e : error) : Heap :=
  fun q => if Nat.eqb q p then SetError (h p) e else h q.

Definition msgSize (h : Heap) (p : ptr) : Z := Z.of_nat (length (Data (h p))).

(** The message behind [p] exceeds the byte limit. *)
Definition isOversized (h : Heap) (limit : Z) (p : ptr) : Prop :=
  limit < msgSize h p.

#[global] Instance isOversized_dec h limit p : Decision (isOversized h limit p).
Proof. unfold isOversized. apply _. Defined.

(** The message behind [p] has an acknowledgment callback. *)
Definition hasAck (h : Heap) (p : ptr) : Prop := is_Some (AckFunc (h p)).

#[global] Instance hasAck_dec h p : Decision (hasAck h p).
Proof. unfold hasAck. apply _. Defined.

Module PkgModels.

(** Modelled from the spec: the [TargetWriteResult] of package
    [pkg/models] is not among the sources. The spec's DeliveryResult holds
    the counts Sent, Failed, Oversized and Invalid; the targets build it
    from the four message lists and read [SentCount], [Total()] and the
    [Oversized] list. *)
Record TargetWriteResult : Type := mkResult {
  SentCount : Z;
  FailedCount : Z;
  Sent : list ptr;
  Failed : list ptr;
  Oversized : list ptr;
  Invalid : list ptr
}.

Definition OversizedCount (wr : TargetWriteResult) : Z :=
  Z.of_nat (length (Oversized wr)).
Definition InvalidCount (wr : TargetWriteResult) : Z :=
  Z.of_nat (length (Invalid wr)).

(** Modelled from the spec: [NewTargetWriteResult(sent, failed, oversized,
    invalid)] is not among the sources; it classifies the messages of the
    four lists and counts them. *)
Definition NewTargetWriteResult (sent failed oversized invalid : list ptr)
  : TargetWriteResult :=
  {| SentCount := Z.of_nat (length sent);
     FailedCount := Z.of_nat (length failed);
     Sent := sent; Failed := failed;
     Oversized := oversized; Invalid := invalid |}.

(** The literal [&models.TargetWriteResult{Oversized: oversized}]. *)
Definition onlyOversized (oversized : list ptr) : TargetWriteResult :=
  {| SentCount := 0; FailedCount := 0; Sent := []; Failed := [];
     Oversized := oversized; Invalid := [] |}.

(** Modelled from the spec: [TargetWriteResult.Append] is not among the
    sources; merging two results sums their counts, and the classified
    messages of both are kept. *)
Definition Append (wr nwr : TargetWriteResult) : TargetWriteResult :=
  {| SentCount := SentCount wr + SentCount nwr;
     FailedCount := FailedCount wr + FailedCount nwr;
     Sent := Sent wr ++ Sent nwr;
     Failed := Failed wr ++ Failed nwr;
     Oversized := Oversized wr ++ Oversized nwr;
     Invalid := Invalid wr ++ Invalid nwr |}.

(** The four counts of a result, added up. *)
Definition classified (wr : TargetWriteResult) : Z :=
  SentCount wr + FailedCount wr + OversizedCount wr + InvalidCount wr.

(** Modelled from the spec: [FilterOversizedMessages] is not among the
    sources. A message whose size exceeds the limit is routed to
    [oversized]; a message exactly at the limit is not oversized; input
    order is preserved. *)
Definition FilterOversizedMessages (h : Heap) (messages : list ptr)
    (maxMessageByteSize : Z) : list ptr * list ptr :=
  fold_left
    (fun '(safe, oversized) msg =>
       if msgSize h msg >? maxMessageByteSize
       then (safe, oversized ++ [msg])
       else (safe ++ [msg], oversized))
    messages ([], []).

(** The state of the chunker: closed chunks, the open chunk with its
    byte size, and the oversized messages. *)
Record ChunkAcc : Type := mkChunkAcc {
  chunks : list (list ptr);
  chunkBuffer : list ptr;
  chunkBufferByteLen : Z;
  oversizedAcc : list ptr
}.

Definition chunkStep (h : Heap) (chunkSize maxMessageByteSize maxChunkByteSize : Z)
    (a : ChunkAcc) (msg : ptr) : ChunkAcc :=
  let msgByteLen := msgSize h msg in
  if msgByteLen >? maxMessageByteSize then
    mkChunkAcc (chunks a) (chunkBuffer a) (chunkBufferByteLen a)
               (oversizedAcc a ++ [msg])
  else if negb (Nat.eqb (length (chunkBuffer a)) 0)
          && ((Z.of_nat (length (chunkBuffer a)) + 1 >? chunkSize)
              || (chunkBufferByteLen a + msgByteLen >? maxChunkByteSize)) then
    mkChunkAcc (chunks a ++ [chunkBuffer a]) [msg] msgByteLen (oversizedAcc a)
  else
    mkChunkAcc (chunks a) (chunkBuffer a ++ [msg])
               (chunkBufferByteLen a + msgByteLen) (oversizedAcc a).

(** Modelled from the spec: [GetChunkedMessages] (the Chunker) is not
    among the sources. Oversized messages are set apart; the others are
    packed greedily in input order, a chunk closing before a message would
    push it past the count or the byte limit; no chunk is empty. *)
Definition GetChunkedMessages (h : Heap) (messages : list ptr)
    (chunkSize maxMessageByteSize maxChunkByteSize : Z)
  : list (list ptr) * list ptr :=
  let a := fold_left (chunkStep h chunkSize maxMessageByteSize maxChunkByteSize)
                     messages (mkChunkAcc [] [] 0 []) in
  (if Nat.eqb (length (chunkBuffer a)) 0 then chunks a
   else chunks a ++ [chunkBuffer a],
   oversizedAcc a).

End PkgModels.

(** What a call that can block on a channel or panic comes to. *)
Inductive Outcome (A : Type) : Type :=
| Returned (a : A)
| Blocked
| Panicked.
Arguments Returned {A} a.
Arguments Blocked {A}.
Arguments Panicked {A}.

(** ** pkg/target/kafka.go *)

Module Kafka.

(** *** Construction *)

Record KafkaConfig : Type := mkKafkaConfig {
  Brokers : string;
  TopicName : string;
  TargetVersion : string;
  MaxRetries : Z;
  ByteLimit : Z;
  Compress : bool;
  WaitForAll : bool;
  Idempotent : bool;
  EnableSASL : bool;
  SASLUsername : string;
  SASLPassword : string;
  SASLAlgorithm : string;
  CertFile : string;
  KeyFile : string;
  CaFile : string;
  SkipVerifyTls : bool;
  ForceSync : bool;
  FlushFrequency : Z;
  FlushMessages : Z;
  FlushBytes : Z
}.

(** [sarama.KafkaVersion]: four version numbers, compared with [==]. *)
Record KafkaVersion : Type := mkVersion {
  major : N; minor : N; veryMinor : N; patch : N
}.

#[global] Instance KafkaVersion_eq_dec : EqDecision KafkaVersion.
Proof. solve_decision. Defined.

Inductive RequiredAcks : Type := NoResponse | WaitForLocal | AcksWaitForAll.
Inductive Compression : Type := CompressionNone | CompressionSnappy.
Inductive HashGenerator : Type := SHA256 | SHA512.
Inductive SASLMechanism : Type :=
| SASLTypeUnset | SASLTypeSCRAMSHA256 | SASLTypeSCRAMSHA512 | SASLTypePlaintext.

Record TlsConfig : Type := mkTls {
  Certificates : list (list Byte.byte);
  RootCAs : list (list Byte.byte);
  InsecureSkipVerify : bool
}.

(** The fields of [sarama.Config] that [NewKafkaTarget] assigns. *)
Record SaramaConfig : Type := mkSaramaConfig {
  ClientID : string;
  Version : KafkaVersion;
  ProducerRetryMax : Z;
  ProducerMaxMessageBytes : Z;
  ProducerReturnSuccesses : bool;
  ProducerReturnErrors : bool;
  ProducerRequiredAcks : RequiredAcks;
  ProducerIdempotent : bool;
  NetMaxOpenRequests : Z;
  ProducerCompression : Compression;
  SASLEnable : bool;
  SASLUser : string;
  SASLPasswordField : string;
  SASLHandshake : bool;
  SCRAMClientGenerator : option HashGenerator;
  Mechanism : SASLMechanism;
  TLSConfig : option TlsConfig;
  TLSEnable : bool;
  FlushMessagesField : Z;
  FlushBytesField : Z;
  FlushFrequencyField : Duration
}.

(** What [NewKafkaTarget] asks of the sarama library, of the file system
    and of the TLS library. *)
Record Library : Type := mkLibrary {
  ParseKafkaVersion : string -> KafkaVersion + error;
  SupportedVersions : list KafkaVersion;
  DefaultVersion : KafkaVersion;
  VersionString : KafkaVersion -> string;
  NewConfig : SaramaConfig;
  LoadX509KeyPair : string -> string -> list Byte.byte + error;
  ReadFile : string -> list Byte.byte + error;
  (** the error of [sarama.NewAsyncProducer] / [sarama.NewSyncProducer];
      the producer is nil exactly when there is one *)
  NewAsyncProducer : list string -> SaramaConfig -> option error;
  NewSyncProducer : list string -> SaramaConfig -> option error
}.

(** The effects of a construction, in order. [ForwardResults] is the start
    of the two goroutines that copy the producer's errors and successes
    into [asyncResults]. They are started whatever [NewAsyncProducer]
    returned: after an error the producer is a nil interface, the calls
    [asyncProducer.Errors()] and [asyncProducer.Successes()] dereference
    it, and the panic of a goroutine ends the process; this is
    [PanicOnNilProducer]. *)
Inductive Event : Type :=
| SetGlobalLogger
| CreateAsyncProducer (addrs : list string) (config : SaramaConfig)
| ForwardResults
| CreateSyncProducer (addrs : list string) (config : SaramaConfig)
| PanicOnNilProducer.

Definition isProducerEvent (e : Event) : bool :=
  match e with
  | SetGlobalLogger => false
  | _ => true
  end.

Record KafkaTarget : Type := mkKafkaTarget {
  syncProducer : bool;    (** [kt.syncProducer != nil] *)
  asyncProducer : bool;   (** [kt.asyncProducer != nil] *)
  topicName : string;
  brokers : string;
  messageByteLimit : Z
}.

Definition quote : string := String.String "034"%char EmptyString.

Definition getKafkaVersion (lib : Library) (targetVersion : string)
  : KafkaVersion * option error :=
  if String.eqb targetVersion "" then (DefaultVersion lib, None)
  else
    match ParseKafkaVersion lib targetVersion with
    | inr e => (DefaultVersion lib, Some e)
    | inl parsedVersion =>
        if existsb (fun version => bool_decide (version = parsedVersion))
                   (SupportedVersions lib)
        then (parsedVersion, None)
        else (DefaultVersion lib,
              Some (ErrText ("unsupported version `"
                             +:+ VersionString lib parsedVersion
                             +:+ "`. select older, compatible version instead")))
    end.

Definition createTlsConfiguration (lib : Library)
    (certFile keyFile caFile : string) (skipVerify : bool)
  : option TlsConfig * option error :=
  if String.eqb certFile "" || String.eqb keyFile "" then (None, None)
  else
    match LoadX509KeyPair lib certFile keyFile with
    | inr e => (None, Some e)
    | inl cert =>
        match ReadFile lib caFile with
        | inr e => (None, Some e)
        | inl caCert =>
            (Some {| Certificates := [cert]; RootCAs := [caCert];
                     InsecureSkipVerify := skipVerify |}, None)
        end
    end.

(** [strings.Split(s, ",")]. *)
Fixpoint splitComma (s : string) : list string :=
  match s with
  | EmptyString => [EmptyString]
  | String.String c rest =>
      if Ascii.eqb c ","%char then EmptyString :: splitComma rest
      else match splitComma rest with
           | [] => [String.String c EmptyString]
           | first :: others => String.String c first :: others
           end
  end.

(** The SASL branch: the mechanism and the SCRAM client generator, or the
    error of the final [else]. *)
Definition saslSettings (algorithm : string)
  : (option HashGenerator * SASLMechanism) + error :=
  if String.eqb algorithm "sha512" then inl (Some SHA512, SASLTypeSCRAMSHA512)
  else if String.eqb algorithm "sha256" then inl (Some SHA256, SASLTypeSCRAMSHA256)
  else if String.eqb algorithm "plaintext" then inl (None, SASLTypePlaintext)
  else inr (ErrText ("invalid SHA algorithm " +:+ quote +:+ algorithm +:+ quote
                     +:+ ": can be either " +:+ quote +:+ "sha256" +:+ quote
                     +:+ " or " +:+ quote +:+ "sha512" +:+ quote)).

(** The configuration as it stands after the assignments that precede the
    SASL branch. *)
Definition baseConfig (lib : Library) (cfg : KafkaConfig)
    (kafkaVersion : KafkaVersion) : SaramaConfig :=
  let c := NewConfig lib in
  {| ClientID := "snowplow_stream_replicator";
     Version := kafkaVersion;
     ProducerRetryMax := MaxRetries cfg;
     ProducerMaxMessageBytes := ByteLimit cfg;
     ProducerReturnSuccesses := true;
     ProducerReturnErrors := true;
     ProducerRequiredAcks :=
       if WaitForAll cfg || Idempotent cfg then AcksWaitForAll
       else ProducerRequiredAcks c;
     ProducerIdempotent := if Idempotent cfg then true else ProducerIdempotent c;
     NetMaxOpenRequests := if Idempotent cfg then 1 else NetMaxOpenRequests c;
     ProducerCompression :=
       if Compress cfg then CompressionSnappy else ProducerCompression c;
     SASLEnable := SASLEnable c;
     SASLUser := SASLUser c;
     SASLPasswordField := SASLPasswordField c;
     SASLHandshake := SASLHandshake c;
     SCRAMClientGenerator := SCRAMClientGenerator c;
     Mechanism := Mechanism c;
     TLSConfig := TLSConfig c;
     TLSEnable := TLSEnable c;
     FlushMessagesField := FlushMessagesField c;
     FlushBytesField := FlushBytesField c;
     FlushFrequencyField := FlushFrequencyField c |}.

Definition withSASL (cfg : KafkaConfig) (s : option HashGenerator * SASLMechanism)
    (c : SaramaConfig) : SaramaConfig :=
  {| ClientID := ClientID c; Version := Version c;
     ProducerRetryMax := ProducerRetryMax c;
     ProducerMaxMessageBytes := ProducerMaxMessageBytes c;
     ProducerReturnSuccesses := ProducerReturnSuccesses c;
     ProducerReturnErrors := ProducerReturnErrors c;
     ProducerRequiredAcks := ProducerRequiredAcks c;
     ProducerIdempotent := ProducerIdempotent c;
     NetMaxOpenRequests := NetMaxOpenRequests c;
     ProducerCompression := ProducerCompression c;
     SASLEnable := true;
     SASLUser := SASLUsername cfg;
     SASLPasswordField := SASLPassword cfg;
     SASLHandshake := true;
     SCRAMClientGenerator :=
       match fst s with Some g => Some g | None => SCRAMClientGenerator c end;
     Mechanism := snd s;
     TLSConfig := TLSConfig c; TLSEnable := TLSEnable c;
     FlushMessagesField := FlushMessagesField c;
     FlushBytesField := FlushBytesField c;
     FlushFrequencyField := FlushFrequencyField c |}.

Definition withTLSAndFlush (cfg : KafkaConfig) (tlsConfig : option TlsConfig)
    (c : SaramaConfig) : SaramaConfig :=
  {| ClientID := ClientID c; Version := Version c;
     ProducerRetryMax := ProducerRetryMax c;
     ProducerMaxMessageBytes := ProducerMaxMessageBytes c;
     ProducerReturnSuccesses := ProducerReturnSuccesses c;
     ProducerReturnErrors := ProducerReturnErrors c;
     ProducerRequiredAcks := ProducerRequiredAcks c;
     ProducerIdempotent := ProducerIdempotent c;
     NetMaxOpenRequests := NetMaxOpenRequests c;
     ProducerCompression := ProducerCompression c;
     SASLEnable := SASLEnable c; SASLUser := SASLUser c;
     SASLPasswordField := SASLPasswordField c;
     SASLHandshake := SASLHandshake c;
     SCRAMClientGenerator := SCRAMClientGenerator c;
     Mechanism := Mechanism c;
     TLSConfig := match tlsConfig with Some t => Some t | None => TLSConfig c end;
     TLSEnable := match tlsConfig with Some _ => true | None => TLSEnable c end;
     FlushMessagesField :=
       if ForceSync cfg then FlushMessagesField c else FlushMessages cfg;
     FlushBytesField :=
       if ForceSync cfg then FlushBytesField c else FlushBytes cfg;
     FlushFrequencyField :=
       if ForceSync cfg then FlushFrequencyField c
       else wrap64 (wrap64 (FlushFrequency cfg) * Millisecond) |}.

(** What [NewKafkaTarget] returns, with the effects it had. Where the
    effects end in [PanicOnNilProducer] the process dies by that panic,
    whether or not the function got to its return before. *)
Record Construction : Type := mkConstruction {
  target : option KafkaTarget;
  constructionError : option error;
  events : list Event
}.

Definition NewKafkaTarget (lib : Library) (cfg : KafkaConfig) : Construction :=
  match getKafkaVersion lib (TargetVersion cfg) with
  | (_, Some e) => mkConstruction None (Some e) []
  | (kafkaVersion, None) =>
      let saramaConfig := baseConfig lib cfg kafkaVersion in
      let afterSASL :=
        if EnableSASL cfg then
          match saslSettings (SASLAlgorithm cfg) with
          | inr e => inr e
          | inl s => inl (withSASL cfg s saramaConfig)
          end
        else inl saramaConfig in
      match afterSASL with
      | inr e => mkConstruction None (Some e) [SetGlobalLogger]
      | inl saramaConfig =>
          match createTlsConfiguration lib (CertFile cfg) (KeyFile cfg)
                                       (CaFile cfg) (SkipVerifyTls cfg) with
          | (_, Some e) => mkConstruction None (Some e) [SetGlobalLogger]
          | (tlsConfig, None) =>
              let saramaConfig := withTLSAndFlush cfg tlsConfig saramaConfig in
              let addrs := splitComma (Brokers cfg) in
              if negb (ForceSync cfg) then
                let producerError := NewAsyncProducer lib addrs saramaConfig in
                mkConstruction
                  (Some {| syncProducer := false;
                           asyncProducer := bool_decide (producerError = None);
                           topicName := TopicName cfg;
                           brokers := Brokers cfg;
                           messageByteLimit := ByteLimit cfg |})
                  producerError
                  [SetGlobalLogger; CreateAsyncProducer addrs saramaConfig;
                   if bool_decide (producerError = None) then ForwardResults
                   else PanicOnNilProducer]
              else
                let producerError := NewSyncProducer lib addrs saramaConfig in
                mkConstruction
                  (Some {| syncProducer := bool_decide (producerError = None);
                           asyncProducer := false;
                           topicName := TopicName cfg;
                           brokers := Brokers cfg;
                           messageByteLimit := ByteLimit cfg |})
                  producerError
                  [SetGlobalLogger; CreateSyncProducer addrs saramaConfig]
          end
      end
  end.

(** *** Write *)

(** The dynamic value of an [interface{}]: [ProducerMessage.Metadata]. *)
Inductive Any : Type :=
| AnyNil
| AnyMessage (p : ptr)         (** a [*models.Message] *)
| AnyOther (typeName : string).

Record ProducerMessage : Type := mkProducerMessage {
  Topic : string;
  Key : string;
  Value : list Byte.byte;
  Metadata : Any
}.

Record SaramaResult : Type := mkSaramaResult {
  Msg : ProducerMessage;
  Err : option error
}.

(** The producers as [Write] sees them, over a state [W] of the broker
    side: the synchronous [SendMessage]; the send on [Input()], which
    blocks for good when it answers [None]; and the receive on
    [kt.asyncResults], into which the two forwarding goroutines copy the
    producer's successes and errors, which blocks for good on [None]. *)
Record Producers (W : Type) : Type := mkProducers {
  SendMessage : W -> ProducerMessage -> option error * W;
  Input : W -> ProducerMessage -> option W;
  asyncResults : W -> option (SaramaResult * W)
}.
Arguments SendMessage {W} _ _ _.
Arguments Input {W} _ _ _.
Arguments asyncResults {W} _ _.

(** The variables of [Write], the message store, the acknowledgment
    callbacks invoked so far (by message, in order) and the broker side. *)
Record WriteState (W : Type) : Type := mkWriteState {
  sent : list ptr;
  failed : list ptr;
  errResult : option error;
  heap : Heap;
  acked : list ptr;
  world : W
}.
Arguments mkWriteState {W} _ _ _ _ _ _.
Arguments sent {W} _.
Arguments failed {W} _.
Arguments errResult {W} _.
Arguments heap {W} _.
Arguments acked {W} _.
Arguments world {W} _.

(** [if m.AckFunc != nil { m.AckFunc() }]. *)
Definition invokeAck (h : Heap) (acks : list ptr) (m : ptr) : list ptr :=
  match AckFunc (h m) with
  | Some _ => acks ++ [m]
  | None => acks
  end.

Definition recordFailed {W} (st : WriteState W) (m : ptr) (e : error) (w : W)
  : WriteState W :=
  mkWriteState (sent st) (failed st ++ [m])
               (multierror_Append (errResult st) e)
               (heap_SetError (heap st) m e) (acked st) w.

Definition recordSent {W} (st : WriteState W) (m : ptr) (w : W) : WriteState W :=
  mkWriteState (sent st ++ [m]) (failed st) (errResult st) (heap st)
               (invokeAck (heap st) (acked st) m) w.

(** What the loops keep true: [SetError] leaves the callbacks in place,
    and the callbacks invoked are those of the messages sent, in order. *)
Definition acksMatch {W} (h0 : Heap) (st : WriteState W) : Prop :=
  (forall q, AckFunc (heap st q) = AckFunc (h0 q))
  /\ acked st = filter (hasAck h0) (sent st).

(** One iteration of the loop over the synchronous producer. *)
Definition syncStep {W} (P : Producers W) (topic : string)
    (st : WriteState W) (msg : ptr) : WriteState W :=
  let '(e, w) :=
    SendMessage P (world st)
      {| Topic := topic; Key := PartitionKey (heap st msg);
         Value := Data (heap st msg); Metadata := AnyNil |} in
  match e with
  | Some e => recordFailed st msg e w
  | None => recordSent st msg w
  end.

(** The first loop of the asynchronous branch: every message is sent on
    [Input()], carrying its pointer as metadata. *)
Fixpoint submit {W} (P : Producers W) (topic : string) (h : Heap)
    (safeMessages : list ptr) (w : W) : option W :=
  match safeMessages with
  | [] => Some w
  | msg :: rest =>
      match Input P w {| Topic := topic; Key := PartitionKey (h msg);
                         Value := Data (h msg); Metadata := AnyMessage msg |} with
      | None => None
      | Some w' => submit P topic h rest w'
      end
  end.

(** The type assertion of [x] to a pointer to a [models.Message]. *)
Definition assertMessage (x : Any) : option ptr :=
  match x with
  | AnyMessage p => Some p
  | _ => None
  end.

(** The second loop: [n] times, receive one result and classify the
    message its metadata names. *)
Fixpoint drain {W} (P : Producers W) (n : nat) (st : WriteState W)
  : Outcome (WriteState W) :=
  match n with
  | O => Returned st
  | S n' =>
      match asyncResults P (world st) with
      | None => Blocked
      | Some (result, w) =>
          match assertMessage (Metadata (Msg result)) with
          | None => Panicked
          | Some originalMessage =>
              match Err result with
              | Some e => drain P n' (recordFailed st originalMessage e w)
              | None => drain P n' (recordSent st originalMessage w)
              end
          end
      end
  end.

(** The first [n] results that arrive on [kt.asyncResults], and the
    broker side after them; [None] when fewer than [n] ever arrive. *)
Fixpoint receive {W} (P : Producers W) (n : nat) (w : W)
  : option (list SaramaResult * W) :=
  match n with
  | O => Some ([], w)
  | S n' =>
      match asyncResults P w with
      | None => None
      | Some (r, w') =>
          match receive P n' w' with
          | None => None
          | Some (rs, w'') => Some (r :: rs, w'')
          end
      end
  end.

(** The message a result names, if its metadata is a message pointer. *)
Definition handleOf (r : SaramaResult) : option ptr :=
  assertMessage (Metadata (Msg r)).

Definition succeeded (r : SaramaResult) : Prop := Err r = None.

#[global] Instance succeeded_dec r : Decision (succeeded r).
Proof. unfold succeeded. destruct (Err r); [right; discriminate|left; reflexivity]. Defined.

Record WriteReturn (W : Type) : Type := mkWriteReturn {
  result : PkgModels.TargetWriteResult;
  writeError : option error;
  heapAfter : Heap;
  ackedAfter : list ptr;
  worldAfter : W
}.
Arguments mkWriteReturn {W} _ _ _ _ _.
Arguments result {W} _.
Arguments writeError {W} _.
Arguments heapAfter {W} _.
Arguments ackedAfter {W} _.
Arguments worldAfter {W} _.

Definition Write {W} (P : Producers W) (kt : KafkaTarget) (h : Heap)
    (messages : list ptr) (w : W) : Outcome (WriteReturn W) :=
  let '(safeMessages, oversized) :=
    PkgModels.FilterOversizedMessages h messages (messageByteLimit kt) in
  let st0 := mkWriteState [] [] None h [] w in
  let final :=
    if asyncProducer kt then
      match submit P (topicName kt) h safeMessages w with
      | None => Blocked
      | Some w' =>
          drain P (length safeMessages) (mkWriteState [] [] None h [] w')
      end
    else if syncProducer kt then
      Returned (fold_left (syncStep P (topicName kt)) safeMessages st0)
    else
      Returned (mkWriteState [] []
                  (multierror_Append None
                     (ErrText "no producer has been configured"))
                  h [] w) in
  match final with
  | Returned st =>
      Returned
        (mkWriteReturn
           (PkgModels.NewTargetWriteResult (sent st) (failed st) oversized [])
           (errors_Wrap (errResult st)
              ("Error writing messages to Kafka topic: " +:+ topicName kt))
           (heap st) (acked st) (world st))
  | Blocked => Blocked
  | Panicked => Panicked
  end.

End Kafka.

(** ** pkg/target/eventhub.go *)

Module EventHub.

(** The settings of the target. Its [client], the hub that the library
    returned at construction, is the [Hub] that [process] and [Write] take
    besides: they are modelled for a target whose client is there. *)
Record EventHubTarget : Type := mkEventHubTarget {
  eventHubNamespace : string;
  eventHubName : string;
  messageByteLimit : Z;
  chunkByteLimit : Z;
  chunkMessageLimit : Z;
  contextTimeoutInSeconds : Z;
  batchByteLimit : Z
}.

Record Event : Type := mkEvent {
  EventData : list Byte.byte;
  EventPartitionKey : string
}.

(** [eht.client.SendBatch(ctx, iterator, BatchWithMaxSizeInBytes(limit))]
    over a state [W] of the hub: the timeout of the context, the events of
    the iterator and the byte limit go in, an error or nil comes out. *)
Record Hub (W : Type) : Type := mkHub {
  SendBatch : W -> Duration -> list Event -> Z -> option error * W
}.
Arguments SendBatch {W} _ _ _ _ _.

Definition MaximumAllowedMessageSizeBytes (eht : EventHubTarget) : Z :=
  messageByteLimit eht.

Record ProcessReturn (W : Type) : Type := mkProcessReturn {
  res : PkgModels.TargetWriteResult;
  processError : option error;
  ackedAfter : list ptr;
  worldAfter : W
}.
Arguments mkProcessReturn {W} _ _ _ _.
Arguments res {W} _.
Arguments processError {W} _.
Arguments ackedAfter {W} _.
Arguments worldAfter {W} _.

(** [for _, msg := range messages { if msg.AckFunc != nil { msg.AckFunc() } }]. *)
Definition ackAll (h : Heap) (acks : list ptr) (messages : list ptr) : list ptr :=
  fold_left (Kafka.invokeAck h) messages acks.

Record WriteState (W : Type) : Type := mkWriteState {
  writeResult : PkgModels.TargetWriteResult;
  errResult : option error;
  acked : list ptr;
  world : W
}.
Arguments mkWriteState {W} _ _ _ _.
Arguments writeResult {W} _.
Arguments errResult {W} _.
Arguments acked {W} _.
Arguments world {W} _.

(** The batch built by the first loop of [process]: one event per
    message, with its data and its partition key. *)
Definition toEvents (h : Heap) (messages : list ptr) : list Event :=
  map (fun msg => {| EventData := Data (h msg);
                     EventPartitionKey := PartitionKey (h msg) |}) messages.

(** [time.Duration(eht.contextTimeoutInSeconds) * time.Second]. *)
Definition contextTimeout (eht : EventHubTarget) : Duration :=
  wrap64 (wrap64 (contextTimeoutInSeconds eht) * Second).

(** The state in which [Write] enters its loop over the chunks. *)
Definition start {W} (oversized : list ptr) (w : W) : WriteState W :=
  mkWriteState (PkgModels.onlyOversized oversized) None [] w.

(** The causes gathered in an error of [multierror.Append]. *)
Definition causesOf (e : option error) : list error :=
  match e with
  | None => []
  | Some (ErrMulti es) => es
  | Some other => [other]
  end.

(** What the loop over the chunks keeps true: the counts are the lengths
    of the lists, and the callbacks invoked are those of the messages
    sent, in order. *)
Definition countsMatch {W} (h : Heap) (st : WriteState W) : Prop :=
  PkgModels.SentCount (writeResult st)
    = Z.of_nat (length (PkgModels.Sent (writeResult st)))
  /\ PkgModels.FailedCount (writeResult st)
     = Z.of_nat (length (PkgModels.Failed (writeResult st)))
  /\ acked st = filter (hasAck h) (PkgModels.Sent (writeResult st)).

Definition process {W} (hub : Hub W) (eht : EventHubTarget) (h : Heap)
    (acks : list ptr) (w : W) (messages : list ptr) : ProcessReturn W :=
  let ehBatch := toEvents h messages in
  let '(e, w') :=
    SendBatch hub w (contextTimeout eht) ehBatch (batchByteLimit eht) in
  match e with
  | Some e =>
      mkProcessReturn
        (PkgModels.NewTargetWriteResult [] messages [] [])
        (errors_Wrap (Some e) "Failed to send message batch to EventHub")
        acks w'
  | None =>
      mkProcessReturn
        (PkgModels.NewTargetWriteResult messages [] [] [])
        None
        (ackAll h acks messages) w'
  end.

(** One iteration of [for _, chunk := range chunks]. *)
Definition chunkLoop {W} (hub : Hub W) (eht : EventHubTarget) (h : Heap)
    (st : WriteState W) (chunk : list ptr) : WriteState W :=
  let r := process hub eht h (acked st) (world st) chunk in
  mkWriteState
    (PkgModels.Append (writeResult st) (res r))
    (match processError r with
     | Some e => multierror_Append (errResult st) e
     | None => errResult st
     end)
    (ackedAfter r) (worldAfter r).

Definition Write {W} (hub : Hub W) (eht : EventHubTarget) (h : Heap)
    (messages : list ptr) (w : W) : WriteState W :=
  let '(chunks, oversized) :=
    PkgModels.GetChunkedMessages h messages (chunkMessageLimit eht)
      (MaximumAllowedMessageSizeBytes eht) (chunkByteLimit eht) in
  let st :=
    fold_left (chunkLoop hub eht h) chunks (start oversized w) in
  mkWriteState (writeResult st)
    (errors_Wrap (errResult st) "Error writing messages to EventHub")
    (acked st) (world st).

End EventHub.

(** ** The SQS source *)

Module SQS.

(** *** process: one fetch-and-deliver cycle *)

Record SQSMessage : Type := mkSQSMessage {
  Body : string;
  ReceiptHandle : string;
  Attributes : gmap string string
}.

Definition MessageSystemAttributeNameSentTimestamp : string := "SentTimestamp".

(** [strconv.ParseInt(s, 10, 64)], [None] standing for a non-nil error: an
    optional sign, then at least one decimal digit and nothing else, the
    value within [int64]. *)
Definition digitOf (c : ascii) : option Z :=
  let n := nat_of_ascii c in
  if (Nat.leb 48 n && Nat.leb n 57)%bool then Some (Z.of_nat (n - 48)) else None.

Fixpoint parseDigits (s : string) (acc : Z) : option Z :=
  match s with
  | EmptyString => Some acc
  | String.String c rest =>
      match digitOf c with
      | None => None
      | Some d => parseDigits rest (10 * acc + d)
      end
  end.

Definition ParseInt (s : string) : option Z :=
  match s with
  | EmptyString => None
  | String.String c rest =>
      let neg := Ascii.eqb c "-"%char in
      let digits := if (Ascii.eqb c "+"%char || neg)%bool then rest else s in
      match digits with
      | EmptyString => None
      | _ =>
          match parseDigits digits 0 with
          | None => None
          | Some un =>
              if neg then (if un >? 2 ^ 63 then None else Some (- un))
              else (if un >? maxInt64 then None else Some un)
          end
      end
  end.

(** The timestamp attribute is missing, or does not parse as an integer. *)
Definition noUsableTimestamp (msg : SQSMessage) : Prop :=
  Attributes msg !! MessageSystemAttributeNameSentTimestamp = None
  \/ exists s, Attributes msg !! MessageSystemAttributeNameSentTimestamp = Some s
               /\ ParseInt s = None.

(** [time.Unix(0, nsec).UTC()]. *)
Definition time_Unix_nsec (nsec : Z) : Time := nsec.

Inductive LogEntry : Type :=
| LogError (e : error)
| LogWarn (text : string).

(** The body of [for _, msg := range msgRes.Messages]: the message that is
    appended, and what the iteration logs. [uuid] is the partition key
    drawn for it. *)
Definition buildMessage (queueURL : string) (timePulled : Time)
    (uuid : string) (msg : SQSMessage) : Message * list LogEntry :=
  let ackFunc := AckDelete queueURL (ReceiptHandle msg) in
  let '(timeCreated, logs) :=
    match Attributes msg !! MessageSystemAttributeNameSentTimestamp with
    | Some timeCreatedStr =>
        match ParseInt timeCreatedStr with
        | None =>
            (timePulled,
             [LogError (ErrWrap (ErrText "strconv.ParseInt")
                          "Failed to parse SentTimestamp from SQS message")])
        | Some timeCreatedMillis =>
            (time_Unix_nsec (wrap64 (timeCreatedMillis * Millisecond)), [])
        end
    | None =>
        (timePulled,
         [LogWarn "Failed to extract SentTimestamp from SQS message attributes"])
    end in
  ({| Data := list_byte_of_string (Body msg);
      PartitionKey := uuid;
      AckFunc := Some ackFunc;
      TimeCreated := timeCreated;
      TimePulled := timePulled;
      err := None |}, logs).

(** The first half of [process]: [ReceiveMessage], then the loop that
    builds the messages. *)
Definition processFetch (queueURL : string)
    (received : list SQSMessage + error) (timePulled : Time)
    (newUUID : nat -> string) : (list Message * list LogEntry) + error :=
  match received with
  | inr e => inr (ErrWrap e "Failed to get message from SQS queue")
  | inl msgs =>
      let built := imap (fun i msg => buildMessage queueURL timePulled
                                        (newUUID i) msg) msgs in
      inl (fst <$> built, concat (snd <$> built))
  end.

(** The second half: [WriteToTarget], whose error is logged; the value
    returned is [nil]. *)
Definition processDeliver (writeToTarget : list Message -> option error)
    (messages : list Message) : option error * list LogEntry :=
  match writeToTarget messages with
  | Some e => (None, [LogError e])
  | None => (None, [])
  end.

Record ProcessReturn : Type := mkProcessReturn {
  returned : option error;
  forwarded : option (list Message);   (** the argument of [WriteToTarget] *)
  logged : list LogEntry
}.

Definition process (queueURL : string) (received : list SQSMessage + error)
    (timePulled : Time) (newUUID : nat -> string)
    (writeToTarget : list Message -> option error) : ProcessReturn :=
  match processFetch queueURL received timePulled newUUID with
  | inr e => mkProcessReturn (Some e) None []
  | inl (messages, logs) =>
      let '(e, logs') := processDeliver writeToTarget messages in
      mkProcessReturn e (Some messages) (logs ++ logs')
  end.

(** *** Read and Stop: the goroutines and their channels *)

(** The outside of the source: the SQS client, the clock, the partition
    keys, and the target behind [sf.WriteToTarget]. Calls to
    [ReceiveMessage] and to [WriteToTarget] are numbered from 0 in the
    order in which they happen. Each call is taken here to return with the
    answer given; calls that block for good are added by
    [Blocking.stepB]. *)
Record World : Type := mkWorld {
  GetQueueUrl : string + error;
  ReceiveMessage : nat -> list SQSMessage + error;
  Now : nat -> Time;
  NewUUID : nat -> nat -> string;
  WriteToTarget : nat -> list Message -> option error
}.

(** Where the goroutine of [Read] stands. *)
Inductive MainPC : Type :=
| NotStarted                          (** [Read] not called yet *)
| AtSelect                            (** at the [select] of [ProcessLoop] *)
| AtThrottle                          (** [default]: at [throttle <- struct{}{}] *)
| AtLaunch                            (** slot held: at [wg.Add(1); go func()] *)
| AtWait (processErr : option error)  (** at [wg.Wait()] *)
| HasReturned (r : option error).

(** Where a worker goroutine stands. *)
Inductive WorkerPC : Type :=
| AtFetch                             (** in [process], before [ReceiveMessage] *)
| AtDeliver (messages : list Message) (** in [process], before [WriteToTarget] *)
| AtErrorSend (e : error)             (** at [ss.processErrorSignal <- err] *)
| AtRelease                           (** at [<-throttle] *)
| AtExit                              (** slot released, [wg.Done()] pending *)
| Done.

(** A worker is in flight from its launch until it has released its slot. *)
Definition holdsSlot (w : WorkerPC) : bool :=
  match w with
  | AtFetch | AtDeliver _ | AtErrorSend _ | AtRelease => true
  | AtExit | Done => false
  end.

Definition isDone (w : WorkerPC) : bool :=
  match w with
  | Done => true
  | _ => false
  end.

Record State : Type := mkState {
  main : MainPC;
  queueURL : string;
  throttle : nat;                  (** elements in the buffer of [throttle] *)
  workers : list WorkerPC;         (** the goroutines launched, in order *)
  processErrorSignal : list error; (** the buffer of the error channel *)
  stopsBlocked : nat;              (** calls of [Stop] blocked in their send *)
  stopsReturned : nat;             (** calls of [Stop] that have returned *)
  fetches : nat;                   (** calls of [ReceiveMessage] so far *)
  deliveries : nat;                (** calls of [WriteToTarget] so far *)
  targetErrorsLogged : list error  (** errors of the target, as logged *)
}.

Definition init : State :=
  mkState NotStarted "" 0 [] [] 0 0 0 0 [].

(** The workers of a list that hold a slot. *)
Definition slots (ws : list WorkerPC) : nat :=
  length (filter (fun w => holdsSlot w = true) ws).

Definition b2n (b : bool) : nat := if b then 1%nat else 0%nat.

Definition inFlight (s : State) : nat := slots (workers s).

(** The invariant of the slots: the elements in the buffer of [throttle]
    are the workers in flight, plus the slot that [Read] holds between its
    send and the launch; they never exceed the capacity [N]. *)
Definition launching (m : MainPC) : nat :=
  match m with
  | AtLaunch => 1%nat
  | _ => 0%nat
  end.

(** No error of a worker is under way: none is buffered, no worker
    stands at its send, [Read] has taken none; and [Read] has left its
    loop only by receiving the signal of a [Stop]. *)
Definition notSendingError (w : WorkerPC) : Prop :=
  match w with
  | AtErrorSend _ => False
  | _ => True
  end.

Definition quiet (s : State) : Prop :=
  processErrorSignal s = []
  /\ Forall notSendingError (workers s)
  /\ match main s with
     | AtWait (Some _) | HasReturned (Some _) => False
     | AtWait None | HasReturned None => (1 <= stopsReturned s)%nat
     | _ => True
     end.

(** One call of [Read] receives the exit signal at most once. *)
Definition receivedOnce (s : State) : Prop :=
  (stopsReturned s <= match main s with
                      | AtWait _ | HasReturned _ => 1
                      | _ => 0
                      end)%nat.

(** While [Read] has not been called, nothing runs and no [Stop] has
    returned. *)
Definition idle (s : State) : Prop :=
  main s = NotStarted -> workers s = [] /\ stopsReturned s = 0%nat.

Definition slotsInvariant (N : nat) (s : State) : Prop :=
  throttle s = (inFlight s + launching (main s))%nat /\ (throttle s <= N)%nat.

(** The steps a scheduler can pick. *)
Inductive Action : Type :=
| CallStop            (** a goroutine calls [Stop] and blocks in its send *)
| CallRead            (** [Read] is called and asks for the queue URL *)
| SelectExit          (** [case <-ss.exitSignal] *)
| SelectError         (** [case processErr = <-ss.processErrorSignal] *)
| SelectDefault       (** [default], when no other case is ready *)
| SendThrottle        (** [throttle <- struct{}{}] goes through *)
| Launch              (** [wg.Add(1); go func() ...] *)
| WaitReturns         (** [wg.Wait()] returns, then [Read] does *)
| WorkerStep (i : nat).

Definition setMain (s : State) (m : MainPC) : State :=
  mkState m (queueURL s) (throttle s) (workers s) (processErrorSignal s)
          (stopsBlocked s) (stopsReturned s) (fetches s) (deliveries s)
          (targetErrorsLogged s).

Definition setWorker (s : State) (i : nat) (w : WorkerPC) : State :=
  mkState (main s) (queueURL s) (throttle s) (<[i := w]> (workers s))
          (processErrorSignal s) (stopsBlocked s) (stopsReturned s)
          (fetches s) (deliveries s) (targetErrorsLogged s).

(** The next step of worker [i], standing at [w]. *)
Definition workerStep (N : nat) (world : World) (s : State) (i : nat)
    (w : WorkerPC) : option State :=
  match w with
  | AtFetch =>
      let k := fetches s in
      let s' := mkState (main s) (queueURL s) (throttle s) (workers s)
                        (processErrorSignal s) (stopsBlocked s)
                        (stopsReturned s) (S k) (deliveries s)
                        (targetErrorsLogged s) in
      match processFetch (queueURL s) (ReceiveMessage world k) (Now world k)
                         (NewUUID world k) with
      | inr e => Some (setWorker s' i (AtErrorSend e))
      | inl (messages, _) => Some (setWorker s' i (AtDeliver messages))
      end
  | AtDeliver messages =>
      let k := deliveries s in
      let '(e, logs) := processDeliver (WriteToTarget world k) messages in
      let s' := mkState (main s) (queueURL s) (throttle s) (workers s)
                        (processErrorSignal s) (stopsBlocked s)
                        (stopsReturned s) (fetches s) (S k)
                        (targetErrorsLogged s
                           ++ omap (fun l => match l with
                                             | LogError e => Some e
                                             | LogWarn _ => None
                                             end) logs) in
      match e with
      | Some e => Some (setWorker s' i (AtErrorSend e))
      | None => Some (setWorker s' i AtRelease)
      end
  | AtErrorSend e =>
      if Nat.ltb (length (processErrorSignal s)) N then
        Some (mkState (main s) (queueURL s) (throttle s)
                      (<[i := AtRelease]> (workers s))
                      (processErrorSignal s ++ [e]) (stopsBlocked s)
                      (stopsReturned s) (fetches s) (deliveries s)
                      (targetErrorsLogged s))
      else None
  | AtRelease =>
      match throttle s with
      | O => None
      | S t =>
          Some (mkState (main s) (queueURL s) t
                        (<[i := AtExit]> (workers s))
                        (processErrorSignal s) (stopsBlocked s)
                        (stopsReturned s) (fetches s) (deliveries s)
                        (targetErrorsLogged s))
      end
  | AtExit => Some (setWorker s i Done)
  | Done => None
  end.

(** One step of the system with [N = concurrentWrites] slots; [None] when
    the action is not enabled in [s]. The exit channel is unbuffered: its
    send and its receive happen together. [throttle] and the error channel
    have capacity [N]. The system is one call of [Read] on a source just
    built, with its workers and any number of calls of [Stop]: [CallRead]
    is enabled once, and what a later call of [Read] on the same source
    would do is not part of it. *)
Definition step (N : nat) (world : World) (s : State) (a : Action)
  : option State :=
  match a, main s with
  | CallStop, _ =>
      Some (mkState (main s) (queueURL s) (throttle s) (workers s)
                    (processErrorSignal s) (S (stopsBlocked s))
                    (stopsReturned s) (fetches s) (deliveries s)
                    (targetErrorsLogged s))
  | CallRead, NotStarted =>
      match GetQueueUrl world with
      | inr e => Some (setMain s (HasReturned
                                    (Some (ErrWrap e "Failed to get SQS queue URL"))))
      | inl url =>
          Some (mkState AtSelect url (throttle s) (workers s)
                        (processErrorSignal s) (stopsBlocked s)
                        (stopsReturned s) (fetches s) (deliveries s)
                        (targetErrorsLogged s))
      end
  | SelectExit, AtSelect =>
      match stopsBlocked s with
      | O => None
      | S b =>
          Some (mkState (AtWait None) (queueURL s) (throttle s) (workers s)
                        (processErrorSignal s) b (S (stopsReturned s))
                        (fetches s) (deliveries s) (targetErrorsLogged s))
      end
  | SelectError, AtSelect =>
      match processErrorSignal s with
      | [] => None
      | e :: rest =>
          Some (mkState (AtWait (Some e)) (queueURL s) (throttle s) (workers s)
                        rest (stopsBlocked s) (stopsReturned s)
                        (fetches s) (deliveries s) (targetErrorsLogged s))
      end
  | SelectDefault, AtSelect =>
      match stopsBlocked s, processErrorSignal s with
      | O, [] => Some (setMain s AtThrottle)
      | _, _ => None
      end
  | SendThrottle, AtThrottle =>
      if Nat.ltb (throttle s) N then
        Some (mkState AtLaunch (queueURL s) (S (throttle s)) (workers s)
                      (processErrorSignal s) (stopsBlocked s)
                      (stopsReturned s) (fetches s) (deliveries s)
                      (targetErrorsLogged s))
      else None
  | Launch, AtLaunch =>
      Some (mkState AtSelect (queueURL s) (throttle s) (workers s ++ [AtFetch])
                    (processErrorSignal s) (stopsBlocked s)
                    (stopsReturned s) (fetches s) (deliveries s)
                    (targetErrorsLogged s))
  | WaitReturns, AtWait processErr =>
      if forallb isDone (workers s) then Some (setMain s (HasReturned processErr))
      else None
  | WorkerStep i, _ =>
      match workers s !! i with
      | Some w => workerStep N world s i w
      | None => None
      end
  | _, _ => None
  end.

(** Running a schedule. *)
Fixpoint run (N : nat) (world : World) (s : State) (schedule : list Action)
  : option State :=
  match schedule with
  | [] => Some s
  | a :: rest =>
      match step N world s a with
      | Some s' => run N world s' rest
      | None => None
      end
  end.

Definition reachable (N : nat) (world : World) (s : State) : Prop :=
  exists schedule, run N world init schedule = Some s.

End SQS.

(** ** Sample data *)

Module Samples.

(** The instant of the write and the three messages of the observer's
    test: pulled 4, 7 and 10 minutes earlier, created 50, 70 and 30 minutes
    earlier. *)
Definition timeNow : Time := 1000 * Minute.

Definition bytes (s : string) : list Byte.byte := list_byte_of_string s.

Definition testMessages : list Message :=
  [ mkMessage (bytes "Baz") "partition1" None
              (timeNow - 50 * Minute) (timeNow - 4 * Minute) None;
    mkMessage (bytes "Bar") "partition2" None
              (timeNow - 70 * Minute) (timeNow - 7 * Minute) None;
    mkMessage (bytes "Foo") "partition3" None
              (timeNow - 30 * Minute) (timeNow - 10 * Minute) None ].

(** Two messages written at instant 10: one pulled and created at that very
    instant, one 5 nanoseconds earlier. *)
Definition zeroThenFive : list Message :=
  [ mkMessage (bytes "a") "k" None 10 10 None;
    mkMessage (bytes "b") "k" None 5 5 None ].

(** One message pulled and created 3 nanoseconds after the write. *)
Definition fromTheFuture : list Message :=
  [ mkMessage (bytes "a") "k" None 13 13 None ].

End Samples.

Module KafkaSamples.
Import Kafka.

Definition v2_8_0 : KafkaVersion := mkVersion 2 8 0 0.
Definition v9_9_9 : KafkaVersion := mkVersion 9 9 9 0.

Definition defaultConfig : SaramaConfig :=
  {| ClientID := "sarama"; Version := mkVersion 1 0 0 0;
     ProducerRetryMax := 3; ProducerMaxMessageBytes := 1000000;
     ProducerReturnSuccesses := false; ProducerReturnErrors := true;
     ProducerRequiredAcks := WaitForLocal; ProducerIdempotent := false;
     NetMaxOpenRequests := 5; ProducerCompression := CompressionNone;
     SASLEnable := false; SASLUser := ""; SASLPasswordField := "";
     SASLHandshake := true; SCRAMClientGenerator := None;
     Mechanism := SASLTypeUnset; TLSConfig := None; TLSEnable := false;
     FlushMessagesField := 0; FlushBytesField := 0; FlushFrequencyField := 0 |}.

(** A library that knows two version strings, supports one of them, has no
    files, and whose producers connect. *)
Definition library : Library :=
  {| ParseKafkaVersion := fun s =>
       if String.eqb s "2.8.0" then inl v2_8_0
       else if String.eqb s "9.9.9" then inl v9_9_9
       else inr (ErrText "invalid version");
     SupportedVersions := [mkVersion 1 0 0 0; v2_8_0];
     DefaultVersion := mkVersion 1 0 0 0;
     VersionString := fun v => if bool_decide (v = v9_9_9) then "9.9.9" else "?";
     NewConfig := defaultConfig;
     LoadX509KeyPair := fun _ _ => inr (ErrText "no such file");
     ReadFile := fun _ => inr (ErrText "no such file");
     NewAsyncProducer := fun _ _ => None;
     NewSyncProducer := fun _ _ => None |}.

Definition config (version : string) (sasl : bool) (algorithm : string)
  : KafkaConfig :=
  {| Brokers := "broker1:9092,broker2:9092"; TopicName := "events";
     TargetVersion := version; MaxRetries := 10; ByteLimit := 1048576;
     Compress := false; WaitForAll := false; Idempotent := false;
     EnableSASL := sasl; SASLUsername := "user"; SASLPassword := "secret";
     SASLAlgorithm := algorithm;
     CertFile := ""; KeyFile := ""; CaFile := ""; SkipVerifyTls := false;
     ForceSync := false; FlushFrequency := 0; FlushMessages := 0;
     FlushBytes := 0 |}.

End KafkaSamples.

Module SQSSamples.
Import SQS.

Definition withTimestamp : SQSMessage :=
  mkSQSMessage "first" "rh-1" {[ "SentTimestamp" := "1600000000000" ]}.
Definition withoutTimestamp : SQSMessage :=
  mkSQSMessage "second" "rh-2" ∅.
Definition badTimestamp : SQSMessage :=
  mkSQSMessage "third" "rh-3" {[ "SentTimestamp" := "16e11" ]}.

Definition batch : list SQSMessage :=
  [withTimestamp; withoutTimestamp; badTimestamp].

Definition uuids (i : nat) : string :=
  match i with
  | O => "uuid-0"
  | S O => "uuid-1"
  | _ => "uuid-n"
  end.

Definition pulledAt : Time := 1600000000123 * Millisecond.

Definition failingTarget (messages : list Message) : option error :=
  Some (ErrText "target unavailable").

(** A queue that always answers with [batch], and a target that fails its
    4th delivery (number 3, counting from 0) and no other. *)
Definition fourthDeliveryFails : World :=
  {| GetQueueUrl := inl "queue-url";
     ReceiveMessage := fun _ => inl batch;
     Now := fun _ => pulledAt;
     NewUUID := fun _ => uuids;
     WriteToTarget := fun k _ =>
       if Nat.eqb k 3 then Some (ErrText "target unavailable") else None |}.

(** [Read] starts and launches two workers. *)
Definition launchTwo : list Action :=
  [CallRead; SelectDefault; SendThrottle; Launch;
   SelectDefault; SendThrottle; Launch; SelectDefault].

(** A worker takes its four steps: fetch, deliver, release the slot,
    finish. *)
Definition cycle (i : nat) : list Action :=
  [WorkerStep i; WorkerStep i; WorkerStep i; WorkerStep i].

(** [Read] launches a worker and lets it finish, four times over. *)
Definition fourDeliveries : list Action :=
  [CallRead]
    ++ [SelectDefault; SendThrottle; Launch] ++ cycle 0
    ++ [SelectDefault; SendThrottle; Launch] ++ cycle 1
    ++ [SelectDefault; SendThrottle; Launch] ++ cycle 2
    ++ [SelectDefault; SendThrottle; Launch] ++ cycle 3.

(** A queue that cannot be found. *)
Definition noQueue : World :=
  {| GetQueueUrl := inr (ErrText "no such queue");
     ReceiveMessage := fun _ => inl batch;
     Now := fun _ => pulledAt;
     NewUUID := fun _ => uuids;
     WriteToTarget := fun _ _ => None |}.

(** A queue whose every fetch fails. *)
Definition everyFetchFails : World :=
  {| GetQueueUrl := inl "queue-url";
     ReceiveMessage := fun _ => inr (ErrText "queue unavailable");
     Now := fun _ => pulledAt;
     NewUUID := fun _ => uuids;
     WriteToTarget := fun _ _ => None |}.

(** With one slot: a first worker fails its fetch and leaves its error in
    the buffer while [Read] waits for the slot; [Read] launches a second
    worker; a [Stop] arrives and [Read] takes the exit signal; the second
    worker fails its fetch too. *)
Definition exitWithErrorPending : list Action :=
  [CallRead; SelectDefault; SendThrottle; Launch; SelectDefault;
   WorkerStep 0; WorkerStep 0; WorkerStep 0; WorkerStep 0;
   SendThrottle; Launch; CallStop; SelectExit; WorkerStep 1].

(** A queue whose first fetch fails. *)
Definition firstFetchFails : World :=
  {| GetQueueUrl := inl "queue-url";
     ReceiveMessage := fun k =>
       if Nat.eqb k 0 then inr (ErrText "queue unavailable") else inl batch;
     Now := fun _ => pulledAt;
     NewUUID := fun _ => uuids;
     WriteToTarget := fun _ _ => None |}.

End SQSSamples.

Module TargetSamples.

(** A store in which the message behind pointer [p] carries [p] bytes; the
    message behind 1 has the partition key "bad", the one behind 3 has no
    acknowledgment callback. *)
Definition heap : Heap :=
  fun p => mkMessage (repeat Byte.x78 p)
                     (if Nat.eqb p 1 then "bad" else "good")
                     (if Nat.eqb p 3 then None else Some (AckOpaque p))
                     0 0 None.

(** Five messages; with a limit of 4 bytes the last one is oversized. *)
Definition batch : list ptr := [0; 1; 2; 3; 5]%nat.

Definition syncTarget : Kafka.KafkaTarget :=
  Kafka.mkKafkaTarget true false "events" "broker:9092" 4.
Definition asyncTarget : Kafka.KafkaTarget :=
  Kafka.mkKafkaTarget false true "events" "broker:9092" 4.
Definition noProducer : Kafka.KafkaTarget :=
  Kafka.mkKafkaTarget false false "events" "broker:9092" 4.

Definition brokerDown : error := ErrText "broker down".

(** Brokers that refuse the key "bad". The state is the queue of results
    not received yet: the asynchronous producer answers every message it is
    given, in order. *)
Definition outcomeOf (pm : Kafka.ProducerMessage) : option error :=
  if String.eqb (Kafka.Key pm) "bad" then Some brokerDown else None.

Definition producers : Kafka.Producers (list Kafka.SaramaResult) :=
  {| Kafka.SendMessage := fun w pm => (outcomeOf pm, w);
     Kafka.Input := fun w pm => Some (w ++ [Kafka.mkSaramaResult pm (outcomeOf pm)]);
     Kafka.asyncResults := fun w =>
       match w with
       | [] => None
       | r :: rest => Some (r, rest)
       end |}.

(** A result left on the channel for a message (behind pointer 9) that is
    not of the batch at hand, and one whose metadata is not a message. *)
Definition staleResult : Kafka.SaramaResult :=
  Kafka.mkSaramaResult
    (Kafka.mkProducerMessage "events" "good" [] (Kafka.AnyMessage 9%nat)) None.

Definition eventHubTarget : EventHub.EventHubTarget :=
  EventHub.mkEventHubTarget "namespace" "hub" 4 100 2 20 1048576.

(** A hub that fails every batch holding the key "bad"; its state counts
    the batches. *)
Definition hub : EventHub.Hub nat :=
  {| EventHub.SendBatch := fun w _ events _ =>
       (if existsb (fun e => String.eqb (EventHub.EventPartitionKey e) "bad") events
        then Some (ErrText "hub down") else None, S w) |}.

End TargetSamples.

(** ** Invariants of the read loop *)

Module ReadFacts.
Import SQS.

(** The workers of a list for which [f] holds. *)
Definition countPC (f : WorkerPC -> bool) (ws : list WorkerPC) : nat :=
  length (filter (fun w => f w = true) ws).

Definition pastFetch (w : WorkerPC) : bool :=
  match w with
  | AtFetch => false
  | _ => true
  end.

Definition atDeliver (w : WorkerPC) : bool :=
  match w with
  | AtDeliver _ => true
  | _ => false
  end.

(** Every call of [ReceiveMessage] belongs to one worker that has left its
    fetch, and every call of [WriteToTarget] to a worker whose fetch went
    through; the target's errors are logged one per failed delivery at
    most. *)
Definition accounted (s : State) : Prop :=
  fetches s = countPC pastFetch (workers s)
  /\ (deliveries s + countPC atDeliver (workers s) <= fetches s)%nat
  /\ (length (targetErrorsLogged s) <= deliveries s)%nat.

(** An error that comes from the queue: from [GetQueueUrl] or from a call
    of [ReceiveMessage], wrapped as [Read] and [process] wrap it. *)
Definition fromQueue (world : World) (e : error) : Prop :=
  (exists e0, GetQueueUrl world = inr e0
              /\ e = ErrWrap e0 "Failed to get SQS queue URL")
  \/ (exists k e0, ReceiveMessage world k = inr e0
                   /\ e = ErrWrap e0 "Failed to get message from SQS queue").

Definition sendsFromQueue (world : World) (w : WorkerPC) : Prop :=
  match w with
  | AtErrorSend e => fromQueue world e
  | _ => True
  end.

Definition provenance (world : World) (s : State) : Prop :=
  Forall (fromQueue world) (processErrorSignal s)
  /\ Forall (sendsFromQueue world) (workers s)
  /\ match main s with
     | AtWait (Some e) | HasReturned (Some e) => fromQueue world e
     | _ => True
     end.

(** Before [Read] is called there is no worker; once it has returned,
    every worker it launched is done. *)
Definition joined (s : State) : Prop :=
  match main s with
  | NotStarted => workers s = []
  | HasReturned _ => Forall (fun w => w = Done) (workers s)
  | _ => True
  end.

(** [Read] has left its loop with [r] as its error. *)
Definition leftLoop (r : option error) (s : State) : Prop :=
  main s = AtWait r \/ main s = HasReturned r.

(** [Read] waits for its workers while worker [i] stands at its send on the
    error channel, whose buffer of capacity [N] is full. *)
Definition hung (N : nat) (i : nat) (e : error) (r : option error) (s : State)
  : Prop :=
  main s = AtWait r
  /\ workers s !! i = Some (AtErrorSend e)
  /\ length (processErrorSignal s) = N.

(** [GetQueueUrl] has failed: [Read] has not started or has returned the
    wrapped error, and nothing else has happened. *)
Definition queueMissing (e : error) (s : State) : Prop :=
  workers s = [] /\ fetches s = 0%nat /\ deliveries s = 0%nat
  /\ stopsReturned s = 0%nat
  /\ (main s = NotStarted
      \/ main s = HasReturned (Some (ErrWrap e "Failed to get SQS queue URL"))).

End ReadFacts.

(** Schedules of [Read] used as sample runs. *)
Module ReadSamples.
Import SQS.

(** One worker fails its fetch; [Read] takes the error and returns it once
    the worker is done. *)
Definition fetchErrorReturned : list Action :=
  [CallRead; SelectDefault; SendThrottle; Launch;
   WorkerStep 0; WorkerStep 0; SelectError;
   WorkerStep 0; WorkerStep 0; WaitReturns].

(** Two workers are launched; the first fails its fetch, the second goes
    through; [Read] returns after both. *)
Definition twoWorkersOneError : list Action :=
  [CallRead; SelectDefault; SendThrottle; Launch;
   SelectDefault; SendThrottle; Launch;
   WorkerStep 0; WorkerStep 0; SelectError;
   WorkerStep 1; WorkerStep 1; WorkerStep 1; WorkerStep 1;
   WorkerStep 0; WorkerStep 0; WaitReturns].

(** [Read] launches a worker, then takes the exit signal of a [Stop]. *)
Definition exitWithWorker : list Action :=
  [CallRead; SelectDefault; SendThrottle; Launch; CallStop; SelectExit].

End ReadSamples.

(** ** The construction of the Kafka target, continued *)

Module KafkaFacts.
Import Kafka.

(** The producer that an effect of [NewKafkaTarget] creates: the addresses
    and the configuration given to [sarama.NewAsyncProducer] or to
    [sarama.NewSyncProducer]. *)
Definition created (e : Event) : option (list string * SaramaConfig) :=
  match e with
  | CreateAsyncProducer addrs config => Some (addrs, config)
  | CreateSyncProducer addrs config => Some (addrs, config)
  | _ => None
  end.

Definition hasComma (s : string) : Prop :=
  In ","%char (list_ascii_of_string s).

(** The mechanism that the SASL branch selects for an algorithm. *)
Definition mechanismOf (algorithm : string) : SASLMechanism :=
  if String.eqb algorithm "sha512" then SASLTypeSCRAMSHA512
  else if String.eqb algorithm "sha256" then SASLTypeSCRAMSHA256
  else SASLTypePlaintext.

End KafkaFacts.

Module KafkaFactsSamples.
Import Kafka.

(** A library like [KafkaSamples.library] that has the two files of a key
    pair and a CA file, and whose producers cannot connect. *)
Definition offline : Library :=
  {| ParseKafkaVersion := ParseKafkaVersion KafkaSamples.library;
     SupportedVersions := SupportedVersions KafkaSamples.library;
     DefaultVersion := DefaultVersion KafkaSamples.library;
     VersionString := VersionString KafkaSamples.library;
     NewConfig := KafkaSamples.defaultConfig;
     LoadX509KeyPair := fun cert key =>
       if String.eqb cert "client.crt" && String.eqb key "client.key"
       then inl [Byte.x01] else inr (ErrText "no such file");
     ReadFile := fun name =>
       if String.eqb name "ca.crt" then inl [Byte.x02]
       else inr (ErrText "no such file");
     NewAsyncProducer := fun _ _ => Some (ErrText "no broker available");
     NewSyncProducer := fun _ _ => Some (ErrText "no broker available") |}.

(** A synchronous, idempotent producer with SASL and TLS. *)
Definition secured : KafkaConfig :=
  {| Brokers := "broker1:9092,broker2:9092"; TopicName := "events";
     TargetVersion := "2.8.0"; MaxRetries := 10; ByteLimit := 4;
     Compress := true; WaitForAll := false; Idempotent := true;
     EnableSASL := true; SASLUsername := "user"; SASLPassword := "secret";
     SASLAlgorithm := "sha512";
     CertFile := "client.crt"; KeyFile := "client.key"; CaFile := "ca.crt";
     SkipVerifyTls := true;
     ForceSync := true; FlushFrequency := 7; FlushMessages := 8;
     FlushBytes := 9 |}.

End KafkaFactsSamples.

(** ** Invariants of the loops of the Kafka [Write] *)

Module WriteFacts.
Import Kafka.

(** [errResult] is nil as long as no message has failed. *)
Definition errorTracksFailed {W} (st : WriteState W) : Prop :=
  errResult st = None <-> failed st = [].

(** [errResult] is nil or a list of errors. *)
Definition errorIsList {W} (st : WriteState W) : Prop :=
  errResult st = None \/ exists es, errResult st = Some (ErrMulti es).

(** The store differs from the store [h0] of the call only by calls of
    [SetError], and has had one for just the messages that failed. *)
Definition marked {W} (h0 : Heap) (st : WriteState W) : Prop :=
  forall q, exists es,
    heap st q = fold_left SetError es (h0 q)
    /\ (In q (failed st) <-> es <> []).

(** The lists [sent] and [failed] have grown by sublists of [msgs]. *)
Definition grownWithin {W} (msgs : list ptr) (st st' : WriteState W) : Prop :=
  exists s f,
    sent st' = sent st ++ s /\ failed st' = failed st ++ f
    /\ sublist s msgs /\ sublist f msgs.

End WriteFacts.

(** ** The construction of the EventHub target *)

Module EventHubConstruction.
Import EventHub.

Record EventHubConfig : Type := mkEventHubConfig {
  EventHubNamespace : string;
  EventHubName : string;
  MaxAutoRetries : Z;
  MessageByteLimit : Z;
  ChunkByteLimit : Z;
  ChunkMessageLimit : Z;
  ContextTimeoutInSeconds : Z;
  BatchByteLimit : Z
}.

(** [os.LookupEnv] on the environment of the process, a map from the
    names of the variables that are set to their values: the value, and
    whether the variable is set. *)
Definition LookupEnv (env : gmap string string) (name : string) : string * bool :=
  match env !! name with
  | Some value => (value, true)
  | None => (EmptyString, false)
  end.

(** The condition that [NewEventHubTarget] puts on the environment. *)
Definition validAuthentication (env : gmap string string) : bool :=
  let keyNamePresent := snd (LookupEnv env "EVENTHUB_KEY_NAME") in
  let keyValuePresent := snd (LookupEnv env "EVENTHUB_KEY_VALUE") in
  let connStringPresent := snd (LookupEnv env "EVENTHUB_CONNECTION_STRING") in
  let tenantIDPresent := snd (LookupEnv env "AZURE_TENANT_ID") in
  let clientIDPresent := snd (LookupEnv env "AZURE_CLIENT_ID") in
  let clientSecretPresent := snd (LookupEnv env "AZURE_CLIENT_SECRET") in
  let azCertPathPresent := snd (LookupEnv env "AZURE_CERTIFICATE_PATH") in
  let azCertPwrdPresent := snd (LookupEnv env "AZURE_CERTIFICATE_PASSWORD") in
  connStringPresent
  || (keyNamePresent && keyValuePresent)
  || (tenantIDPresent && clientIDPresent
      && ((azCertPathPresent && azCertPwrdPresent) || clientSecretPresent)).

(** A call of [eventhub.NewHubWithNamespaceNameAndEnvironment] with the
    option [HubWithSenderMaxRetryCount]. *)
Record HubRequest : Type := mkHubRequest {
  requestNamespace : string;
  requestName : string;
  requestMaxRetryCount : Z
}.

(** The target as [NewEventHubTarget] builds it: the client that the
    library returned, nil ([None]) where it returned none, and the
    settings. *)
Record Built (C : Type) : Type := mkBuilt {
  client : option C;
  settings : EventHubTarget
}.
Arguments mkBuilt {C} _ _.
Arguments client {C} _.
Arguments settings {C} _.

(** What [NewEventHubTarget] returns, with the hubs it asked for. *)
Record Construction (C : Type) : Type := mkConstruction {
  target : option (Built C);
  constructionError : option error;
  requests : list HubRequest
}.
Arguments mkConstruction {C} _ _ _.
Arguments target {C} _.
Arguments constructionError {C} _.
Arguments requests {C} _.

Definition noAuthentication : error :=
  ErrText "Error initialising EventHub client: No valid combination of authentication Env vars found. https://pkg.go.dev/github.com/Azure/azure-event-hubs-go#NewHubWithNamespaceNameAndEnvironment".

(** [newHub] stands for the library call, which reads the credentials from
    the environment itself, and gives the hub and the error it returns. *)
Definition NewEventHubTarget {C : Type}
    (newHub : gmap string string -> HubRequest -> option C * option error)
    (env : gmap string string) (cfg : EventHubConfig) : Construction C :=
  if negb (validAuthentication env) then
    mkConstruction None (Some noAuthentication) []
  else
    let request := mkHubRequest (EventHubNamespace cfg) (EventHubName cfg)
                                (MaxAutoRetries cfg) in
    let '(hub, err) := newHub env request in
    mkConstruction
      (Some {| client := hub;
               settings :=
                 {| eventHubNamespace := EventHubNamespace cfg;
                    eventHubName := EventHubName cfg;
                    messageByteLimit := MessageByteLimit cfg;
                    chunkByteLimit := ChunkByteLimit cfg;
                    chunkMessageLimit := ChunkMessageLimit cfg;
                    contextTimeoutInSeconds := ContextTimeoutInSeconds cfg;
                    batchByteLimit := BatchByteLimit cfg |} |})
      err
      [request].

(** The variables that are set in [env] are set in [env'], whatever their
    values. *)
Definition setIn (env env' : gmap string string) : Prop :=
  forall name, is_Some (env !! name) -> is_Some (env' !! name).

End EventHubConstruction.

Module EventHubSamples.
Import EventHubConstruction.

Definition config : EventHubConfig :=
  mkEventHubConfig "namespace" "hub" 1 4 100 2 20 1048576.

(** Only a key name and an empty key value are set. *)
Definition keyPair : gmap string string :=
  {[ "EVENTHUB_KEY_NAME" := "name"; "EVENTHUB_KEY_VALUE" := "" ]}.

(** Further variables besides, and other values. *)
Definition keyPairAndMore : gmap string string :=
  {[ "EVENTHUB_KEY_NAME" := "other"; "EVENTHUB_KEY_VALUE" := "secret";
     "AZURE_TENANT_ID" := "tenant"; "HOME" := "/root" ]}.

(** A library that refuses an empty key value, and returns no hub then. *)
Definition refusesEmptyKey (env : gmap string string) (request : HubRequest)
  : option nat * option error :=
  match env !! "EVENTHUB_KEY_VALUE" with
  | Some EmptyString => (None, Some (ErrText "empty key"))
  | _ => (Some 1%nat, None)
  end.

End EventHubSamples.

(** ** What [Write] gives to the producer *)

Module ProducerCalls.
Import Kafka.

(** The producers [P], keeping besides their own state the messages given
    to [SendMessage] and to [Input()], in order. *)
Definition recording {W} (P : Producers W)
  : Producers (W * list ProducerMessage) :=
  {| SendMessage := fun wl pm =>
       let '(e, w') := SendMessage P (fst wl) pm in (e, (w', snd wl ++ [pm]));
     Input := fun wl pm =>
       match Input P (fst wl) pm with
       | Some w' => Some (w', snd wl ++ [pm])
       | None => None
       end;
     asyncResults := fun wl =>
       match asyncResults P (fst wl) with
       | Some (r, w') => Some (r, (w', snd wl))
       | None => None
       end |}.

(** The [sarama.ProducerMessage] that [Write] builds for [msg]. *)
Definition produced (topic : string) (h : Heap) (metadata : ptr -> Any)
    (msg : ptr) : ProducerMessage :=
  {| Topic := topic; Key := PartitionKey (h msg); Value := Data (h msg);
     Metadata := metadata msg |}.

(** The messages that [Write] gives to the producer of [kt] for a batch. *)
Definition given (kt : KafkaTarget) (h : Heap) (messages : list ptr)
  : list ProducerMessage :=
  let safeMessages :=
    fst (PkgModels.FilterOversizedMessages h messages (messageByteLimit kt)) in
  if asyncProducer kt then
    map (produced (topicName kt) h AnyMessage) safeMessages
  else if syncProducer kt then
    map (produced (topicName kt) h (fun _ => AnyNil)) safeMessages
  else [].

(** The state of [Write] over the recording producers is the state over
    [P], with the record besides. *)
Definition sameAs {W} (st : WriteState W)
    (st' : WriteState (W * list ProducerMessage)) : Prop :=
  sent st' = sent st /\ failed st' = failed st
  /\ errResult st' = errResult st /\ heap st' = heap st
  /\ acked st' = acked st /\ fst (world st') = world st.

(** The store still has the data and the partition keys of [h0]. *)
Definition keepsContent {W} (h0 : Heap) (st : WriteState W) : Prop :=
  forall q, Data (heap st q) = Data (h0 q)
            /\ PartitionKey (heap st q) = PartitionKey (h0 q).

End ProducerCalls.

(** ** Progress of the read loop *)

Module ReadProgress.
Import SQS ReadFacts.

(** A worker that may still send on the error channel. *)
Definition maySend (w : WorkerPC) : bool :=
  match w with
  | AtFetch | AtDeliver _ | AtErrorSend _ => true
  | _ => false
  end.

(** The errors in the buffer of the error channel, and those that may
    still come. *)
Definition pending (s : State) : nat :=
  (length (processErrorSignal s) + countPC maySend (workers s))%nat.

Definition atSelect (m : MainPC) : nat :=
  match m with
  | AtSelect => 1%nat
  | _ => 0%nat
  end.

(** [Stop] has not been called. *)
Definition noStop (s : State) : Prop :=
  stopsBlocked s = 0%nat /\ stopsReturned s = 0%nat.

(** As long as [Stop] has not been called, the error channel has room for
    the errors that may come, but for the one that [Read] takes at its next
    select. *)
Definition errorsFit (N : nat) (s : State) : Prop :=
  slotsInvariant N s
  /\ (noStop s -> (pending s <= N + atSelect (main s))%nat).

(** Some goroutine of the source can take a step. *)
Definition canStep (N : nat) (world : World) (s : State) : Prop :=
  exists a s', a <> CallStop /\ step N world s a = Some s'.

(** The steps that a worker has before it at most. *)
Definition rank (w : WorkerPC) : nat :=
  match w with
  | AtFetch => 5
  | AtDeliver _ => 4
  | AtErrorSend _ => 3
  | AtRelease => 2
  | AtExit => 1
  | Done => 0
  end%nat.

Definition remaining (ws : list WorkerPC) : nat := sum_list_with rank ws.

(** A schedule of the workers' steps alone. *)
Definition workersOnly (schedule : list Action) : Prop :=
  Forall (fun a => exists i, a = WorkerStep i) schedule.

End ReadProgress.

(** ** Calls of the outside that do not return *)

Module Blocking.
Import SQS.

(** Which calls of [ReceiveMessage] and of [sf.WriteToTarget] return, by
    their numbers. A call that does not return leaves its worker inside
    [process] for good, as a target does whose [Write] waits for results
    that never come. *)
Record Calls : Type := mkCalls {
  fetchReturns : nat -> bool;
  deliveryReturns : nat -> bool
}.

(** The call that a worker standing at [w] is in returns. *)
Definition callReturns (calls : Calls) (s : State) (w : WorkerPC) : bool :=
  match w with
  | AtFetch => fetchReturns calls (fetches s)
  | AtDeliver _ => deliveryReturns calls (deliveries s)
  | _ => true
  end.

(** [step], but for the workers whose call does not return. *)
Definition stepB (N : nat) (world : World) (calls : Calls) (s : State)
    (a : Action) : option State :=
  match a with
  | WorkerStep i =>
      match workers s !! i with
      | Some w => if callReturns calls s w then step N world s a else None
      | None => None
      end
  | _ => step N world s a
  end.

Fixpoint runB (N : nat) (world : World) (calls : Calls) (s : State)
    (schedule : list Action) : option State :=
  match schedule with
  | [] => Some s
  | a :: rest =>
      match stepB N world calls s a with
      | Some s' => runB N world calls s' rest
      | None => None
      end
  end.

Definition reachableB (N : nat) (world : World) (calls : Calls) (s : State)
  : Prop :=
  exists schedule, runB N world calls init schedule = Some s.

(** The calls that the workers are in return. *)
Definition inCallsThatReturn (calls : Calls) (s : State) : Prop :=
  Forall (fun w => callReturns calls s w = true) (workers s).

(** The calls of the queue and of the target that are still to come, those
    under way among them, return. *)
Definition returnFrom (calls : Calls) (s : State) : Prop :=
  forall k, ((fetches s <= k)%nat -> fetchReturns calls k = true)
            /\ ((deliveries s <= k)%nat -> deliveryReturns calls k = true).

(** Some goroutine of the source can take a step. *)
Definition canStepB (N : nat) (world : World) (calls : Calls) (s : State)
  : Prop :=
  exists a s', a <> CallStop /\ stepB N world calls s a = Some s'.

End Blocking.

Module BlockingSamples.
Import Blocking.

Definition everyCallReturns : Calls :=
  mkCalls (fun _ => true) (fun _ => true).

(** The first delivery never returns. *)
Definition firstDeliveryBlocks : Calls :=
  mkCalls (fun _ => true) (fun k => negb (Nat.eqb k 0)).

(** With one slot: [Read] launches a worker, which fetches, and goes on to
    its next send into [throttle]. *)
Definition oneWorkerDelivering : list SQS.Action :=
  [SQS.CallRead; SQS.SelectDefault; SQS.SendThrottle; SQS.Launch;
   SQS.WorkerStep 0; SQS.SelectDefault].

End BlockingSamples.

(** ** What the asynchronous producer accepts, and a source not yet read *)

Module ClaimFacts.
Import Kafka.



(** Before [Read] is called nothing has run: no worker, no error, no slot
    taken, no fetch, no [Stop] returned. *)
Definition unstarted (s : SQS.State) : Prop :=
  SQS.main s = SQS.NotStarted ->
  SQS.workers s = [] /\ SQS.processErrorSignal s = []
  /\ SQS.throttle s = 0%nat /\ SQS.stopsReturned s = 0%nat
  /\ SQS.fetches s = 0%nat.

(** [Read] has returned [r] without having launched a worker or let a
    [Stop] return. *)
Definition returnedAtOnce (r : option error) (s : SQS.State) : Prop :=
  SQS.main s = SQS.HasReturned r /\ SQS.workers s = []
  /\ SQS.stopsReturned s = 0%nat.

End ClaimFacts.

Module AckSamples.


End AckSamples.

(** * Properties *)

(** ** Latency statistics of [NewWriteResultWithTime] *)

Section LatencyStatistics.
Import Models.

Lemma wrap64_small (z : Z) : minInt64 <= z <= maxInt64 -> wrap64 z = z.
Proof.
  unfold wrap64, minInt64, maxInt64. intros Hz.
  rewrite Z.mod_small; lia.
Qed.

Lemma wrap64_add_l (a b : Z) : wrap64 (wrap64 a + b) = wrap64 (a + b).
Proof.
  unfold wrap64.
  replace ((a + 2 ^ 63) mod 2 ^ 64 - 2 ^ 63 + b + 2 ^ 63)
    with ((a + 2 ^ 63) mod 2 ^ 64 + b) by lia.
  rewrite Zplus_mod_idemp_l. f_equal. f_equal. lia.
Qed.

Lemma fold_latencyStep (t : Time) (msgs : list Message) (a : LatencyAcc) :
  let a' := fold_left (latencyStep t) msgs a in
  accMaxProc a' = fold_left maxStep (procLatencies t msgs) (accMaxProc a)
  /\ accMinProc a' = fold_left minStep (procLatencies t msgs) (accMinProc a)
  /\ sumProcLatency a' = fold_left sumStep (procLatencies t msgs) (sumProcLatency a)
  /\ accMaxMsg a' = fold_left maxStep (msgLatencies t msgs) (accMaxMsg a)
  /\ accMinMsg a' = fold_left minStep (msgLatencies t msgs) (accMinMsg a)
  /\ sumMessageLatency a' = fold_left sumStep (msgLatencies t msgs) (sumMessageLatency a).
Proof.
  revert a. induction msgs as [|m msgs IH]; intros a; simpl.
  - repeat split.
  - apply (IH (latencyStep t a m)).
Qed.

Lemma fold_maxStep (ls : list Z) (mx : Z) :
  let mx' := fold_left maxStep ls mx in
  mx <= mx' /\ Forall (fun l => l <= mx') ls /\ (mx' = mx \/ In mx' ls).
Proof.
  revert mx. induction ls as [|l ls IH]; intros mx; simpl.
  - split; [lia|]. split; [constructor|]. now left.
  - destruct (IH (maxStep mx l)) as (Hle & Hall & Hin).
    assert (Hstep : mx <= maxStep mx l /\ l <= maxStep mx l
                    /\ (maxStep mx l = mx \/ maxStep mx l = l)).
    { unfold maxStep. destruct (Z.ltb_spec mx l); lia. }
    split; [lia|]. split.
    + constructor; [lia|exact Hall].
    + destruct Hin as [Heq|Hin]; [|now right; right].
      rewrite Heq. destruct Hstep as (_ & _ & [H|H]); [now left|right; left; lia].
Qed.

Lemma fold_minStep_nonzero (ls : list Z) (mn : Z) :
  mn <> 0 -> Forall (fun l => l <> 0) ls ->
  let mn' := fold_left minStep ls mn in
  mn' <= mn /\ mn' <> 0 /\ Forall (fun l => mn' <= l) ls /\ (mn' = mn \/ In mn' ls).
Proof.
  revert mn. induction ls as [|l ls IH]; intros mn Hmn Hnz; simpl.
  - repeat split; [lia|exact Hmn|constructor|now left].
  - inversion Hnz as [|? ? Hl Hls]; subst.
    assert (Hstep : minStep mn l <= mn /\ minStep mn l <= l /\ minStep mn l <> 0
                    /\ (minStep mn l = mn \/ minStep mn l = l)).
    { unfold minStep. rewrite Z.gtb_ltb.
      destruct (Z.ltb_spec l mn), (Z.eqb_spec mn 0); simpl; lia. }
    destruct (IH (minStep mn l)) as (Hle & Hne & Hall & Hin); [lia|exact Hls|].
    split; [lia|]. split; [exact Hne|]. split.
    + constructor; [lia|exact Hall].
    + destruct Hin as [Heq|Hin]; [|now right; right].
      rewrite Heq. destruct Hstep as (_ & _ & _ & [H|H]); [now left|right; left; lia].
Qed.

Lemma fold_minStep_from_zero (l : Z) (ls : list Z) :
  Forall (fun l => l <> 0) (l :: ls) ->
  is_minimum (fold_left minStep (l :: ls) 0) (l :: ls).
Proof.
  intros Hnz. inversion Hnz as [|? ? Hl Hls]; subst. simpl.
  assert (H0 : minStep 0 l = l).
  { unfold minStep. rewrite Z.eqb_refl, orb_true_r. reflexivity. }
  rewrite H0.
  destruct (fold_minStep_nonzero ls l Hl Hls) as (Hle & _ & Hall & Hin).
  split.
  - destruct Hin as [Heq|Hin]; [left; lia|now right].
  - constructor; [lia|exact Hall].
Qed.

Lemma fold_sumStep (ls : list Z) (sm : Z) :
  fold_left sumStep ls (wrap64 sm) = wrap64 (sm + sumZ ls).
Proof.
  revert sm. induction ls as [|l ls IH]; intros sm; simpl.
  - f_equal. lia.
  - unfold sumStep at 2. rewrite wrap64_add_l, IH. f_equal. lia.
Qed.

Lemma fold_sumStep_0 (ls : list Z) :
  fold_left sumStep ls 0 = wrap64 (sumZ ls).
Proof. apply (fold_sumStep ls 0). Qed.

(** In general the maximum is taken together with the initial zero. *)
Lemma MaxProcLatency_clamped (sent failed : Z) (t : Time) (msgs : list Message) :
  is_maximum (MaxProcLatency (NewWriteResultWithTime sent failed t msgs))
             (0 :: procLatencies t msgs).
Proof.
  pose proof (fold_latencyStep t msgs acc0) as (HM & _).
  pose proof (fold_maxStep (procLatencies t msgs) 0) as (Hle & Hall & Hin).
  cbv zeta in *. simpl in HM.
  unfold NewWriteResultWithTime; simpl. rewrite HM.
  split.
  - destruct Hin as [Heq|Hin]; [left; now rewrite Heq|now right].
  - constructor; assumption.
Qed.

Lemma maximum_of_clamped (x : Z) (ls : list Z) :
  Exists (fun l => 0 <= l) ls -> is_maximum x (0 :: ls) -> is_maximum x ls.
Proof.
  intros Hex [Hin Hall]. inversion Hall as [|? ? H0 Hls]; subst.
  split; [|exact Hls].
  destruct Hin as [<-|Hin]; [|exact Hin].
  apply Exists_exists in Hex as (l & Hl & Hpos).
  rewrite Forall_forall in Hls. specialize (Hls l Hl).
  assert (l = 0) by lia. subst. now apply list_elem_of_In.
Qed.

(** C7, as the code has it. The loop starts both extremes at zero and
    takes a zero minimum for one not set yet. For a list of messages none
    of whose latencies [timeOfWrite.Sub(TimePulled)] and
    [timeOfWrite.Sub(TimeCreated)] is zero, at least one of each being
    non-negative when the list is not empty, and whose sums fit in an
    [int64]: for a non-empty list [MaxProcLatency] and [MinProcLatency] are
    the greatest and the least processing latency and [AvgProcLatency] is
    their sum divided by the number of messages (integer division), and
    likewise the three message latencies over [TimeCreated]; for the empty
    list the six fields are zero. *)
Theorem NewWriteResultWithTime_latencies
    (sent failed : Z) (timeOfWrite : Time) (messages : list Message) :
  Forall (fun l => l <> 0) (procLatencies timeOfWrite messages) ->
  Forall (fun l => l <> 0) (msgLatencies timeOfWrite messages) ->
  (messages <> [] -> Exists (fun l => 0 <= l) (procLatencies timeOfWrite messages)) ->
  (messages <> [] -> Exists (fun l => 0 <= l) (msgLatencies timeOfWrite messages)) ->
  minInt64 <= sumZ (procLatencies timeOfWrite messages) <= maxInt64 ->
  minInt64 <= sumZ (msgLatencies timeOfWrite messages) <= maxInt64 ->
  let r := NewWriteResultWithTime sent failed timeOfWrite messages in
  (messages = [] ->
     MaxProcLatency r = 0 /\ MinProcLatency r = 0 /\ AvgProcLatency r = 0
     /\ MaxMsgLatency r = 0 /\ MinMsgLatency r = 0 /\ AvgMsgLatency r = 0)
  /\ (messages <> [] ->
     is_maximum (MaxProcLatency r) (procLatencies timeOfWrite messages)
     /\ is_minimum (MinProcLatency r) (procLatencies timeOfWrite messages)
     /\ AvgProcLatency r
        = Z.quot (sumZ (procLatencies timeOfWrite messages))
                 (Z.of_nat (length messages))
     /\ is_maximum (MaxMsgLatency r) (msgLatencies timeOfWrite messages)
     /\ is_minimum (MinMsgLatency r) (msgLatencies timeOfWrite messages)
     /\ AvgMsgLatency r
        = Z.quot (sumZ (msgLatencies timeOfWrite messages))
                 (Z.of_nat (length messages))).
Proof.
  intros HnzP HnzM HexP HexM HsumP HsumM r. split.
  - intros ->. subst r. unfold NewWriteResultWithTime. simpl. repeat split.
  - intros Hne.
    pose proof (fold_latencyStep timeOfWrite messages acc0)
      as (HMaxP & HMinP & HSumP & HMaxM & HMinM & HSumM).
    cbv zeta in *. simpl in HMaxP, HMinP, HSumP, HMaxM, HMinM, HSumM.
    assert (Hlen : (0 <? Z.of_nat (length messages)) = true).
    { destruct messages; [congruence|]. apply Z.ltb_lt. simpl length. lia. }
    subst r. unfold NewWriteResultWithTime, GetAverageFromDuration. simpl.
    rewrite Hlen, HMaxP, HMinP, HSumP, HMaxM, HMinM, HSumM.
    rewrite !fold_sumStep_0, (wrap64_small _ HsumP), (wrap64_small _ HsumM).
    refine (conj _ (conj _ (conj eq_refl (conj _ (conj _ eq_refl))))).
    + apply maximum_of_clamped; [auto|].
      pose proof (fold_maxStep (procLatencies timeOfWrite messages) 0)
        as (Hle & Hall & Hin). cbv zeta in *.
      split; [destruct Hin as [Heq|Hin]; [left; now rewrite Heq|now right]
             |constructor; assumption].
    + destruct messages as [|m ms]; [congruence|].
      exact (fold_minStep_from_zero (Sub timeOfWrite (TimePulled m))
               (procLatencies timeOfWrite ms) HnzP).
    + apply maximum_of_clamped; [auto|].
      pose proof (fold_maxStep (msgLatencies timeOfWrite messages) 0)
        as (Hle & Hall & Hin). cbv zeta in *.
      split; [destruct Hin as [Heq|Hin]; [left; now rewrite Heq|now right]
             |constructor; assumption].
    + destruct messages as [|m ms]; [congruence|].
      exact (fold_minStep_from_zero (Sub timeOfWrite (TimeCreated m))
               (msgLatencies timeOfWrite ms) HnzM).
Qed.

Lemma NewWriteResultWithTime_latencies_witness :
  let r := NewWriteResultWithTime 2 1 Samples.timeNow Samples.testMessages in
  Samples.testMessages <> []
  /\ is_maximum (MaxProcLatency r) (procLatencies Samples.timeNow Samples.testMessages)
  /\ is_minimum (MinProcLatency r) (procLatencies Samples.timeNow Samples.testMessages)
  /\ AvgProcLatency r = 7 * Minute
  /\ AvgMsgLatency r = 50 * Minute.
Proof.
  assert (Hne : Samples.testMessages <> []) by discriminate.
  destruct (NewWriteResultWithTime_latencies 2 1 Samples.timeNow Samples.testMessages)
    as [_ H].
  - repeat constructor; discriminate.
  - repeat constructor; discriminate.
  - intros _. apply Exists_cons_hd. vm_compute. discriminate.
  - intros _. apply Exists_cons_hd. vm_compute. discriminate.
  - vm_compute. split; discriminate.
  - vm_compute. split; discriminate.
  - destruct (H Hne) as (HM & Hm & Ha & _ & _ & Ha').
    split; [exact Hne|]. split; [exact HM|]. split; [exact Hm|].
    split; [rewrite Ha; reflexivity|rewrite Ha'; reflexivity].
Defined.

(** C7 as stated fails: with latencies 0 and 5 the code reports a minimum
    of 5, and with a single latency of -3 it reports a maximum of 0. *)
Lemma NewWriteResultWithTime_latencies_counterexample :
  (Samples.zeroThenFive <> []
   /\ procLatencies 10 Samples.zeroThenFive = [0; 5]
   /\ MinProcLatency (NewWriteResultWithTime 2 0 10 Samples.zeroThenFive) = 5
   /\ ~ is_minimum (MinProcLatency (NewWriteResultWithTime 2 0 10 Samples.zeroThenFive))
                   (procLatencies 10 Samples.zeroThenFive))
  /\ (Samples.fromTheFuture <> []
      /\ procLatencies 10 Samples.fromTheFuture = [-3]
      /\ MaxProcLatency (NewWriteResultWithTime 1 0 10 Samples.fromTheFuture) = 0
      /\ ~ is_maximum (MaxProcLatency (NewWriteResultWithTime 1 0 10 Samples.fromTheFuture))
                      (procLatencies 10 Samples.fromTheFuture)).
Proof.
  split.
  - split; [discriminate|]. split; [reflexivity|]. split; [reflexivity|].
    intros [_ Hall]. vm_compute in Hall.
    inversion Hall as [|? ? H0 _]. apply H0. reflexivity.
  - split; [discriminate|]. split; [reflexivity|]. split; [reflexivity|].
    intros [Hin _]. vm_compute in Hin. destruct Hin as [H|[]]. discriminate.
Qed.

End LatencyStatistics.

(** ** Construction of the Kafka target *)

Section KafkaConstruction.
Import Kafka.

Lemma getKafkaVersion_unsupported (lib : Library) (targetVersion : string) :
  targetVersion <> "" ->
  (forall v, ParseKafkaVersion lib targetVersion = inl v ->
             ~ In v (SupportedVersions lib)) ->
  exists e, getKafkaVersion lib targetVersion = (DefaultVersion lib, Some e).
Proof.
  intros Hne Hunsupported. unfold getKafkaVersion.
  destruct (String.eqb_spec targetVersion "") as [Heq|_]; [contradiction|].
  destruct (ParseKafkaVersion lib targetVersion) as [v|e] eqn:Hparse.
  - destruct (existsb _ (SupportedVersions lib)) eqn:Hex.
    + apply existsb_exists in Hex as (v' & Hin & Hv).
      apply bool_decide_eq_true in Hv. subst v'.
      exfalso. exact (Hunsupported v eq_refl Hin).
    + eexists. reflexivity.
  - eexists. reflexivity.
Qed.

Lemma saslSettings_invalid (algorithm : string) :
  algorithm <> "sha256" -> algorithm <> "sha512" -> algorithm <> "plaintext" ->
  exists e, saslSettings algorithm = inr e.
Proof.
  intros H256 H512 Hplain. unfold saslSettings.
  destruct (String.eqb_spec algorithm "sha512"); [contradiction|].
  destruct (String.eqb_spec algorithm "sha256"); [contradiction|].
  destruct (String.eqb_spec algorithm "plaintext"); [contradiction|].
  eexists. reflexivity.
Qed.

(** C9: a configuration whose [TargetVersion] is non-empty and is not a
    supported Kafka version (it does not parse, or parses to a version
    outside [sarama.SupportedVersions]), or that enables SASL with an
    algorithm other than sha256, sha512 and plaintext, makes
    [NewKafkaTarget] return a nil target and a non-nil error without
    creating any producer. *)
Theorem NewKafkaTarget_fails_fast (lib : Library) (cfg : KafkaConfig) :
  (TargetVersion cfg <> ""
   /\ forall v, ParseKafkaVersion lib (TargetVersion cfg) = inl v ->
                ~ In v (SupportedVersions lib))
  \/ (EnableSASL cfg = true
      /\ SASLAlgorithm cfg <> "sha256"
      /\ SASLAlgorithm cfg <> "sha512"
      /\ SASLAlgorithm cfg <> "plaintext") ->
  target (NewKafkaTarget lib cfg) = None
  /\ constructionError (NewKafkaTarget lib cfg) <> None
  /\ Forall (fun e => isProducerEvent e = false) (events (NewKafkaTarget lib cfg)).
Proof.
  intros [[Hne Hunsupported]|(Hsasl & H256 & H512 & Hplain)].
  - destruct (getKafkaVersion_unsupported lib _ Hne Hunsupported) as [e He].
    unfold NewKafkaTarget. rewrite He. simpl.
    split; [reflexivity|]. split; [discriminate|constructor].
  - unfold NewKafkaTarget.
    destruct (getKafkaVersion lib (TargetVersion cfg)) as [v [e|]].
    + simpl. split; [reflexivity|]. split; [discriminate|constructor].
    + rewrite Hsasl.
      destruct (saslSettings_invalid _ H256 H512 Hplain) as [e ->]. simpl.
      split; [reflexivity|]. split; [discriminate|].
      constructor; [reflexivity|constructor].
Qed.

Lemma NewKafkaTarget_fails_fast_witness :
  (target (NewKafkaTarget KafkaSamples.library
             (KafkaSamples.config "9.9.9" false "")) = None
   /\ constructionError (NewKafkaTarget KafkaSamples.library
                           (KafkaSamples.config "9.9.9" false ""))
      = Some (ErrText "unsupported version `9.9.9`. select older, compatible version instead"))
  /\ (target (NewKafkaTarget KafkaSamples.library
                (KafkaSamples.config "2.8.0" true "md5")) = None
      /\ events (NewKafkaTarget KafkaSamples.library
                   (KafkaSamples.config "2.8.0" true "md5")) = [SetGlobalLogger]).
Proof.
  split.
  - destruct (NewKafkaTarget_fails_fast KafkaSamples.library
                (KafkaSamples.config "9.9.9" false "")) as (Ht & _ & _).
    + left. split; [discriminate|].
      intros v Hv. vm_compute in Hv. injection Hv as <-.
      intros [H|[H|[]]]; discriminate.
    + split; [exact Ht|reflexivity].
  - destruct (NewKafkaTarget_fails_fast KafkaSamples.library
                (KafkaSamples.config "2.8.0" true "md5")) as (Ht & _ & _).
    + right. repeat split; discriminate.
    + split; [exact Ht|reflexivity].
Defined.

(** A supported version and a known algorithm do reach the producer. *)
Example NewKafkaTarget_creates_producer :
  events (NewKafkaTarget KafkaSamples.library
            (KafkaSamples.config "2.8.0" true "sha256"))
  = [SetGlobalLogger;
     CreateAsyncProducer ["broker1:9092"; "broker2:9092"]
       (withTLSAndFlush (KafkaSamples.config "2.8.0" true "sha256") None
          (withSASL (KafkaSamples.config "2.8.0" true "sha256")
             (Some SHA256, SASLTypeSCRAMSHA256)
             (baseConfig KafkaSamples.library
                (KafkaSamples.config "2.8.0" true "sha256")
                KafkaSamples.v2_8_0)));
     ForwardResults].
Proof. reflexivity. Qed.

End KafkaConstruction.

(** ** The SQS source: building the messages of a fetch *)

Section SQSProcess.
Import SQS.

Lemma buildMessage_fallback (queueURL : string) (timePulled : Time)
    (uuid : string) (msg : SQSMessage) :
  noUsableTimestamp msg ->
  TimeCreated (fst (buildMessage queueURL timePulled uuid msg)) = timePulled.
Proof.
  unfold buildMessage. intros [Habsent|(s & Hs & Hparse)].
  - rewrite Habsent. reflexivity.
  - rewrite Hs, Hparse. reflexivity.
Qed.

Lemma buildMessage_fields (queueURL : string) (timePulled : Time)
    (uuid : string) (msg : SQSMessage) :
  let m := fst (buildMessage queueURL timePulled uuid msg) in
  Data m = list_byte_of_string (Body msg)
  /\ PartitionKey m = uuid
  /\ AckFunc m = Some (AckDelete queueURL (ReceiptHandle msg))
  /\ TimePulled m = timePulled.
Proof.
  unfold buildMessage.
  destruct (Attributes msg !! MessageSystemAttributeNameSentTimestamp) as [s|];
    [destruct (ParseInt s)|]; simpl; repeat split.
Qed.

(** C10: when [ReceiveMessage] succeeds, [process] builds one message per
    SQS message, in order, and calls the target with just these messages:
    what it logs is what it logs with a target that answers nil, followed
    by the error that the target at hand answers for these messages, if
    any; and it returns nil whatever the target answers. A message whose
    SentTimestamp attribute is absent or does not parse is among them, with
    [TimeCreated] equal to [TimePulled], the instant of the fetch; and
    every message handed over has its [TimeCreated] set, to that instant or
    to the timestamp parsed. *)
Theorem process_timestamp_fallback
    (queueURL : string) (msgs : list SQSMessage) (timePulled : Time)
    (newUUID : nat -> string) (writeToTarget : list Message -> option error)
    (i : nat) (msg : SQSMessage) :
  msgs !! i = Some msg ->
  noUsableTimestamp msg ->
  let r := process queueURL (inl msgs) timePulled newUUID writeToTarget in
  let silent := process queueURL (inl msgs) timePulled newUUID (fun _ => None) in
  returned r = None
  /\ exists messages m,
       forwarded r = Some messages
       /\ logged r
          = logged silent ++ match writeToTarget messages with
                             | Some e => [LogError e]
                             | None => []
                             end
       /\ length messages = length msgs
       /\ messages !! i = Some m
       /\ Data m = list_byte_of_string (Body msg)
       /\ TimeCreated m = timePulled
       /\ TimePulled m = timePulled
       /\ forall j m',
            messages !! j = Some m' ->
            exists msg',
              msgs !! j = Some msg'
              /\ ((noUsableTimestamp msg' /\ TimeCreated m' = timePulled)
                  \/ exists s millis,
                       Attributes msg' !! MessageSystemAttributeNameSentTimestamp
                       = Some s
                       /\ ParseInt s = Some millis
                       /\ TimeCreated m' = wrap64 (millis * Millisecond)).
Proof.
  intros Hi Hts r silent. subst r silent.
  unfold process, processFetch, processDeliver.
  set (built := imap _ msgs).
  split.
  - destruct (writeToTarget _); reflexivity.
  - exists (fst <$> built),
           (fst (buildMessage queueURL timePulled (newUUID i) msg)).
    split; [destruct (writeToTarget _); reflexivity|].
    split.
    { destruct (writeToTarget _); simpl; rewrite ?app_nil_r; reflexivity. }
    split; [subst built; now rewrite length_fmap, length_imap|].
    split; [subst built; now rewrite list_lookup_fmap, list_lookup_imap, Hi|].
    pose proof (buildMessage_fields queueURL timePulled (newUUID i) msg)
      as (HD & _ & _ & HP).
    split; [exact HD|]. split; [now apply buildMessage_fallback|].
    split; [exact HP|].
    intros j m' Hj. subst built.
    rewrite list_lookup_fmap, list_lookup_imap in Hj.
    destruct (msgs !! j) as [msg'|]; [|discriminate Hj].
    simpl in Hj. injection Hj as <-.
    exists msg'. split; [reflexivity|].
    unfold buildMessage, noUsableTimestamp.
    destruct (Attributes msg' !! MessageSystemAttributeNameSentTimestamp) as [s|];
      [destruct (ParseInt s) as [millis|] eqn:Hparse|]; simpl.
    + right. exists s, millis. repeat split; assumption.
    + left. split; [right; exists s; split; [reflexivity|assumption]|reflexivity].
    + left. split; [now left|reflexivity].
Qed.

Lemma process_timestamp_fallback_witness :
  SQSSamples.batch !! 2%nat = Some SQSSamples.badTimestamp
  /\ noUsableTimestamp SQSSamples.badTimestamp
  /\ returned (process "queue-url" (inl SQSSamples.batch) SQSSamples.pulledAt
                 SQSSamples.uuids SQSSamples.failingTarget) = None
  /\ exists before,
       logged (process "queue-url" (inl SQSSamples.batch) SQSSamples.pulledAt
                 SQSSamples.uuids SQSSamples.failingTarget)
       = before ++ [LogError (ErrText "target unavailable")].
Proof.
  assert (Hbad : noUsableTimestamp SQSSamples.badTimestamp).
  { right. exists "16e11". split; reflexivity. }
  split; [reflexivity|]. split; [exact Hbad|].
  destruct (process_timestamp_fallback "queue-url" SQSSamples.batch
              SQSSamples.pulledAt SQSSamples.uuids SQSSamples.failingTarget
              2 SQSSamples.badTimestamp eq_refl Hbad)
    as (Hnil & messages & m & _ & Hlog & _).
  split; [exact Hnil|].
  eexists. exact Hlog.
Defined.

(** Every message handed to the target has its [TimeCreated] set: to the
    parsed timestamp, or to the instant of the fetch. *)
Lemma buildMessage_TimeCreated (queueURL : string) (timePulled : Time)
    (uuid : string) (msg : SQSMessage) :
  let m := fst (buildMessage queueURL timePulled uuid msg) in
  (noUsableTimestamp msg /\ TimeCreated m = timePulled)
  \/ (exists s millis,
        Attributes msg !! MessageSystemAttributeNameSentTimestamp = Some s
        /\ ParseInt s = Some millis
        /\ TimeCreated m = wrap64 (millis * Millisecond)).
Proof.
  unfold buildMessage, noUsableTimestamp.
  destruct (Attributes msg !! MessageSystemAttributeNameSentTimestamp) as [s|];
    [destruct (ParseInt s) as [millis|] eqn:Hparse|]; simpl.
  - right. exists s, millis. repeat split; assumption.
  - left. split; [right; exists s; split; [reflexivity|assumption]|reflexivity].
  - left. split; [now left|reflexivity].
Qed.

Example process_sample :
  forwarded (process "queue-url" (inl SQSSamples.batch) SQSSamples.pulledAt
               SQSSamples.uuids SQSSamples.failingTarget)
  = Some [ mkMessage (list_byte_of_string "first") "uuid-0"
             (Some (AckDelete "queue-url" "rh-1"))
             (1600000000000 * Millisecond) SQSSamples.pulledAt None;
           mkMessage (list_byte_of_string "second") "uuid-1"
             (Some (AckDelete "queue-url" "rh-2"))
             SQSSamples.pulledAt SQSSamples.pulledAt None;
           mkMessage (list_byte_of_string "third") "uuid-n"
             (Some (AckDelete "queue-url" "rh-3"))
             SQSSamples.pulledAt SQSSamples.pulledAt None ].
Proof. vm_compute. reflexivity. Qed.

End SQSProcess.

(** ** Filtering and chunking keep every message *)

Section Chunking.
Import PkgModels.

Variable h : Heap.

Lemma gtb_isOversized (limit : Z) (p : ptr) :
  (msgSize h p >? limit) = bool_decide (isOversized h limit p).
Proof.
  unfold isOversized. rewrite Z.gtb_ltb.
  destruct (Z.ltb_spec limit (msgSize h p)).
  - now rewrite bool_decide_true.
  - rewrite bool_decide_false; [reflexivity|lia].
Qed.

Lemma FilterOversizedMessages_fold (limit : Z) (messages safe oversized : list ptr) :
  fold_left
    (fun '(safe, oversized) msg =>
       if msgSize h msg >? limit
       then (safe, oversized ++ [msg])
       else (safe ++ [msg], oversized))
    messages (safe, oversized)
  = (safe ++ filter (fun m => ~ isOversized h limit m) messages,
     oversized ++ filter (isOversized h limit) messages).
Proof.
  revert safe oversized.
  induction messages as [|m messages IH]; intros safe oversized; simpl.
  - now rewrite !app_nil_r.
  - rewrite gtb_isOversized. case_bool_decide as Hm.
    + rewrite IH, filter_cons_False, filter_cons_True by tauto.
      now rewrite <- app_assoc.
    + rewrite IH, filter_cons_True, filter_cons_False by tauto.
      now rewrite <- app_assoc.
Qed.

Lemma FilterOversizedMessages_filter (limit : Z) (messages : list ptr) :
  FilterOversizedMessages h messages limit
  = (filter (fun m => ~ isOversized h limit m) messages,
     filter (isOversized h limit) messages).
Proof. apply (FilterOversizedMessages_fold limit messages [] []). Qed.

Lemma keep_or_oversized (limit : Z) (messages : list ptr) :
  filter (fun m => ~ isOversized h limit m) messages
    ++ filter (isOversized h limit) messages ≡ₚ messages.
Proof.
  rewrite Permutation_app_comm. apply filter_app_complement.
Qed.

Lemma chunkStep_fold (chunkSize limit maxChunk : Z) (messages : list ptr)
    (a : ChunkAcc) :
  let a' := fold_left (chunkStep h chunkSize limit maxChunk) messages a in
  concat (chunks a') ++ chunkBuffer a'
  = concat (chunks a) ++ chunkBuffer a
    ++ filter (fun m => ~ isOversized h limit m) messages
  /\ oversizedAcc a' = oversizedAcc a ++ filter (isOversized h limit) messages
  /\ (Forall (fun c => c <> []) (chunks a) -> Forall (fun c => c <> []) (chunks a')).
Proof.
  revert a. induction messages as [|m messages IH]; intros a; simpl.
  - rewrite !app_nil_r. auto.
  - destruct (IH (chunkStep h chunkSize limit maxChunk a m)) as (Hc & Ho & Hne).
    cbv zeta. rewrite Hc, Ho. clear Hc Ho.
    unfold chunkStep in *. rewrite gtb_isOversized in *.
    case_bool_decide as Hm.
    + simpl in *. rewrite filter_cons_False, filter_cons_True by tauto.
      rewrite <- app_assoc. auto.
    + rewrite filter_cons_True, filter_cons_False by tauto.
      destruct (negb (Nat.eqb (length (chunkBuffer a)) 0) && _) eqn:Hclose;
        simpl in *.
      * rewrite concat_app. simpl. rewrite app_nil_r, <- !app_assoc.
        split; [reflexivity|]. split; [reflexivity|].
        intros Hall. apply Hne. apply Forall_app. split; [exact Hall|].
        constructor; [|constructor].
        apply andb_true_iff in Hclose as [Hlen _].
        destruct (chunkBuffer a); [discriminate|discriminate].
      * rewrite <- !app_assoc. auto.
Qed.

Lemma GetChunkedMessages_filter (chunkSize limit maxChunk : Z)
    (messages : list ptr) :
  let '(chunks, oversized) :=
    GetChunkedMessages h messages chunkSize limit maxChunk in
  concat chunks = filter (fun m => ~ isOversized h limit m) messages
  /\ oversized = filter (isOversized h limit) messages
  /\ Forall (fun c => c <> []) chunks.
Proof.
  unfold GetChunkedMessages.
  pose proof (chunkStep_fold chunkSize limit maxChunk messages
                (mkChunkAcc [] [] 0 [])) as (Hc & Ho & Hne).
  cbv zeta in *. simpl in Hc, Ho, Hne.
  set (a := fold_left _ messages _) in *.
  split; [|split; [exact Ho|]].
  - destruct (chunkBuffer a) as [|m b] eqn:Hb; simpl.
    + rewrite app_nil_r in Hc. exact Hc.
    + rewrite concat_app. simpl. rewrite app_nil_r. exact Hc.
  - destruct (chunkBuffer a) as [|m b] eqn:Hb; simpl.
    + apply Hne. constructor.
    + apply Forall_app. split; [apply Hne; constructor|].
      constructor; [discriminate|constructor].
Qed.

End Chunking.

(** ** Kafka: the loops of [Write] *)

Section KafkaWrite.
Import Kafka.

Context {W : Type} (P : Producers W).

Lemma acksMatch_recordFailed (h0 : Heap) (st : WriteState W) m e w :
  acksMatch h0 st -> acksMatch h0 (recordFailed st m e w).
Proof.
  intros [Hh Ha]. split; [|exact Ha].
  intros q. simpl. unfold heap_SetError.
  destruct (Nat.eqb_spec q m) as [->|_]; [simpl|]; apply Hh.
Qed.

Lemma acksMatch_recordSent (h0 : Heap) (st : WriteState W) m w :
  acksMatch h0 st -> acksMatch h0 (recordSent st m w).
Proof.
  intros [Hh Ha]. split; [exact Hh|].
  simpl. unfold invokeAck. rewrite filter_app, Ha, Hh.
  destruct (AckFunc (h0 m)) as [c|] eqn:Hm.
  - rewrite (filter_cons_True (hasAck h0)); [reflexivity|].
    unfold hasAck. rewrite Hm. eauto.
  - rewrite (filter_cons_False (hasAck h0)); [now rewrite filter_nil, app_nil_r|].
    unfold hasAck. rewrite Hm. intros [? ?]. discriminate.
Qed.

Lemma syncStep_fold (h0 : Heap) (topic : string) (msgs : list ptr)
    (st : WriteState W) :
  let st' := fold_left (syncStep P topic) msgs st in
  (acksMatch h0 st -> acksMatch h0 st')
  /\ sent st' ++ failed st' ≡ₚ (sent st ++ failed st) ++ msgs.
Proof.
  revert st. induction msgs as [|m msgs IH]; intros st; simpl.
  - split; [auto|]. now rewrite app_nil_r.
  - destruct (IH (syncStep P topic st m)) as [Hinv Hperm].
    cbv zeta. unfold syncStep in *.
    destruct (SendMessage P (world st) _) as [[e|] w].
    + split; [intros H; apply Hinv, acksMatch_recordFailed, H|].
      rewrite Hperm. simpl. rewrite <- ?app_assoc. simpl. reflexivity.
    + split; [intros H; apply Hinv, acksMatch_recordSent, H|].
      rewrite Hperm. simpl. rewrite <- ?app_assoc. simpl.
      apply Permutation_app_head, Permutation_middle.
Qed.

Lemma drain_returned (h0 : Heap) (n : nat) (st st' : WriteState W) :
  drain P n st = Returned st' ->
  exists results,
    receive P n (world st) = Some (results, world st')
    /\ length results = n
    /\ Forall (fun r => is_Some (handleOf r)) results
    /\ sent st' = sent st ++ omap handleOf (filter succeeded results)
    /\ failed st' = failed st
                     ++ omap handleOf (filter (fun r => ~ succeeded r) results)
    /\ (acksMatch h0 st -> acksMatch h0 st').
Proof.
  revert st. induction n as [|n IH]; intros st; simpl.
  - intros [= <-]. exists []. simpl. rewrite !app_nil_r.
    split; [reflexivity|]. split; [reflexivity|]. split; [constructor|].
    split; [reflexivity|]. split; [reflexivity|]. auto.
  - destruct (asyncResults P (world st)) as [[r w]|]; [|discriminate].
    destruct (assertMessage (Metadata (Msg r))) as [m|] eqn:Hm; [|discriminate].
    destruct (Err r) as [e|] eqn:He; intros Hd; apply IH in Hd;
      destruct Hd as (rs & Hrecv & Hlen & Hall & Hs & Hf & Hinv);
      simpl in Hrecv; rewrite Hrecv; exists (r :: rs);
      (split; [reflexivity|]); (split; [simpl; lia|]);
      (split; [constructor; [unfold handleOf; rewrite Hm; eauto|exact Hall]|]).
    + rewrite filter_cons_False, filter_cons_True
        by (unfold succeeded; rewrite He; first [discriminate|tauto]).
      simpl in *. unfold handleOf at 2. rewrite Hm.
      rewrite Hs, Hf, <- app_assoc. simpl.
      split; [reflexivity|]. split; [reflexivity|].
      intros H. apply Hinv, acksMatch_recordFailed, H.
    + rewrite filter_cons_True, filter_cons_False
        by (unfold succeeded; rewrite He; tauto).
      simpl in *. unfold handleOf at 1. rewrite Hm.
      rewrite Hs, Hf, <- app_assoc. simpl.
      split; [reflexivity|]. split; [reflexivity|].
      intros H. apply Hinv, acksMatch_recordSent, H.
Qed.



End KafkaWrite.

(** ** EventHub: [process] and the loop of [Write] *)

Section EventHubWrite.
Import EventHub.

Context {W : Type} (hub : Hub W) (eht : EventHubTarget) (h : Heap).

Lemma ackAll_filter (acks messages : list ptr) :
  ackAll h acks messages = acks ++ filter (hasAck h) messages.
Proof.
  unfold ackAll. revert acks.
  induction messages as [|m messages IH]; intros acks; simpl.
  - now rewrite app_nil_r.
  - rewrite IH. unfold Kafka.invokeAck.
    destruct (AckFunc (h m)) as [c|] eqn:Hm.
    + rewrite filter_cons_True by (unfold hasAck; rewrite Hm; eauto).
      now rewrite <- app_assoc.
    + rewrite filter_cons_False; [reflexivity|].
      unfold hasAck. rewrite Hm. intros [? ?]. discriminate.
Qed.

Lemma causesOf_Append (err : option error) (e e' : error) :
  In e' (causesOf err) -> In e' (causesOf (multierror_Append err e)).
Proof.
  intros H. unfold multierror_Append. cbn [causesOf].
  apply in_or_app. left. destruct err as [[t|c msg|es]|]; exact H.
Qed.

Lemma causesOf_Append_new (err : option error) (c : error) (msg : string) :
  In (ErrWrap c msg) (causesOf (multierror_Append err (ErrWrap c msg))).
Proof.
  unfold multierror_Append. cbn [causesOf]. apply in_or_app. right. now left.
Qed.

(** A chunk is reported as a whole: all sent and acknowledged, or all
    failed. *)
Lemma process_whole_chunk (acks : list ptr) (w : W) (chunk : list ptr) :
  let r := process hub eht h acks w chunk in
  match fst (SendBatch hub w (contextTimeout eht) (toEvents h chunk)
               (batchByteLimit eht)) with
  | Some e =>
      res r = PkgModels.NewTargetWriteResult [] chunk [] []
      /\ processError r = Some (ErrWrap e "Failed to send message batch to EventHub")
      /\ ackedAfter r = acks
  | None =>
      res r = PkgModels.NewTargetWriteResult chunk [] [] []
      /\ processError r = None
      /\ ackedAfter r = acks ++ filter (hasAck h) chunk
  end
  /\ worldAfter r = snd (SendBatch hub w (contextTimeout eht) (toEvents h chunk)
                           (batchByteLimit eht)).
Proof.
  unfold process.
  destruct (SendBatch hub w _ _ _) as [[e|] w']; simpl.
  - repeat split.
  - rewrite ackAll_filter. repeat split.
Qed.

Lemma chunkLoop_step (st : WriteState W) (chunk : list ptr) :
  let st' := chunkLoop hub eht h st chunk in
  PkgModels.Sent (writeResult st') ++ PkgModels.Failed (writeResult st')
    ≡ₚ (PkgModels.Sent (writeResult st) ++ PkgModels.Failed (writeResult st))
       ++ chunk
  /\ PkgModels.Oversized (writeResult st') = PkgModels.Oversized (writeResult st)
  /\ PkgModels.Invalid (writeResult st') = PkgModels.Invalid (writeResult st)
  /\ (countsMatch h st -> countsMatch h st')
  /\ (forall m, In m (PkgModels.Failed (writeResult st)) ->
                In m (PkgModels.Failed (writeResult st')))
  /\ (forall e, In e (causesOf (errResult st)) -> In e (causesOf (errResult st'))).
Proof.
  pose proof (process_whole_chunk (acked st) (world st) chunk) as [Hr _].
  cbv zeta in *. unfold chunkLoop.
  set (r := process hub eht h (acked st) (world st) chunk) in *.
  destruct (fst (SendBatch hub (world st) _ _ _)) as [e|];
    destruct Hr as (Hres & Herr & Hack); rewrite Hres, Herr, Hack; simpl;
    rewrite ?app_nil_r.
  - split; [now rewrite app_assoc|]. split; [reflexivity|]. split; [reflexivity|].
    split; [|split].
    + intros (Hs & Hf & Ha).
      split; [|split]; simpl; rewrite ?app_nil_r, ?length_app; simpl;
        [lia|lia|exact Ha].
    + intros m Hm. apply in_or_app. now left.
    + intros e' He'.
      exact (causesOf_Append (errResult st)
               (ErrWrap e "Failed to send message batch to EventHub") e' He').
  - split; [|split; [reflexivity|split; [reflexivity|split; [|split]]]].
    + rewrite <- !app_assoc. apply Permutation_app_head, Permutation_app_comm.
    + intros (Hs & Hf & Ha).
      split; [|split]; simpl; rewrite ?app_nil_r, ?length_app; simpl;
        [lia|lia|now rewrite filter_app, Ha].
    + auto.
    + auto.
Qed.

Lemma chunkLoop_fold (chunks : list (list ptr)) (st : WriteState W) :
  let st' := fold_left (chunkLoop hub eht h) chunks st in
  PkgModels.Sent (writeResult st') ++ PkgModels.Failed (writeResult st')
    ≡ₚ (PkgModels.Sent (writeResult st) ++ PkgModels.Failed (writeResult st))
       ++ concat chunks
  /\ PkgModels.Oversized (writeResult st') = PkgModels.Oversized (writeResult st)
  /\ PkgModels.Invalid (writeResult st') = PkgModels.Invalid (writeResult st)
  /\ (countsMatch h st -> countsMatch h st')
  /\ (forall m, In m (PkgModels.Failed (writeResult st)) ->
                In m (PkgModels.Failed (writeResult st')))
  /\ (forall e, In e (causesOf (errResult st)) -> In e (causesOf (errResult st'))).
Proof.
  revert st. induction chunks as [|chunk chunks IH]; intros st; simpl.
  - rewrite app_nil_r.
    split; [reflexivity|]. split; [reflexivity|]. split; [reflexivity|].
    split; [auto|split; auto].
  - destruct (IH (chunkLoop hub eht h st chunk)) as (Hp & Ho & Hi & Hc & Hf & He).
    destruct (chunkLoop_step st chunk) as (Hp1 & Ho1 & Hi1 & Hc1 & Hf1 & He1).
    cbv zeta in *.
    split; [now rewrite Hp, Hp1, <- app_assoc|].
    split; [congruence|]. split; [congruence|].
    split; [auto|]. split; auto.
Qed.

Lemma chunkLoop_fold_multi (chunks : list (list ptr)) (st : WriteState W) :
  (exists es, errResult st = Some (ErrMulti es)) ->
  exists es, errResult (fold_left (chunkLoop hub eht h) chunks st)
             = Some (ErrMulti es).
Proof.
  revert st. induction chunks as [|chunk chunks IH]; intros st Hst; simpl.
  - exact Hst.
  - apply IH. unfold chunkLoop.
    destruct (processError _) as [e|]; [|exact Hst].
    unfold multierror_Append. eauto.
Qed.

End EventHubWrite.

(** ** The delivery result of a write *)

Section DeliveryResults.

Context {W1 W2 : Type} (P : Kafka.Producers W1) (hub : EventHub.Hub W2).




(** The classification of the synchronous Kafka path: a permutation of
    the batch, with the callbacks of the messages sent. *)
Lemma Write_sync (kt : Kafka.KafkaTarget) (h : Heap) (messages : list ptr)
    (w : W1) :
  Kafka.asyncProducer kt = false -> Kafka.syncProducer kt = true ->
  exists r,
    Kafka.Write P kt h messages w = Returned r
    /\ PkgModels.Sent (Kafka.result r) ++ PkgModels.Failed (Kafka.result r)
         ++ PkgModels.Oversized (Kafka.result r) ≡ₚ messages
    /\ PkgModels.Invalid (Kafka.result r) = []
    /\ PkgModels.SentCount (Kafka.result r)
       = Z.of_nat (length (PkgModels.Sent (Kafka.result r)))
    /\ PkgModels.FailedCount (Kafka.result r)
       = Z.of_nat (length (PkgModels.Failed (Kafka.result r)))
    /\ Kafka.ackedAfter r = filter (hasAck h) (PkgModels.Sent (Kafka.result r)).
Proof.
  intros Ha Hs. unfold Kafka.Write.
  rewrite FilterOversizedMessages_filter, Ha, Hs.
  set (safe := filter _ messages).
  pose proof (syncStep_fold P h (Kafka.topicName kt) safe
                (Kafka.mkWriteState [] [] None h [] w)) as [Hinv Hperm].
  cbv zeta in *. set (st := fold_left _ safe _) in *.
  eexists. split; [reflexivity|]. simpl.
  split; [|split; [reflexivity|split; [reflexivity|split; [reflexivity|]]]].
  - rewrite app_assoc, Hperm. simpl. apply keep_or_oversized.
  - apply Hinv. split; [reflexivity|reflexivity].
Qed.


(** The classification of the EventHub path. *)
Lemma Write_eventhub (eht : EventHub.EventHubTarget) (h : Heap)
    (messages : list ptr) (w : W2) :
  let out := EventHub.Write hub eht h messages w in
  PkgModels.Sent (EventHub.writeResult out)
    ++ PkgModels.Failed (EventHub.writeResult out)
    ++ PkgModels.Oversized (EventHub.writeResult out) ≡ₚ messages
  /\ PkgModels.Invalid (EventHub.writeResult out) = []
  /\ EventHub.countsMatch h out.
Proof.
  unfold EventHub.Write, EventHub.MaximumAllowedMessageSizeBytes.
  pose proof (GetChunkedMessages_filter h (EventHub.chunkMessageLimit eht)
                (EventHub.messageByteLimit eht) (EventHub.chunkByteLimit eht)
                messages) as Hchunks.
  destruct (PkgModels.GetChunkedMessages h messages _ _ _) as [chunks oversized].
  destruct Hchunks as (Hc & Ho & _).
  pose proof (chunkLoop_fold hub eht h chunks (EventHub.start oversized w))
    as (Hperm & Hover & Hinv & Hcounts & _ & _).
  cbv zeta in *. set (st := fold_left _ chunks _) in *. simpl in *.
  split; [|split].
  - rewrite app_assoc, Hperm, Hover, Hc, Ho. apply keep_or_oversized.
  - exact Hinv.
  - apply Hcounts. repeat split.
Qed.




End DeliveryResults.



(** With neither producer configured, [Write] reports an error and
    classifies only the oversized messages. *)
Example Write_without_producer :
  exists r,
    Kafka.Write TargetSamples.producers TargetSamples.noProducer
      TargetSamples.heap TargetSamples.batch [] = Returned r
    /\ PkgModels.Sent (Kafka.result r) = []
    /\ PkgModels.Failed (Kafka.result r) = []
    /\ PkgModels.Oversized (Kafka.result r) = [5%nat]
    /\ Kafka.writeError r
       = Some (ErrWrap (ErrMulti [ErrText "no producer has been configured"])
                 "Error writing messages to Kafka topic: events").
Proof. eexists. repeat split. Qed.

(** ** Kafka, asynchronous path: one outcome per message *)

Section AsyncAccounting.
Import Kafka.

Context {W : Type} (P : Producers W).


(** The asynchronous path receives as many results as it has sent, no
    more and no fewer, whatever they are. *)
Lemma Write_async_drains (kt : KafkaTarget) (h : Heap)
    (messages : list ptr) (w : W) (r : WriteReturn W) :
  asyncProducer kt = true ->
  Write P kt h messages w = Returned r ->
  let safeMessages :=
    fst (PkgModels.FilterOversizedMessages h messages (messageByteLimit kt)) in
  exists w' results,
    submit P (topicName kt) h safeMessages w = Some w'
    /\ receive P (length safeMessages) w' = Some (results, worldAfter r)
    /\ length results = length safeMessages.
Proof.
  intros Ha. unfold Write.
  rewrite FilterOversizedMessages_filter, Ha. simpl fst.
  destruct (submit P _ h _ w) as [w'|]; [|discriminate].
  destruct (drain P _ _) as [st| |] eqn:Hd; [|discriminate..].
  intros [= <-]. simpl.
  apply (drain_returned P h) in Hd as (rs & Hrecv & Hlen & _).
  exists w', rs. auto.
Qed.

End AsyncAccounting.



(** ** EventHub: a chunk the transport fails *)

Section EventHubFailure.
Import EventHub.

Context {W : Type} (hub : Hub W).

(** C5: when [SendBatch] answers a chunk with an error, [process] reports
    every message of the chunk Failed and none Sent, invokes no callback,
    and returns the error, wrapped; [Write] then lists the messages of the
    chunk among the Failed and returns an error that holds this cause. *)
Theorem process_failed_chunk (eht : EventHubTarget) (h : Heap)
    (messages : list ptr) (w : W)
    (before after : list (list ptr)) (chunk : list ptr) (e : error) :
  let chunks :=
    fst (PkgModels.GetChunkedMessages h messages (chunkMessageLimit eht)
           (MaximumAllowedMessageSizeBytes eht) (chunkByteLimit eht)) in
  let oversized :=
    snd (PkgModels.GetChunkedMessages h messages (chunkMessageLimit eht)
           (MaximumAllowedMessageSizeBytes eht) (chunkByteLimit eht)) in
  let st := fold_left (chunkLoop hub eht h) before (start oversized w) in
  chunks = before ++ chunk :: after ->
  fst (SendBatch hub (world st) (contextTimeout eht) (toEvents h chunk)
         (batchByteLimit eht)) = Some e ->
  let r := process hub eht h (acked st) (world st) chunk in
  let out := Write hub eht h messages w in
  PkgModels.Failed (res r) = chunk
  /\ PkgModels.FailedCount (res r) = Z.of_nat (length chunk)
  /\ PkgModels.Sent (res r) = []
  /\ PkgModels.SentCount (res r) = 0
  /\ ackedAfter r = acked st
  /\ processError r = Some (ErrWrap e "Failed to send message batch to EventHub")
  /\ (forall m, In m chunk -> In m (PkgModels.Failed (writeResult out)))
  /\ exists causes,
       errResult out
       = Some (ErrWrap (ErrMulti causes) "Error writing messages to EventHub")
       /\ In (ErrWrap e "Failed to send message batch to EventHub") causes.
Proof.
  intros chunks oversized st Hchunks Hsend r out.
  assert (Hout : out = let st' := fold_left (chunkLoop hub eht h) after
                                    (chunkLoop hub eht h st chunk) in
                       mkWriteState (writeResult st')
                         (errors_Wrap (errResult st')
                            "Error writing messages to EventHub")
                         (acked st') (world st')).
  { subst out st chunks oversized. unfold Write.
    destruct (PkgModels.GetChunkedMessages h messages _ _ _) as [cs os].
    simpl in Hchunks. simpl. rewrite Hchunks.
    rewrite fold_left_app. reflexivity. }
  clearbody out. subst out. cbv zeta.
  pose proof (process_whole_chunk hub eht h (acked st) (world st) chunk)
    as [Hr _].
  cbv zeta in Hr. rewrite Hsend in Hr. destruct Hr as (Hres & Herr & Hack).
  fold r in Hres, Herr, Hack.
  assert (Hstep : PkgModels.Failed (writeResult (chunkLoop hub eht h st chunk))
                  = PkgModels.Failed (writeResult st) ++ chunk
                  /\ errResult (chunkLoop hub eht h st chunk)
                     = multierror_Append (errResult st)
                         (ErrWrap e "Failed to send message batch to EventHub")).
  { unfold chunkLoop. fold r. rewrite Hres, Herr. simpl. auto. }
  destruct Hstep as [HF HE].
  pose proof (chunkLoop_fold hub eht h after (chunkLoop hub eht h st chunk))
    as (_ & _ & _ & _ & Hfailed & Hcauses).
  cbv zeta in Hfailed, Hcauses.
  destruct (chunkLoop_fold_multi hub eht h after (chunkLoop hub eht h st chunk))
    as [causes Hmulti].
  { rewrite HE. unfold multierror_Append. eauto. }
  rewrite Hres. simpl.
  split; [reflexivity|]. split; [reflexivity|]. split; [reflexivity|].
  split; [reflexivity|]. split; [exact Hack|]. split; [exact Herr|].
  split.
  - intros m Hm. apply Hfailed. rewrite HF. apply in_or_app. now right.
  - exists causes. rewrite Hmulti. split; [reflexivity|].
    specialize (Hcauses (ErrWrap e "Failed to send message batch to EventHub")).
    rewrite HE, Hmulti in Hcauses.
    exact (Hcauses (causesOf_Append_new _ _ _)).
Qed.

End EventHubFailure.

Lemma process_failed_chunk_witness :
  let out := EventHub.Write TargetSamples.hub TargetSamples.eventHubTarget
               TargetSamples.heap TargetSamples.batch 0%nat in
  PkgModels.Failed (EventHub.writeResult out) = [0; 1]%nat
  /\ PkgModels.Sent (EventHub.writeResult out) = [2; 3]%nat
  /\ exists causes,
       EventHub.errResult out
       = Some (ErrWrap (ErrMulti causes) "Error writing messages to EventHub")
       /\ In (ErrWrap (ErrText "hub down")
                "Failed to send message batch to EventHub") causes.
Proof.
  split; [reflexivity|]. split; [reflexivity|].
  exact (proj2 (proj2 (proj2 (proj2 (proj2 (proj2 (proj2
           (process_failed_chunk TargetSamples.hub
              TargetSamples.eventHubTarget TargetSamples.heap
              TargetSamples.batch 0%nat [] [[2; 3]%nat] [0; 1]%nat
              (ErrText "hub down") eq_refl eq_refl)))))))).
Defined.


(** ** Acknowledgment callbacks *)

Section Acknowledgments.



Context {W1 W2 : Type} (P : Kafka.Producers W1) (hub : EventHub.Hub W2).

(** On the synchronous path and on EventHub a batch without repetition is
    classified without repetition. *)
Lemma Write_sync_classifies_once (kt : Kafka.KafkaTarget) (h : Heap)
    (messages : list ptr) (w : W1) (r : Kafka.WriteReturn W1) :
  Kafka.asyncProducer kt = false -> Kafka.syncProducer kt = true ->
  Kafka.Write P kt h messages w = Returned r ->
  NoDup messages ->
  NoDup (PkgModels.Sent (Kafka.result r) ++ PkgModels.Failed (Kafka.result r)
         ++ PkgModels.Oversized (Kafka.result r)).
Proof.
  intros Ha Hs Hr Hnd.
  destruct (Write_sync P kt h messages w Ha Hs) as (r' & Hr' & Hperm & _).
  rewrite Hr in Hr'. injection Hr' as <-. now rewrite Hperm.
Qed.

Lemma Write_eventhub_classifies_once (eht : EventHub.EventHubTarget) (h : Heap)
    (messages : list ptr) (w : W2) :
  NoDup messages ->
  NoDup (PkgModels.Sent (EventHub.writeResult (EventHub.Write hub eht h messages w))
         ++ PkgModels.Failed (EventHub.writeResult (EventHub.Write hub eht h messages w))
         ++ PkgModels.Oversized (EventHub.writeResult (EventHub.Write hub eht h messages w))).
Proof.
  intros Hnd. destruct (Write_eventhub hub eht h messages w) as (Hperm & _).
  cbv zeta in Hperm. now rewrite Hperm.
Qed.


End Acknowledgments.




(** ** The read loop of the SQS source *)

Section ReadLoop.
Import SQS.

Variable N : nat.
Variable world : World.

(** Case analysis of a step. *)
Ltac step_cases H :=
  unfold step, workerStep, setMain, setWorker in H;
  repeat match type of H with
         | None = Some _ => discriminate H
         | Some _ = Some _ => injection H as H; try subst
         | context [match ?x with _ => _ end] => destruct x eqn:?
         end.

Lemma slots_app (ws1 ws2 : list WorkerPC) :
  slots (ws1 ++ ws2) = (slots ws1 + slots ws2)%nat.
Proof. unfold slots. now rewrite filter_app, length_app. Qed.

Lemma slots_cons (w : WorkerPC) (ws : list WorkerPC) :
  slots (w :: ws) = (b2n (holdsSlot w) + slots ws)%nat.
Proof.
  unfold slots. rewrite filter_cons.
  destruct (decide (holdsSlot w = true)) as [->|Hw]; [reflexivity|].
  destruct (holdsSlot w); [congruence|reflexivity].
Qed.

Lemma slots_insert (ws : list WorkerPC) (i : nat) (w w' : WorkerPC) :
  ws !! i = Some w ->
  (slots (<[i := w']> ws) + b2n (holdsSlot w)
   = slots ws + b2n (holdsSlot w'))%nat.
Proof.
  revert i. induction ws as [|x ws IH]; intros [|i] Hi; simpl in *;
    try discriminate.
  - injection Hi as ->. rewrite !slots_cons. lia.
  - rewrite !slots_cons. specialize (IH i Hi). lia.
Qed.

Lemma slotsInvariant_init : slotsInvariant N init.
Proof. split; [reflexivity|simpl; lia]. Qed.

Lemma slotsInvariant_step (s s' : State) (a : Action) :
  slotsInvariant N s -> step N world s a = Some s' -> slotsInvariant N s'.
Proof.
  unfold slotsInvariant, inFlight.
  intros [Heq Hle] Hstep.
  step_cases Hstep; simpl in *;
    repeat match goal with
           | H : main _ = _ |- _ => rewrite H in *; simpl in *
           | H : throttle _ = S _ |- _ => rewrite H in *
           | H : Nat.ltb _ _ = true |- _ => apply Nat.ltb_lt in H
           | H : workers _ !! _ = Some ?w |- context [<[_ := ?w']> _] =>
               pose proof (slots_insert _ _ _ w' H); clear H
           end;
    simpl in *; rewrite ?slots_app in *; simpl in *;
    try (unfold slots in *; simpl in *; lia).
Qed.

Lemma slotsInvariant_run (schedule : list Action) (s s' : State) :
  slotsInvariant N s -> run N world s schedule = Some s' -> slotsInvariant N s'.
Proof.
  revert s. induction schedule as [|a schedule IH]; intros s Hs; simpl.
  - now intros [= <-].
  - destruct (step N world s a) as [s1|] eqn:Hstep; [|discriminate].
    apply IH. exact (slotsInvariant_step s s1 a Hs Hstep).
Qed.

Lemma slotsInvariant_reachable (s : State) :
  reachable N world s -> slotsInvariant N s.
Proof.
  intros [schedule Hrun]. exact (slotsInvariant_run _ _ _ slotsInvariant_init Hrun).
Qed.

(** C8: in every state that [Read] can reach with [N] slots, at most [N]
    workers are in flight (launched and not yet past the release of their
    slot). The number of workers grows only by the launch that follows a
    send into [throttle], the channel of capacity [N], by which alone
    [Read] comes to stand at the launch; that send does not
    go through while [N] workers are in flight; a worker at its release
    can take it, which frees one slot; and nothing else lowers the number
    of workers in flight. *)
Theorem in_flight_at_most_slots (s : State) :
  reachable N world s ->
  (inFlight s <= N)%nat
  /\ (forall a s', step N world s a = Some s' ->
                   length (workers s') <> length (workers s) ->
                   a = Launch /\ main s = AtLaunch
                   /\ workers s' = workers s ++ [AtFetch]
                   /\ throttle s = S (inFlight s))
  /\ (forall a s', step N world s a = Some s' ->
                   main s <> AtLaunch -> main s' = AtLaunch ->
                   a = SendThrottle /\ (throttle s < N)%nat
                   /\ throttle s' = S (throttle s))
  /\ (inFlight s = N -> step N world s SendThrottle = None)
  /\ (forall i, workers s !! i = Some AtRelease ->
                exists s', step N world s (WorkerStep i) = Some s'
                           /\ S (throttle s') = throttle s
                           /\ S (inFlight s') = inFlight s)
  /\ (forall a s', step N world s a = Some s' ->
                   (inFlight s' < inFlight s)%nat ->
                   exists i, a = WorkerStep i /\ workers s !! i = Some AtRelease).
Proof.
  intros Hreach. destruct (slotsInvariant_reachable s Hreach) as [Heq Hle].
  split; [lia|]. split; [|split; [|split; [|split]]].
  - intros a s' Hstep Hlen.
    step_cases Hstep; simpl in *; rewrite ?length_insert in Hlen;
      try congruence.
    repeat split. lia.
  - intros a s' Hstep Hbefore Hmain.
    step_cases Hstep; simpl in *; try congruence.
    repeat split.
    match goal with H : Nat.ltb _ _ = true |- _ => now apply Nat.ltb_lt in H end.
  - intros Hfull. unfold step.
    destruct (main s) eqn:Hm; try reflexivity.
    simpl in Heq.
    replace (throttle s) with N by lia. now rewrite Nat.ltb_irrefl.
  - intros i Hi. unfold step.
    assert (Hstep : workerStep N world s i AtRelease
                    = match throttle s with
                      | O => None
                      | S t => Some (mkState (main s) (queueURL s) t
                                       (<[i := AtExit]> (workers s))
                                       (processErrorSignal s) (stopsBlocked s)
                                       (stopsReturned s) (fetches s)
                                       (deliveries s) (targetErrorsLogged s))
                      end) by reflexivity.
    pose proof (slots_insert _ _ _ AtExit Hi) as Hslots. simpl in Hslots.
    assert (Hgoal : exists s', workerStep N world s i AtRelease = Some s'
                               /\ S (throttle s') = throttle s
                               /\ S (inFlight s') = inFlight s).
    { rewrite Hstep. unfold inFlight in *.
      destruct (throttle s) as [|t] eqn:Ht; [lia|].
      eexists. split; [reflexivity|]. simpl. split; [reflexivity|lia]. }
    destruct (main s); rewrite Hi; exact Hgoal.
  - intros a s' Hstep Hless. unfold inFlight in *.
    step_cases Hstep; simpl in *; rewrite ?slots_app in Hless; simpl in *;
      try lia;
      match goal with
      | H : workers s !! ?i = Some ?w,
        HL : context [slots (<[?i := ?w']> _)] |- _ =>
          pose proof (slots_insert _ _ _ w' H) as Hs; simpl in Hs;
          first [lia | exists i; split; [reflexivity|exact H]]
      end.
Qed.

(** With no slot at all the send into [throttle] never goes through: no
    worker is ever launched. The channels are unbuffered then, and a send
    that finds no receiver blocks, as in the model. *)
Lemma no_worker_without_slots (s : State) :
  N = 0%nat -> reachable N world s -> workers s = [].
Proof.
  intros HN [schedule Hrun].
  assert (Hgen : forall s0, workers s0 = [] /\ main s0 <> AtLaunch ->
                            run N world s0 schedule = Some s ->
                            workers s = [] /\ main s <> AtLaunch).
  { clear Hrun. induction schedule as [|a schedule IH]; intros s0 H0; simpl.
    - now intros [= <-].
    - destruct (step N world s0 a) as [s1|] eqn:Hstep; [|discriminate].
      apply IH. destruct H0 as [Hworkers Hmain].
      step_cases Hstep; simpl in *; try (split; [assumption|congruence]);
        try congruence;
        try match goal with
            | H : Nat.ltb _ _ = true |- _ => apply Nat.ltb_lt in H; lia
            | H : workers s0 !! _ = Some _ |- _ =>
                rewrite Hworkers in H; discriminate H
            end. }
  apply (Hgen init); [split; [reflexivity|discriminate]|exact Hrun].
Qed.

(** *** Errors of the target *)

Lemma processDeliver_returns_nil (writeToTarget : list Message -> option error)
    (messages : list Message) :
  fst (processDeliver writeToTarget messages) = None.
Proof. unfold processDeliver. destruct (writeToTarget messages); reflexivity. Qed.

Lemma processFetch_error (url : string) (received : list SQSMessage + error)
    (t : Time) (uuid : nat -> string) (e : error) :
  processFetch url received t uuid = inr e -> exists e', received = inr e'.
Proof. destruct received as [msgs|e']; [discriminate|eauto]. Qed.

Hypothesis queueFound : exists url, GetQueueUrl world = inl url.
Hypothesis fetchesSucceed : forall k, exists msgs, ReceiveMessage world k = inl msgs.

Lemma quiet_step (s s' : State) (a : Action) :
  quiet s -> step N world s a = Some s' -> quiet s'.
Proof.
  unfold quiet. intros (Herrs & Hworkers & Hmain) Hstep.
  destruct queueFound as [url Hurl].
  step_cases Hstep; simpl in *;
    repeat match goal with
           | H : main _ = _ |- _ => rewrite H in *; simpl in *
           | H : processFetch _ (ReceiveMessage world ?k) _ _ = inr _ |- _ =>
               apply processFetch_error in H as [? H];
               destruct (fetchesSucceed k) as [? ?]; congruence
           | H : processDeliver ?f ?m = (Some _, _) |- _ =>
               pose proof (processDeliver_returns_nil f m) as Hnil;
               rewrite H in Hnil; discriminate Hnil
           | H : workers _ !! _ = Some (AtErrorSend _) |- _ =>
               apply (Forall_lookup_1 _ _ _ _ Hworkers) in H; contradiction
           end;
    try congruence;
    repeat split; auto; try lia;
    try (apply Forall_insert; simpl; auto);
    try (apply Forall_app; split; [assumption|repeat constructor]).
Qed.

Lemma quiet_reachable (s : State) : reachable N world s -> quiet s.
Proof.
  intros [schedule Hrun].
  assert (Hinit : quiet init) by (repeat split; constructor).
  revert Hinit Hrun. generalize init.
  induction schedule as [|a schedule IH]; intros s0 Hs0; simpl.
  - now intros [= <-].
  - destruct (step N world s0 a) as [s1|] eqn:Hstep; [|discriminate].
    apply IH. exact (quiet_step s0 s1 a Hs0 Hstep).
Qed.

(** C2, what the code does: [process] logs the error of [WriteToTarget]
    and returns nil. While the fetches succeed, whatever the target
    answers, no worker sends an error, none is buffered, and [Read] neither
    takes nor returns one; it leaves its loop only when a [Stop] is
    received. *)
Theorem Read_ignores_target_errors (s : State) :
  reachable N world s ->
  processErrorSignal s = []
  /\ (forall i e, workers s !! i <> Some (AtErrorSend e))
  /\ (forall e, main s <> AtWait (Some e) /\ main s <> HasReturned (Some e))
  /\ (stopsReturned s = 0%nat ->
      forall r, main s <> AtWait r /\ main s <> HasReturned r).
Proof.
  intros Hreach. destruct (quiet_reachable s Hreach) as (Herrs & Hworkers & Hmain).
  split; [exact Herrs|]. split; [|split].
  - intros i e Hi. apply (Forall_lookup_1 _ _ _ _ Hworkers) in Hi. exact Hi.
  - intros e. split; intros Hm; rewrite Hm in Hmain; exact Hmain.
  - intros Hnone r. split; intros Hm; rewrite Hm in Hmain;
      destruct r; [exact Hmain|lia|exact Hmain|lia].
Qed.

End ReadLoop.

Lemma in_flight_at_most_slots_witness :
  exists s,
    SQS.run 2 SQSSamples.fourthDeliveryFails SQS.init SQSSamples.launchTwo = Some s
    /\ SQS.inFlight s = 2%nat
    /\ (SQS.inFlight s <= 2)%nat
    /\ SQS.step 2 SQSSamples.fourthDeliveryFails s SQS.SendThrottle = None.
Proof.
  eexists. split; [vm_compute; reflexivity|].
  match goal with
  | |- context [SQS.inFlight ?s] =>
      pose proof (in_flight_at_most_slots 2 SQSSamples.fourthDeliveryFails s
                    (ex_intro _ SQSSamples.launchTwo eq_refl))
        as (Hle & _ & _ & Hblock & _)
  end.
  split; [reflexivity|]. split; [exact Hle|]. apply Hblock. reflexivity.
Defined.

Lemma Read_ignores_target_errors_witness :
  exists s,
    SQS.run 3 SQSSamples.fourthDeliveryFails SQS.init SQSSamples.fourDeliveries
    = Some s
    /\ SQS.deliveries s = 4%nat
    /\ SQS.targetErrorsLogged s = [ErrText "target unavailable"]
    /\ SQS.processErrorSignal s = []
    /\ SQS.main s = SQS.AtSelect
    /\ exists s', SQS.step 3 SQSSamples.fourthDeliveryFails s SQS.SelectDefault
                  = Some s'.
Proof.
  eexists. split; [vm_compute; reflexivity|].
  match goal with
  | |- context [SQS.deliveries ?s] =>
      pose proof (Read_ignores_target_errors 3 SQSSamples.fourthDeliveryFails
                    (ex_intro _ "queue-url" eq_refl)
                    (fun k => ex_intro _ SQSSamples.batch eq_refl)
                    s (ex_intro _ SQSSamples.fourDeliveries eq_refl))
        as (Herrs & _)
  end.
  split; [reflexivity|]. split; [reflexivity|]. split; [exact Herrs|].
  split; [reflexivity|]. eexists. reflexivity.
Defined.

(** The sibling path: the error of a fetch is sent, taken by [Read] at its
    next select, and returned once the worker is done. *)
Example Read_returns_fetch_error :
  exists s,
    SQS.run 3 SQSSamples.firstFetchFails SQS.init
      [SQS.CallRead; SQS.SelectDefault; SQS.SendThrottle; SQS.Launch;
       SQS.WorkerStep 0; SQS.WorkerStep 0; SQS.SelectError;
       SQS.WorkerStep 0; SQS.WorkerStep 0; SQS.WaitReturns] = Some s
    /\ SQS.main s
       = SQS.HasReturned
           (Some (ErrWrap (ErrText "queue unavailable")
                    "Failed to get message from SQS queue")).
Proof. eexists. split; vm_compute; reflexivity. Qed.

(** ** Stop *)

Section StopSignal.
Import SQS.

Variable N : nat.
Variable world : World.

Ltac step_cases H :=
  unfold step, workerStep, setMain, setWorker in H;
  repeat match type of H with
         | None = Some _ => discriminate H
         | Some _ = Some _ => injection H as H; try subst
         | context [match ?x with _ => _ end] => destruct x eqn:?
         end.

Lemma receivedOnce_step (s s' : State) (a : Action) :
  receivedOnce s -> step N world s a = Some s' -> receivedOnce s'.
Proof.
  unfold receivedOnce. intros Hs Hstep.
  step_cases Hstep; simpl in *; lia.
Qed.

Lemma receivedOnce_run (schedule : list Action) (s s' : State) :
  receivedOnce s -> run N world s schedule = Some s' -> receivedOnce s'.
Proof.
  revert s. induction schedule as [|a schedule IH]; intros s Hs; simpl.
  - now intros [= <-].
  - destruct (step N world s a) as [s1|] eqn:Hstep; [|discriminate].
    apply IH. exact (receivedOnce_step s s1 a Hs Hstep).
Qed.

(** However many calls of [Stop] there are, one call of [Read] lets at
    most one of them return. *)
Lemma one_Stop_per_Read (schedule : list Action) (s : State) :
  run N world init schedule = Some s -> (stopsReturned s <= 1)%nat.
Proof.
  intros Hrun.
  assert (H : receivedOnce s).
  { apply (receivedOnce_run schedule init s); [|exact Hrun].
    unfold receivedOnce. simpl. lia. }
  unfold receivedOnce in H. destruct (main s); lia.
Qed.

Lemma idle_step (s s' : State) (a : Action) :
  idle s -> step N world s a = Some s' -> idle s'.
Proof.
  unfold idle. intros Hs Hstep Hmain.
  step_cases Hstep; simpl in *; try congruence; auto;
    match goal with
    | H : workers s !! _ = Some _ |- _ =>
        destruct (Hs Hmain) as [Hworkers _]; rewrite Hworkers in H;
        discriminate H
    end.
Qed.

Lemma idle_run (schedule : list Action) (s s' : State) :
  idle s -> run N world s schedule = Some s' -> idle s'.
Proof.
  revert s. induction schedule as [|a schedule IH]; intros s Hs; simpl.
  - now intros [= <-].
  - destruct (step N world s a) as [s1|] eqn:Hstep; [|discriminate].
    apply IH. exact (idle_step s s1 a Hs Hstep).
Qed.

(** [Read] is called by [CallRead] and by nothing else. *)
Lemma not_called (schedule : list Action) (s s' : State) :
  ~ In CallRead schedule -> main s = NotStarted ->
  run N world s schedule = Some s' -> main s' = NotStarted.
Proof.
  revert s. induction schedule as [|a schedule IH]; intros s Hno Hs; simpl.
  - now intros [= <-].
  - destruct (step N world s a) as [s1|] eqn:Hstep; [|discriminate].
    apply IH; [intros Hin; apply Hno; now right|].
    step_cases Hstep; simpl in *; try congruence;
      exfalso; apply Hno; now left.
Qed.

Lemma unstarted_step (s s' : State) (a : Action) :
  ClaimFacts.unstarted s -> step N world s a = Some s' ->
  ClaimFacts.unstarted s'.
Proof.
  unfold ClaimFacts.unstarted. intros Hs Hstep Hmain.
  step_cases Hstep; simpl in *; try congruence; auto;
    match goal with
    | H : workers s !! _ = Some _ |- _ =>
        destruct (Hs Hmain) as [Hworkers _]; rewrite Hworkers in H;
        discriminate H
    end.
Qed.

Lemma unstarted_reachable (s : State) :
  reachable N world s -> ClaimFacts.unstarted s.
Proof.
  intros [schedule Hrun]. revert Hrun.
  assert (Hgen : forall s0, ClaimFacts.unstarted s0 ->
                            run N world s0 schedule = Some s ->
                            ClaimFacts.unstarted s).
  { induction schedule as [|a schedule IH]; intros s0 H0; simpl.
    - now intros [= <-].
    - destruct (step N world s0 a) as [s1|] eqn:Hstep; [|discriminate].
      apply IH. exact (unstarted_step s0 s1 a H0 Hstep). }
  apply Hgen. intros _. repeat split.
Qed.

(** Once [Read] has returned without a worker, nothing can happen but
    further calls of [Stop], and none of them returns. *)
Lemma returnedAtOnce_run (r : option error) (schedule : list Action)
    (s s' : State) :
  ClaimFacts.returnedAtOnce r s ->
  run N world s schedule = Some s' ->
  ClaimFacts.returnedAtOnce r s' /\ (stopsBlocked s <= stopsBlocked s')%nat.
Proof.
  revert s. induction schedule as [|a schedule IH]; intros s Hs; simpl.
  - intros [= <-]. split; [exact Hs|lia].
  - destruct (step N world s a) as [s1|] eqn:Hstep; [|discriminate].
    intros Hrun.
    assert (H1 : ClaimFacts.returnedAtOnce r s1
                 /\ (stopsBlocked s <= stopsBlocked s1)%nat).
    { destruct Hs as (Hmain & Hworkers & Hreturned).
      unfold ClaimFacts.returnedAtOnce.
      step_cases Hstep; simpl in *; try congruence;
        try (repeat split; [assumption..|lia]);
        match goal with
        | H : workers s !! _ = Some _ |- _ =>
            rewrite Hworkers in H; discriminate H
        end. }
    destruct H1 as [H1 Hle]. destruct (IH s1 H1 Hrun) as [H2 Hle2].
    split; [exact H2|lia].
Qed.

(** C3, as the code has it. [Stop] sends on the unbuffered exit channel:
    it returns by no step but the one in which [Read], at the select of
    its loop, receives the signal, and each receipt lets one [Stop] return;
    [Read] then leaves the loop with a nil error. Whenever [Read] stands at
    its select while a [Stop] is blocked, [default] is not taken, so no
    further work is launched, and the signal can be received. A [Stop]
    called before [Read] stays blocked while [Read] has not been called:
    nothing can happen then but the call of [Read] or further calls of
    [Stop]. When [Read] is called and finds its queue, its first select
    can take neither [default] nor an error: it receives the signal, the
    [Stop] returns, and [Read] returns nil without having launched a
    worker. When [Read] does not find its queue it returns the error
    before any select, and the [Stop] stays blocked for good. *)
Theorem Stop_returns_at_select (s s' : State) (a : Action) :
  reachable N world s ->
  step N world s a = Some s' ->
  (stopsReturned s' = stopsReturned s
   \/ (a = SelectExit /\ main s = AtSelect /\ main s' = AtWait None
       /\ stopsReturned s' = S (stopsReturned s)
       /\ stopsBlocked s = S (stopsBlocked s')))
  /\ (main s' = AtSelect -> (0 < stopsBlocked s')%nat ->
      step N world s' SelectDefault = None
      /\ exists s2, step N world s' SelectExit = Some s2
                    /\ main s2 = AtWait None
                    /\ workers s2 = workers s'
                    /\ stopsReturned s2 = S (stopsReturned s'))
  /\ (main s' = NotStarted ->
      stopsReturned s' = 0%nat
      /\ forall a' s2, step N world s' a' = Some s2 ->
                       a' = CallStop \/ a' = CallRead)
  /\ (main s = NotStarted -> a = CallRead -> (0 < stopsBlocked s)%nat ->
      match GetQueueUrl world with
      | inl _ =>
          main s' = AtSelect
          /\ step N world s' SelectDefault = None
          /\ step N world s' SelectError = None
          /\ exists s2 s3,
               step N world s' SelectExit = Some s2
               /\ stopsReturned s2 = 1%nat
               /\ stopsBlocked s = S (stopsBlocked s2)
               /\ step N world s2 WaitReturns = Some s3
               /\ main s3 = HasReturned None
               /\ workers s3 = [] /\ fetches s3 = 0%nat
      | inr e =>
          main s' = HasReturned (Some (ErrWrap e "Failed to get SQS queue URL"))
          /\ forall schedule s2,
               run N world s' schedule = Some s2 ->
               main s2 = main s'
               /\ stopsReturned s2 = 0%nat
               /\ (stopsBlocked s <= stopsBlocked s2)%nat
      end).
Proof.
  intros Hreach Hstep.
  pose proof (unstarted_reachable s Hreach) as Hfresh.
  destruct Hreach as [schedule Hrun].
  assert (Hidle : idle s').
  { apply (idle_step s s' a); [|exact Hstep].
    apply (idle_run schedule init s); [|exact Hrun]. intros _. split; reflexivity. }
  split; [|split; [|split]].
  - clear Hidle Hfresh. step_cases Hstep; simpl in *; auto.
    right. repeat split; assumption.
  - clear. intros Hmain Hblocked. unfold step. rewrite Hmain.
    destruct (stopsBlocked s') as [|b]; [lia|].
    split; [reflexivity|]. eexists. repeat split.
  - intros Hmain. destruct (Hidle Hmain) as [Hworkers Hreturned].
    split; [exact Hreturned|].
    intros a' s2 Hstep'. clear Hstep.
    step_cases Hstep'; simpl in *; auto; try congruence;
      match goal with
      | H : workers s' !! _ = Some _ |- _ => rewrite Hworkers in H; discriminate H
      end.
  - intros Hmain -> Hblocked.
    destruct (Hfresh Hmain)
      as (Hworkers & Herrors & Hthrottle & Hreturned & Hfetches).
    unfold step in Hstep. rewrite Hmain in Hstep.
    destruct (GetQueueUrl world) as [url|e].
    + injection Hstep as <-. unfold step. simpl.
      destruct (stopsBlocked s) as [|b] eqn:Hb; [lia|].
      rewrite Herrors, Hworkers, Hreturned, Hfetches. simpl.
      split; [reflexivity|]. split; [reflexivity|]. split; [reflexivity|].
      eexists. eexists. repeat split.
    + injection Hstep as <-. simpl. split; [reflexivity|].
      intros schedule2 s2 Hrun2.
      destruct (returnedAtOnce_run
                  (Some (ErrWrap e "Failed to get SQS queue URL")) schedule2
                  (setMain s (HasReturned
                                (Some (ErrWrap e "Failed to get SQS queue URL"))))
                  s2) as [(Hm2 & _ & Hr2) Hle]; [|exact Hrun2|].
      * repeat split; assumption.
      * split; [exact Hm2|]. split; [exact Hr2|exact Hle].
Qed.

End StopSignal.

Lemma Stop_returns_at_select_witness :
  exists s s',
    SQS.run 3 SQSSamples.fourthDeliveryFails SQS.init [SQS.CallStop] = Some s
    /\ SQS.step 3 SQSSamples.fourthDeliveryFails s SQS.CallRead = Some s'
    /\ SQS.main s' = SQS.AtSelect
    /\ SQS.step 3 SQSSamples.fourthDeliveryFails s' SQS.SelectDefault = None
    /\ SQS.step 3 SQSSamples.fourthDeliveryFails s' SQS.SelectError = None
    /\ exists s2 s3,
         SQS.step 3 SQSSamples.fourthDeliveryFails s' SQS.SelectExit = Some s2
         /\ SQS.stopsReturned s2 = 1%nat
         /\ SQS.stopsBlocked s = S (SQS.stopsBlocked s2)
         /\ SQS.step 3 SQSSamples.fourthDeliveryFails s2 SQS.WaitReturns
            = Some s3
         /\ SQS.main s3 = SQS.HasReturned None
         /\ SQS.workers s3 = [] /\ SQS.fetches s3 = 0%nat.
Proof.
  eexists. eexists. split; [vm_compute; reflexivity|].
  split; [vm_compute; reflexivity|].
  match goal with
  | |- SQS.main ?s' = _ /\ _ =>
      pose proof (Stop_returns_at_select 3 SQSSamples.fourthDeliveryFails
                    (SQS.mkState SQS.NotStarted "" 0 [] [] 1 0 0 0 []) s'
                    SQS.CallRead (ex_intro _ [SQS.CallStop] eq_refl) eq_refl)
        as (_ & _ & _ & Hfirst)
  end.
  exact (Hfirst eq_refl eq_refl (Nat.lt_0_succ 0)).
Defined.

(** A [Stop] called first, then [Read]: the first select receives the
    signal, and [Read] returns nil without having launched a worker. *)
Example Stop_then_Read :
  exists s,
    SQS.run 3 SQSSamples.fourthDeliveryFails SQS.init
      [SQS.CallStop; SQS.CallRead; SQS.SelectExit; SQS.WaitReturns] = Some s
    /\ SQS.main s = SQS.HasReturned None
    /\ SQS.workers s = []
    /\ SQS.stopsReturned s = 1%nat
    /\ SQS.stopsBlocked s = 0%nat.
Proof. eexists. split; [vm_compute; reflexivity|]. repeat split. Qed.

(** C3 as stated fails. A [Stop] called before [Read] does not return in
    any run in which [Read] is not called: after the call, nothing but
    further calls of [Stop] or the call of [Read] can happen. And it does
    not return either in any run in which [Read] is then called and does
    not find its queue: [Read] returns the error of [GetQueueUrl], and the
    [Stop] is left blocked. *)
Lemma Stop_blocks_counterexample :
  ~ (exists schedule s,
       ~ In SQS.CallRead schedule
       /\ SQS.run 3 SQSSamples.fourthDeliveryFails SQS.init
            (SQS.CallStop :: schedule) = Some s
       /\ SQS.stopsReturned s <> 0%nat)
  /\ ~ (exists schedule s,
          SQS.run 3 SQSSamples.noQueue SQS.init
            (SQS.CallStop :: SQS.CallRead :: schedule) = Some s
          /\ (SQS.stopsReturned s <> 0%nat \/ SQS.stopsBlocked s = 0%nat))
  /\ (exists s,
        SQS.run 3 SQSSamples.noQueue SQS.init [SQS.CallStop; SQS.CallRead]
        = Some s
        /\ SQS.main s
           = SQS.HasReturned (Some (ErrWrap (ErrText "no such queue")
                                      "Failed to get SQS queue URL"))
        /\ SQS.stopsBlocked s = 1%nat
        /\ SQS.stopsReturned s = 0%nat)
  /\ (exists s,
        SQS.run 3 SQSSamples.fourthDeliveryFails SQS.init [SQS.CallStop] = Some s
        /\ SQS.stopsBlocked s = 1%nat
        /\ SQS.stopsReturned s = 0%nat
        /\ SQS.step 3 SQSSamples.fourthDeliveryFails s SQS.SelectExit = None
        /\ SQS.step 3 SQSSamples.fourthDeliveryFails s SQS.SelectDefault = None
        /\ SQS.step 3 SQSSamples.fourthDeliveryFails s SQS.WaitReturns = None
        /\ SQS.step 3 SQSSamples.fourthDeliveryFails s (SQS.WorkerStep 0) = None).
Proof.
  split; [|split; [|split]].
  - intros (schedule & s & Hno & Hrun & Hret).
    simpl in Hrun.
    pose proof (not_called 3 SQSSamples.fourthDeliveryFails schedule
                  (SQS.mkState SQS.NotStarted "" 0 [] [] 1 0 0 0 []) s Hno
                  eq_refl Hrun) as Hmain.
    apply (idle_run 3 SQSSamples.fourthDeliveryFails schedule _ s) in Hrun.
    + destruct (Hrun Hmain) as [_ H0]. contradiction.
    + intros _. split; reflexivity.
  - intros (schedule & s & Hrun & Hret).
    change (SQS.run 3 SQSSamples.noQueue
              (SQS.mkState
                 (SQS.HasReturned (Some (ErrWrap (ErrText "no such queue")
                                           "Failed to get SQS queue URL")))
                 "" 0 [] [] 1 0 0 0 []) schedule = Some s) in Hrun.
    apply (returnedAtOnce_run 3 SQSSamples.noQueue
             (Some (ErrWrap (ErrText "no such queue")
                      "Failed to get SQS queue URL"))) in Hrun
      as [(_ & _ & Hr) Hle]; [|repeat split].
    simpl in Hle. destruct Hret as [Hret|Hret]; [contradiction|lia].
  - eexists. split; [vm_compute; reflexivity|]. repeat split.
  - eexists. split; [vm_compute; reflexivity|]. repeat split.
Qed.

(** * Further properties *)

(** ** Latency statistics: what holds for every list of messages *)

Section LatencyFacts.
Import Models.

(** The result, field by field, as folds over the two lists of latencies. *)
Lemma NewWriteResultWithTime_fields (sent failed : Z) (t : Time)
    (msgs : list Message) :
  let r := NewWriteResultWithTime sent failed t msgs in
  let n := Z.of_nat (length msgs) in
  MaxProcLatency r = fold_left maxStep (procLatencies t msgs) 0
  /\ MinProcLatency r = fold_left minStep (procLatencies t msgs) 0
  /\ AvgProcLatency r
     = (if 0 <? n then Z.quot (wrap64 (sumZ (procLatencies t msgs))) n else 0)
  /\ MaxMsgLatency r = fold_left maxStep (msgLatencies t msgs) 0
  /\ MinMsgLatency r = fold_left minStep (msgLatencies t msgs) 0
  /\ AvgMsgLatency r
     = (if 0 <? n then Z.quot (wrap64 (sumZ (msgLatencies t msgs))) n else 0).
Proof.
  pose proof (fold_latencyStep t msgs acc0) as (HMP & HmP & HSP & HMM & HmM & HSM).
  cbv zeta in *. simpl in HMP, HmP, HSP, HMM, HmM, HSM.
  unfold NewWriteResultWithTime, GetAverageFromDuration. simpl.
  rewrite HMP, HmP, HSP, HMM, HmM, HSM, !fold_sumStep_0.
  destruct (0 <? Z.of_nat (length msgs)); repeat split.
Qed.

Lemma maxStep_maximum (ls : list Z) :
  is_maximum (fold_left maxStep ls 0) (0 :: ls).
Proof.
  destruct (fold_maxStep ls 0) as (Hle & Hall & Hin). split.
  - destruct Hin as [Heq|Hin]; [left; now rewrite Heq|now right].
  - constructor; assumption.
Qed.

Lemma maximum_unique (x y : Z) (ls : list Z) :
  is_maximum x ls -> is_maximum y ls -> x = y.
Proof.
  intros [Hx Hxs] [Hy Hys]. rewrite Forall_forall in Hxs, Hys.
  apply list_elem_of_In in Hx, Hy.
  specialize (Hxs y Hy). specialize (Hys x Hx). lia.
Qed.

Lemma minimum_unique (x y : Z) (ls : list Z) :
  is_minimum x ls -> is_minimum y ls -> x = y.
Proof.
  intros [Hx Hxs] [Hy Hys]. rewrite Forall_forall in Hxs, Hys.
  apply list_elem_of_In in Hx, Hy.
  specialize (Hxs y Hy). specialize (Hys x Hx). lia.
Qed.

Lemma maximum_Permutation (x : Z) (ls ls' : list Z) :
  ls ≡ₚ ls' -> is_maximum x ls -> is_maximum x ls'.
Proof.
  intros Hp [Hin Hall]. split.
  - apply list_elem_of_In. rewrite <- Hp. now apply list_elem_of_In.
  - now rewrite <- Hp.
Qed.

Lemma minimum_Permutation (x : Z) (ls ls' : list Z) :
  ls ≡ₚ ls' -> is_minimum x ls -> is_minimum x ls'.
Proof.
  intros Hp [Hin Hall]. split.
  - apply list_elem_of_In. rewrite <- Hp. now apply list_elem_of_In.
  - now rewrite <- Hp.
Qed.

Lemma sumZ_Permutation (ls ls' : list Z) : ls ≡ₚ ls' -> sumZ ls = sumZ ls'.
Proof.
  induction 1 as [|x l l' _ IH|x y l|l l' l'' _ IH1 _ IH2]; simpl; lia.
Qed.

Lemma minStep_minimum (ls : list Z) :
  ls <> [] -> Forall (fun l => l <> 0) ls ->
  is_minimum (fold_left minStep ls 0) ls.
Proof.
  destruct ls as [|l ls]; [congruence|]. intros _. apply fold_minStep_from_zero.
Qed.

(** X1: whatever the messages and the instant of the write, the two maximal
    latencies of the result are the greatest of zero and the latencies: they
    are never negative and no latency exceeds them. *)
Theorem maximal_latencies_clamped (sent failed : Z) (timeOfWrite : Time)
    (messages : list Message) :
  is_maximum (MaxProcLatency (NewWriteResultWithTime sent failed timeOfWrite messages))
             (0 :: procLatencies timeOfWrite messages)
  /\ is_maximum (MaxMsgLatency (NewWriteResultWithTime sent failed timeOfWrite messages))
                (0 :: msgLatencies timeOfWrite messages).
Proof.
  destruct (NewWriteResultWithTime_fields sent failed timeOfWrite messages)
    as (-> & _ & _ & -> & _ & _).
  split; apply maxStep_maximum.
Qed.

(** X2: the maximal and the average latencies do not depend on the order of
    the messages; the minimal latencies do not either when no latency is
    zero. *)
Theorem latencies_order_independent (sent failed : Z) (timeOfWrite : Time)
    (messages messages' : list Message) :
  messages ≡ₚ messages' ->
  let r := NewWriteResultWithTime sent failed timeOfWrite messages in
  let r' := NewWriteResultWithTime sent failed timeOfWrite messages' in
  MaxProcLatency r = MaxProcLatency r'
  /\ AvgProcLatency r = AvgProcLatency r'
  /\ MaxMsgLatency r = MaxMsgLatency r'
  /\ AvgMsgLatency r = AvgMsgLatency r'
  /\ (Forall (fun l => l <> 0) (procLatencies timeOfWrite messages) ->
      MinProcLatency r = MinProcLatency r')
  /\ (Forall (fun l => l <> 0) (msgLatencies timeOfWrite messages) ->
      MinMsgLatency r = MinMsgLatency r').
Proof.
  intros Hp r r'.
  assert (HpP : procLatencies timeOfWrite messages
                ≡ₚ procLatencies timeOfWrite messages')
    by (unfold procLatencies; now apply Permutation_map).
  assert (HpM : msgLatencies timeOfWrite messages
                ≡ₚ msgLatencies timeOfWrite messages')
    by (unfold msgLatencies; now apply Permutation_map).
  assert (Hlen : length messages = length messages')
    by now apply Permutation_length.
  destruct (NewWriteResultWithTime_fields sent failed timeOfWrite messages)
    as (HMP & HmP & HAP & HMM & HmM & HAM).
  destruct (NewWriteResultWithTime_fields sent failed timeOfWrite messages')
    as (HMP' & HmP' & HAP' & HMM' & HmM' & HAM').
  cbv zeta in *. subst r r'.
  rewrite HMP, HmP, HAP, HMM, HmM, HAM, HMP', HmP', HAP', HMM', HmM', HAM'.
  rewrite <- Hlen, (sumZ_Permutation _ _ HpP), (sumZ_Permutation _ _ HpM).
  assert (Hmax : forall ls ls', ls ≡ₚ ls' ->
                   fold_left maxStep ls 0 = fold_left maxStep ls' 0).
  { intros ls ls' H. apply (maximum_unique _ _ (0 :: ls')); [|apply maxStep_maximum].
    apply (maximum_Permutation _ (0 :: ls)); [now constructor|apply maxStep_maximum]. }
  assert (Hmin : forall ls ls', ls ≡ₚ ls' -> Forall (fun l => l <> 0) ls ->
                   fold_left minStep ls 0 = fold_left minStep ls' 0).
  { intros ls ls' H Hnz. destruct ls as [|l ls].
    - apply Permutation_nil_l in H. now subst.
    - assert (Hne : ls' <> []).
      { intros ->. apply Permutation_nil_r in H. discriminate. }
      apply (minimum_unique _ _ ls').
      + apply (minimum_Permutation _ (l :: ls)); [exact H|].
        now apply minStep_minimum.
      + apply minStep_minimum; [exact Hne|]. now rewrite <- H. }
  split; [now apply Hmax|]. split; [reflexivity|].
  split; [now apply Hmax|]. split; [reflexivity|].
  split; intros Hnz; now apply Hmin.
Qed.

End LatencyFacts.

Lemma latencies_order_independent_witness :
  Models.MinProcLatency
    (Models.NewWriteResultWithTime 2 1 Samples.timeNow Samples.testMessages)
  = Models.MinProcLatency
      (Models.NewWriteResultWithTime 2 1 Samples.timeNow
         (rev Samples.testMessages))
  /\ Models.AvgMsgLatency
       (Models.NewWriteResultWithTime 2 1 Samples.timeNow Samples.testMessages)
     = Models.AvgMsgLatency
         (Models.NewWriteResultWithTime 2 1 Samples.timeNow
            (rev Samples.testMessages)).
Proof.
  destruct (latencies_order_independent 2 1 Samples.timeNow Samples.testMessages
              (rev Samples.testMessages) (Permutation_rev _))
    as (_ & _ & _ & HA & Hm & _).
  split; [|exact HA].
  apply Hm. repeat constructor; discriminate.
Defined.

Section LatencyOrder.
Import Models.

Lemma sumZ_bounds (ls : list Z) (lo hi : Z) :
  Forall (fun l => lo <= l) ls -> Forall (fun l => l <= hi) ls ->
  Z.of_nat (length ls) * lo <= sumZ ls <= Z.of_nat (length ls) * hi.
Proof.
  induction ls as [|l ls IH]; intros Hlo Hhi.
  - simpl. lia.
  - inversion Hlo; inversion Hhi; subst.
    destruct IH as [IH1 IH2]; [assumption..|].
    change (sumZ (l :: ls)) with (l + sumZ ls).
    change (length (l :: ls)) with (S (length ls)). lia.
Qed.

Lemma positive_statistics (ls : list Z) :
  ls <> [] -> Forall (fun l => 0 < l) ls -> sumZ ls <= maxInt64 ->
  let n := Z.of_nat (length ls) in
  fold_left minStep ls 0 <= Z.quot (wrap64 (sumZ ls)) n
  /\ Z.quot (wrap64 (sumZ ls)) n <= fold_left maxStep ls 0
  /\ 0 < fold_left minStep ls 0.
Proof.
  intros Hne Hpos Hsum n.
  assert (Hnz : Forall (fun l => l <> 0) ls)
    by (eapply Forall_impl; [exact Hpos|]; simpl; intros; lia).
  destruct (minStep_minimum ls Hne Hnz) as [Hmin_in Hmin].
  assert (Hex : Exists (fun l => 0 <= l) ls).
  { destruct ls as [|l ls]; [congruence|]. inversion Hpos; subst.
    apply Exists_cons_hd. lia. }
  destruct (maximum_of_clamped _ _ Hex (maxStep_maximum ls)) as [_ Hmax].
  destruct (sumZ_bounds ls _ _ Hmin Hmax) as [Hlo Hhi].
  assert (Hn : 0 < n).
  { subst n. destruct ls; [congruence|]. simpl length. lia. }
  assert (Hminpos : 0 < fold_left minStep ls 0).
  { rewrite Forall_forall in Hpos. apply Hpos. now apply list_elem_of_In. }
  rewrite wrap64_small.
  - split; [|split; [|exact Hminpos]].
    + apply Z.quot_le_lower_bound; [exact Hn|exact Hlo].
    + apply Z.quot_le_upper_bound; [exact Hn|exact Hhi].
  - unfold minInt64. split; [|exact Hsum].
    fold n in Hlo. nia.
Qed.

(** X3: for a non-empty list of messages whose latencies are all positive
    and whose latency sums fit in an [int64], the average lies between the
    minimum and the maximum, for the processing and for the message
    latencies, and the minima are positive. *)
Theorem average_between_extremes (sent failed : Z) (timeOfWrite : Time)
    (messages : list Message) :
  messages <> [] ->
  Forall (fun l => 0 < l) (procLatencies timeOfWrite messages) ->
  Forall (fun l => 0 < l) (msgLatencies timeOfWrite messages) ->
  sumZ (procLatencies timeOfWrite messages) <= maxInt64 ->
  sumZ (msgLatencies timeOfWrite messages) <= maxInt64 ->
  let r := NewWriteResultWithTime sent failed timeOfWrite messages in
  0 < MinProcLatency r <= AvgProcLatency r
  /\ AvgProcLatency r <= MaxProcLatency r
  /\ 0 < MinMsgLatency r <= AvgMsgLatency r
  /\ AvgMsgLatency r <= MaxMsgLatency r.
Proof.
  intros Hne HposP HposM HsumP HsumM r.
  destruct (NewWriteResultWithTime_fields sent failed timeOfWrite messages)
    as (HMP & HmP & HAP & HMM & HmM & HAM).
  cbv zeta in *. subst r. rewrite HMP, HmP, HAP, HMM, HmM, HAM.
  assert (Hlen : (0 <? Z.of_nat (length messages)) = true).
  { destruct messages; [congruence|]. apply Z.ltb_lt. simpl length. lia. }
  rewrite Hlen.
  assert (HneP : procLatencies timeOfWrite messages <> [])
    by (destruct messages; [congruence|discriminate]).
  assert (HneM : msgLatencies timeOfWrite messages <> [])
    by (destruct messages; [congruence|discriminate]).
  pose proof (positive_statistics _ HneP HposP HsumP) as (H1 & H2 & H3).
  pose proof (positive_statistics _ HneM HposM HsumM) as (H4 & H5 & H6).
  cbv zeta in *.
  unfold procLatencies in H1, H2. unfold msgLatencies in H4, H5.
  rewrite length_map in H1, H2, H4, H5.
  repeat split; assumption.
Qed.

Lemma Sub_antitone (t u u' : Time) : u <= u' -> Sub t u' <= Sub t u.
Proof.
  unfold Sub, minInt64, maxInt64. intros Hu.
  repeat match goal with
         | |- context [?a <? ?b] => destruct (Z.ltb_spec a b)
         end; lia.
Qed.

Lemma maxStep_pointwise (msgs : list Message) (t : Time) (mx mx' : Z) :
  Forall (fun m => TimeCreated m <= TimePulled m) msgs -> mx <= mx' ->
  fold_left maxStep (procLatencies t msgs) mx
  <= fold_left maxStep (msgLatencies t msgs) mx'.
Proof.
  revert mx mx'. induction msgs as [|m msgs IH]; intros mx mx' Hall Hle; simpl.
  - exact Hle.
  - inversion Hall as [|? ? Hm Hms]; subst. apply IH; [exact Hms|].
    pose proof (Sub_antitone t _ _ Hm). unfold maxStep.
    repeat match goal with
           | |- context [?a <? ?b] => destruct (Z.ltb_spec a b)
           end; lia.
Qed.

Lemma sumZ_pointwise (msgs : list Message) (t : Time) :
  Forall (fun m => TimeCreated m <= TimePulled m) msgs ->
  sumZ (procLatencies t msgs) <= sumZ (msgLatencies t msgs).
Proof.
  induction 1 as [|m msgs Hm _ IH]; simpl; [lia|].
  pose proof (Sub_antitone t _ _ Hm). lia.
Qed.

(** X4: when every message was created no later than it was pulled, the
    maximal processing latency is at most the maximal message latency; so
    is the average, when both sums of latencies fit in an [int64]. *)
Theorem processing_within_message_latency (sent failed : Z) (timeOfWrite : Time)
    (messages : list Message) :
  Forall (fun m => TimeCreated m <= TimePulled m) messages ->
  let r := NewWriteResultWithTime sent failed timeOfWrite messages in
  MaxProcLatency r <= MaxMsgLatency r
  /\ (minInt64 <= sumZ (procLatencies timeOfWrite messages) <= maxInt64 ->
      minInt64 <= sumZ (msgLatencies timeOfWrite messages) <= maxInt64 ->
      AvgProcLatency r <= AvgMsgLatency r).
Proof.
  intros Hall r.
  destruct (NewWriteResultWithTime_fields sent failed timeOfWrite messages)
    as (HMP & _ & HAP & HMM & _ & HAM).
  cbv zeta in *. subst r. rewrite HMP, HAP, HMM, HAM. split.
  - apply maxStep_pointwise; [exact Hall|lia].
  - intros HP HM. rewrite (wrap64_small _ HP), (wrap64_small _ HM).
    destruct (Z.ltb_spec 0 (Z.of_nat (length messages))); [|lia].
    apply Z.quot_le_mono; [assumption|]. now apply sumZ_pointwise.
Qed.

End LatencyOrder.

Lemma average_between_extremes_witness :
  Models.MinProcLatency
    (Models.NewWriteResultWithTime 2 1 Samples.timeNow Samples.testMessages)
  <= Models.AvgProcLatency
       (Models.NewWriteResultWithTime 2 1 Samples.timeNow Samples.testMessages)
  <= Models.MaxProcLatency
       (Models.NewWriteResultWithTime 2 1 Samples.timeNow Samples.testMessages).
Proof.
  destruct (average_between_extremes 2 1 Samples.timeNow Samples.testMessages)
    as ([_ H1] & H2 & _).
  - discriminate.
  - repeat constructor.
  - repeat constructor.
  - vm_compute. discriminate.
  - vm_compute. discriminate.
  - split; [exact H1|exact H2].
Defined.

Lemma processing_within_message_latency_witness :
  Models.MaxProcLatency
    (Models.NewWriteResultWithTime 2 1 Samples.timeNow Samples.testMessages)
  <= Models.MaxMsgLatency
       (Models.NewWriteResultWithTime 2 1 Samples.timeNow Samples.testMessages).
Proof.
  refine (proj1 (processing_within_message_latency 2 1 Samples.timeNow
                   Samples.testMessages _)).
  repeat constructor; vm_compute; discriminate.
Defined.

(** ** The read loop: accounting, provenance of errors, the join *)

Section ReadLoopFacts.
Import SQS ReadFacts.

Variable N : nat.
Variable world : World.

Ltac step_cases H :=
  unfold step, workerStep, setMain, setWorker in H;
  repeat match type of H with
         | None = Some _ => discriminate H
         | Some _ = Some _ => injection H as H; try subst
         | context [match ?x with _ => _ end] => destruct x eqn:?
         end.

Lemma countPC_app (f : WorkerPC -> bool) (ws1 ws2 : list WorkerPC) :
  countPC f (ws1 ++ ws2) = (countPC f ws1 + countPC f ws2)%nat.
Proof. unfold countPC. now rewrite filter_app, length_app. Qed.

Lemma countPC_cons (f : WorkerPC -> bool) (w : WorkerPC) (ws : list WorkerPC) :
  countPC f (w :: ws) = (b2n (f w) + countPC f ws)%nat.
Proof.
  unfold countPC. rewrite filter_cons.
  destruct (decide (f w = true)) as [->|Hw]; [reflexivity|].
  destruct (f w); [congruence|reflexivity].
Qed.

Lemma countPC_insert (f : WorkerPC -> bool) (ws : list WorkerPC) (i : nat)
    (w w' : WorkerPC) :
  ws !! i = Some w ->
  (countPC f (<[i := w']> ws) + b2n (f w) = countPC f ws + b2n (f w'))%nat.
Proof.
  revert i. induction ws as [|x ws IH]; intros [|i] Hi; simpl in *;
    try discriminate.
  - injection Hi as ->. rewrite !countPC_cons. lia.
  - rewrite !countPC_cons. specialize (IH i Hi). lia.
Qed.

Lemma countPC_le (f : WorkerPC -> bool) (ws : list WorkerPC) :
  (countPC f ws <= length ws)%nat.
Proof. apply length_filter. Qed.

Lemma run_invariant (Inv : State -> Prop) :
  (forall s s' a, Inv s -> step N world s a = Some s' -> Inv s') ->
  forall schedule s s', Inv s -> run N world s schedule = Some s' -> Inv s'.
Proof.
  intros Hstep schedule. induction schedule as [|a schedule IH]; intros s s' Hs; simpl.
  - now intros [= <-].
  - destruct (step N world s a) as [s1|] eqn:Ha; [|discriminate].
    apply IH. exact (Hstep s s1 a Hs Ha).
Qed.

Lemma accounted_step (s s' : State) (a : Action) :
  accounted s -> step N world s a = Some s' -> accounted s'.
Proof.
  unfold accounted. intros (Hf & Hd & Hl) Hstep.
  step_cases Hstep; simpl in *; rewrite ?countPC_app, ?length_app in *;
    simpl in *;
    try match goal with
        | H : workers s !! ?i = Some ?w |- context [<[?i := ?w']> _] =>
            pose proof (countPC_insert pastFetch _ _ _ w' H);
            pose proof (countPC_insert atDeliver _ _ _ w' H)
        end;
    try match goal with
        | H : processDeliver ?f ?m = (_, ?logs) |- _ =>
            assert (length (omap (fun l => match l with
                                           | LogError e => Some e
                                           | LogWarn _ => None
                                           end) logs) <= 1)%nat
              by (unfold processDeliver in H; destruct (f m);
                  inversion H; subst; simpl; lia)
        end;
    simpl in *; unfold countPC in *; simpl in *; lia.
Qed.

(** X5: in every state that [Read] can reach, the calls of [ReceiveMessage]
    made so far are as many as the workers that have left their fetch, so
    no worker fetches twice; the calls of [WriteToTarget] are at most as
    many as the fetches, and the errors of the target logged at most as many
    as the deliveries. *)
Theorem one_fetch_one_delivery_per_worker (s : State) :
  reachable N world s ->
  fetches s = countPC pastFetch (workers s)
  /\ (fetches s <= length (workers s))%nat
  /\ (deliveries s <= fetches s)%nat
  /\ (length (targetErrorsLogged s) <= deliveries s)%nat.
Proof.
  intros [schedule Hrun].
  assert (H : accounted s).
  { apply (run_invariant accounted accounted_step schedule init s); [|exact Hrun].
    unfold accounted, countPC. simpl. repeat split; lia. }
  destruct H as (Hf & Hd & Hl).
  split; [exact Hf|]. split; [rewrite Hf; apply countPC_le|].
  clear - Hd Hl. split; [|exact Hl].
  apply (Nat.le_trans _ (deliveries s + countPC atDeliver (workers s)));
    [apply Nat.le_add_r|exact Hd].
Qed.

Lemma processFetch_fromQueue (url : string) (k : nat) (e : error) :
  processFetch url (ReceiveMessage world k) (Now world k) (NewUUID world k)
  = inr e -> fromQueue world e.
Proof.
  unfold processFetch.
  destruct (ReceiveMessage world k) as [msgs|e0] eqn:Hk; [discriminate|].
  intros [= <-]. right. eauto.
Qed.

Lemma provenance_step (s s' : State) (a : Action) :
  provenance world s -> step N world s a = Some s' -> provenance world s'.
Proof.
  unfold provenance. intros (Herrs & Hworkers & Hmain) Hstep.
  step_cases Hstep; simpl in *;
    repeat match goal with
           | H : main _ = _ |- _ => rewrite H in *; simpl in *
           | H : processFetch _ _ _ _ = inr _ |- _ =>
               apply processFetch_fromQueue in H
           | H : processDeliver ?f ?m = (Some _, _) |- _ =>
               pose proof (processDeliver_returns_nil f m) as Hnil;
               rewrite H in Hnil; discriminate Hnil
           | H : workers _ !! _ = Some (AtErrorSend _) |- _ =>
               apply (Forall_lookup_1 _ _ _ _ Hworkers) in H; simpl in H
           | H : Forall _ (_ :: _) |- _ => inversion H; subst; clear H
           end;
    repeat split; auto;
    try (apply Forall_insert; simpl; auto);
    try (apply Forall_app; split; [assumption|repeat constructor; assumption]).
  - left. eauto.
  - apply Forall_app. split; [assumption|]. constructor; [assumption|constructor].
Qed.

(** X6: an error that [Read] returns comes from the queue: it is the
    wrapped error of [GetQueueUrl] or the wrapped error of one of the calls
    of [ReceiveMessage]; and the same holds of every error in the buffer of
    the error channel. *)
Theorem Read_returns_queue_errors (s : State) (e : error) :
  reachable N world s ->
  (main s = HasReturned (Some e) -> fromQueue world e)
  /\ (In e (processErrorSignal s) -> fromQueue world e).
Proof.
  intros [schedule Hrun].
  assert (H : provenance world s).
  { apply (run_invariant _ provenance_step schedule init s); [|exact Hrun].
    repeat split; constructor. }
  destruct H as (Herrs & _ & Hmain). split.
  - intros Hm. rewrite Hm in Hmain. exact Hmain.
  - intros Hin. rewrite Forall_forall in Herrs. apply Herrs.
    now apply list_elem_of_In.
Qed.

Lemma joined_step (s s' : State) (a : Action) :
  joined s -> step N world s a = Some s' -> joined s'.
Proof.
  unfold joined. intros Hs Hstep.
  step_cases Hstep; simpl in *;
    repeat match goal with
           | H : main _ = _ |- _ => rewrite H in *; simpl in *
           end; auto;
    try match goal with
        | H : workers s !! _ = Some ?w |- _ =>
            destruct (main s); auto;
            first [ rewrite Hs in H; discriminate H
                  | apply (Forall_lookup_1 _ _ _ _ Hs) in H; discriminate H ]
        end.
  - rewrite Hs. constructor.
  - apply Forall_forall. intros w Hw.
    match goal with
    | H : forallb isDone _ = true |- _ =>
        rewrite forallb_forall in H; specialize (H w (proj1 (list_elem_of_In _ _) Hw))
    end.
    destruct w; try discriminate. reflexivity.
Qed.

(** X7: [Read] returns only after its workers: in every reachable state in
    which [Read] has returned, each worker it launched is done, none holds a
    slot, and the buffer of [throttle] is empty. *)
Theorem Read_returns_after_its_workers (s : State) (r : option error) :
  reachable N world s ->
  main s = HasReturned r ->
  Forall (fun w => w = Done) (workers s)
  /\ inFlight s = 0%nat
  /\ throttle s = 0%nat.
Proof.
  intros Hreach Hmain.
  destruct (slotsInvariant_reachable N world s Hreach) as [Heq _].
  destruct Hreach as [schedule Hrun].
  assert (H : joined s).
  { apply (run_invariant joined joined_step schedule init s); [|exact Hrun].
    reflexivity. }
  unfold joined in H. rewrite Hmain in *. simpl in Heq.
  assert (Hzero : inFlight s = 0%nat).
  { unfold inFlight, slots. clear - H.
    induction H as [|w ws Hw _ IH]; [reflexivity|].
    subst w. rewrite filter_cons_False by discriminate. exact IH. }
  split; [exact H|]. split; [exact Hzero|]. rewrite Heq, Hzero. reflexivity.
Qed.

Lemma leftLoop_step (r : option error) (s s' : State) (a : Action) :
  leftLoop r s -> step N world s a = Some s' ->
  leftLoop r s'
  /\ length (workers s') = length (workers s)
  /\ stopsReturned s' = stopsReturned s
  /\ (throttle s' <= throttle s)%nat.
Proof.
  unfold leftLoop. intros Hs Hstep.
  unfold step, workerStep, setMain, setWorker in Hstep.
  destruct Hs as [Hs|Hs]; rewrite ?Hs in Hstep;
    step_cases Hstep; simpl; rewrite ?length_insert, ?Hs;
    repeat split; auto; lia.
Qed.

(** X8: once [Read] has left its loop, on the exit signal or on an error,
    it launches nothing more: along every schedule from there the workers
    stay the same in number, no slot is taken, no further [Stop] returns,
    and [Read] waits or has returned with the error it left the loop
    with. *)
Theorem no_launch_after_the_loop (r : option error) (schedule : list Action)
    (s s' : State) :
  main s = AtWait r ->
  run N world s schedule = Some s' ->
  (main s' = AtWait r \/ main s' = HasReturned r)
  /\ length (workers s') = length (workers s)
  /\ stopsReturned s' = stopsReturned s
  /\ (throttle s' <= throttle s)%nat.
Proof.
  intros Hmain. revert s Hmain.
  assert (Hgen : forall s, leftLoop r s -> run N world s schedule = Some s' ->
                           leftLoop r s'
                           /\ length (workers s') = length (workers s)
                           /\ stopsReturned s' = stopsReturned s
                           /\ (throttle s' <= throttle s)%nat).
  { induction schedule as [|a schedule IH]; intros s Hs; simpl.
    - intros [= <-]. repeat split; auto.
    - destruct (step N world s a) as [s1|] eqn:Ha; [|discriminate].
      intros Hrun.
      destruct (leftLoop_step r s s1 a Hs Ha) as (H1 & H2 & H3 & H4).
      destruct (IH s1 H1 Hrun) as (H5 & H6 & H7 & H8).
      split; [exact H5|]. split; [congruence|]. split; [congruence|lia]. }
  intros s Hmain Hrun. apply (Hgen s); [now left|exact Hrun].
Qed.

Lemma queueMissing_step (e : error) (s s' : State) (a : Action) :
  GetQueueUrl world = inr e ->
  queueMissing e s -> step N world s a = Some s' -> queueMissing e s'.
Proof.
  unfold queueMissing. intros Hurl (Hw & Hf & Hd & Hr & Hm) Hstep.
  step_cases Hstep; simpl in *; destruct Hm as [Hm|Hm]; try congruence;
    try (rewrite Hw in *; discriminate);
    repeat split; auto.
  right. congruence.
Qed.

(** X9: when [GetQueueUrl] fails, [Read] returns its error, wrapped, without
    entering the loop: in every reachable state no worker has been launched,
    nothing has been fetched or delivered, no [Stop] has returned, and
    [Read] is not started or has returned that error. *)
Theorem Read_fails_without_queue (e : error) (s : State) :
  GetQueueUrl world = inr e ->
  reachable N world s ->
  workers s = [] /\ fetches s = 0%nat /\ deliveries s = 0%nat
  /\ stopsReturned s = 0%nat
  /\ (main s = NotStarted
      \/ main s = HasReturned (Some (ErrWrap e "Failed to get SQS queue URL"))).
Proof.
  intros Hurl [schedule Hrun].
  apply (run_invariant (queueMissing e)
           (fun s s' a => queueMissing_step e s s' a Hurl) schedule init s);
    [|exact Hrun].
  repeat split. now left.
Qed.

Lemma hung_step (i : nat) (e : error) (r : option error) (s s' : State)
    (a : Action) :
  hung N i e r s -> step N world s a = Some s' -> hung N i e r s'.
Proof.
  unfold hung. intros (Hm & Hi & Hfull) Hstep.
  step_cases Hstep; simpl in *; try congruence; auto;
    try match goal with
        | H : Nat.ltb _ _ = true |- _ => apply Nat.ltb_lt in H; lia
        end;
    try match goal with
        | H : forallb isDone (workers _) = true |- _ =>
            rewrite forallb_forall in H;
            apply list_elem_of_lookup_2, list_elem_of_In in Hi;
            specialize (H _ Hi); discriminate H
        end;
    match goal with
    | H : workers _ !! ?j = Some _ |- _ =>
        destruct (decide (j = i)) as [->|Hne];
        [congruence
        |repeat split; auto; rewrite list_lookup_insert_ne by exact Hne; exact Hi]
    end.
Qed.

(** X10: [Read] can hang. If it waits for its workers while one of them
    stands at its send on the error channel and the buffer of that channel
    is full, nothing that can happen changes this: the worker never gets to
    send, and [Read] never returns. (With one slot this state is reached
    when the exit signal is taken while an error is in the buffer and a
    second worker fails.) *)
Theorem Read_hangs_on_full_error_buffer (i : nat) (e : error)
    (r : option error) (schedule : list Action) (s s' : State) :
  main s = AtWait r ->
  workers s !! i = Some (AtErrorSend e) ->
  length (processErrorSignal s) = N ->
  run N world s schedule = Some s' ->
  main s' = AtWait r
  /\ workers s' !! i = Some (AtErrorSend e)
  /\ processErrorSignal s' = processErrorSignal s.
Proof.
  intros Hm Hi Hfull Hrun.
  assert (Hgen : hung N i e r s'
                 /\ processErrorSignal s' = processErrorSignal s).
  { revert s Hm Hi Hfull Hrun.
    induction schedule as [|a schedule IH]; intros s Hm Hi Hfull; simpl.
    - intros [= <-]. repeat split; assumption.
    - destruct (step N world s a) as [s1|] eqn:Ha; [|discriminate].
      intros Hrun.
      destruct (hung_step i e r s s1 a (conj Hm (conj Hi Hfull)) Ha)
        as (Hm1 & Hi1 & Hfull1).
      destruct (IH s1 Hm1 Hi1 Hfull1 Hrun) as [Hh Herrs].
      split; [exact Hh|]. rewrite Herrs. clear - Ha Hm Hfull.
      step_cases Ha; simpl in *; try congruence.
      match goal with
      | H : Nat.ltb _ _ = true |- _ => apply Nat.ltb_lt in H; lia
      end. }
  destruct Hgen as [(H1 & H2 & _) H3]. auto.
Qed.

End ReadLoopFacts.

Lemma one_fetch_one_delivery_per_worker_witness :
  exists s,
    SQS.run 3 SQSSamples.fourthDeliveryFails SQS.init SQSSamples.fourDeliveries
    = Some s
    /\ SQS.fetches s = 4%nat
    /\ SQS.fetches s = ReadFacts.countPC ReadFacts.pastFetch (SQS.workers s)
    /\ (SQS.fetches s <= length (SQS.workers s))%nat
    /\ (SQS.deliveries s <= SQS.fetches s)%nat
    /\ (length (SQS.targetErrorsLogged s) <= SQS.deliveries s)%nat.
Proof.
  eexists. split; [vm_compute; reflexivity|]. split; [reflexivity|].
  match goal with
  | |- SQS.fetches ?s = _ /\ _ =>
      exact (one_fetch_one_delivery_per_worker 3 SQSSamples.fourthDeliveryFails
               s (ex_intro _ SQSSamples.fourDeliveries eq_refl))
  end.
Defined.

Lemma Read_returns_queue_errors_witness :
  exists s,
    SQS.run 3 SQSSamples.firstFetchFails SQS.init
      ReadSamples.fetchErrorReturned = Some s
    /\ SQS.workers s = [SQS.Done]
    /\ ReadFacts.fromQueue SQSSamples.firstFetchFails
         (ErrWrap (ErrText "queue unavailable")
            "Failed to get message from SQS queue").
Proof.
  eexists. split; [vm_compute; reflexivity|]. split; [reflexivity|].
  exact (proj1 (Read_returns_queue_errors 3 SQSSamples.firstFetchFails
                  (SQS.mkState
                     (SQS.HasReturned
                        (Some (ErrWrap (ErrText "queue unavailable")
                                 "Failed to get message from SQS queue")))
                     "queue-url" 0 [SQS.Done] [] 0 0 1 0 [])
                  (ErrWrap (ErrText "queue unavailable")
                     "Failed to get message from SQS queue")
                  (ex_intro _ ReadSamples.fetchErrorReturned eq_refl))
           eq_refl).
Defined.

Lemma Read_returns_after_its_workers_witness :
  exists s,
    SQS.run 3 SQSSamples.firstFetchFails SQS.init
      ReadSamples.twoWorkersOneError = Some s
    /\ length (SQS.workers s) = 2%nat
    /\ Forall (fun w => w = SQS.Done) (SQS.workers s)
    /\ SQS.inFlight s = 0%nat
    /\ SQS.throttle s = 0%nat.
Proof.
  eexists. split; [vm_compute; reflexivity|]. split; [reflexivity|].
  match goal with
  | |- Forall _ (SQS.workers ?s) /\ _ =>
      exact (Read_returns_after_its_workers 3 SQSSamples.firstFetchFails s
               (Some (ErrWrap (ErrText "queue unavailable")
                        "Failed to get message from SQS queue"))
               (ex_intro _ ReadSamples.twoWorkersOneError eq_refl) eq_refl)
  end.
Defined.

Lemma no_launch_after_the_loop_witness :
  exists s s',
    SQS.run 3 SQSSamples.fourthDeliveryFails SQS.init
      ReadSamples.exitWithWorker = Some s
    /\ SQS.run 3 SQSSamples.fourthDeliveryFails s
         (SQSSamples.cycle 0 ++ [SQS.WaitReturns]) = Some s'
    /\ (SQS.main s' = SQS.AtWait None \/ SQS.main s' = SQS.HasReturned None)
    /\ length (SQS.workers s') = length (SQS.workers s)
    /\ SQS.stopsReturned s' = SQS.stopsReturned s
    /\ (SQS.throttle s' <= SQS.throttle s)%nat.
Proof.
  eexists. eexists. split; [vm_compute; reflexivity|].
  split; [vm_compute; reflexivity|].
  match goal with
  | |- (SQS.main ?s' = _ \/ _) /\ length _ = length (SQS.workers ?s) /\ _ =>
      exact (no_launch_after_the_loop 3 SQSSamples.fourthDeliveryFails None
               (SQSSamples.cycle 0 ++ [SQS.WaitReturns]) s s' eq_refl eq_refl)
  end.
Defined.

Lemma Read_fails_without_queue_witness :
  exists s,
    SQS.run 3 SQSSamples.noQueue SQS.init [SQS.CallStop; SQS.CallRead] = Some s
    /\ SQS.workers s = [] /\ SQS.fetches s = 0%nat /\ SQS.deliveries s = 0%nat
    /\ SQS.stopsReturned s = 0%nat
    /\ (SQS.main s = SQS.NotStarted
        \/ SQS.main s
           = SQS.HasReturned
               (Some (ErrWrap (ErrText "no such queue")
                        "Failed to get SQS queue URL"))).
Proof.
  eexists. split; [vm_compute; reflexivity|].
  match goal with
  | |- SQS.workers ?s = _ /\ _ =>
      exact (Read_fails_without_queue 3 SQSSamples.noQueue
               (ErrText "no such queue") s eq_refl
               (ex_intro _ [SQS.CallStop; SQS.CallRead] eq_refl))
  end.
Defined.

Lemma Read_hangs_on_full_error_buffer_witness :
  exists s s',
    SQS.run 1 SQSSamples.everyFetchFails SQS.init
      SQSSamples.exitWithErrorPending = Some s
    /\ SQS.run 1 SQSSamples.everyFetchFails s [SQS.CallStop; SQS.CallStop]
       = Some s'
    /\ SQS.main s' = SQS.AtWait None
    /\ SQS.workers s' !! 1%nat
       = Some (SQS.AtErrorSend
                 (ErrWrap (ErrText "queue unavailable")
                    "Failed to get message from SQS queue"))
    /\ SQS.processErrorSignal s' = SQS.processErrorSignal s.
Proof.
  eexists. eexists. split; [vm_compute; reflexivity|].
  split; [vm_compute; reflexivity|].
  match goal with
  | |- SQS.main ?s' = _ /\ _ /\ _ = SQS.processErrorSignal ?s =>
      exact (Read_hangs_on_full_error_buffer 1 SQSSamples.everyFetchFails 1
               (ErrWrap (ErrText "queue unavailable")
                  "Failed to get message from SQS queue")
               None [SQS.CallStop; SQS.CallStop] s s'
               eq_refl eq_refl eq_refl eq_refl)
  end.
Defined.

(** ** The construction of the Kafka target *)

Section KafkaConstructionFacts.
Import Kafka KafkaFacts.

Variable lib : Library.

(** X11: [getKafkaVersion] never answers with a version that the library
    does not support, the default apart: without an error the version is
    the default one (for the empty string) or the parsed one, which is then
    among the supported versions; with an error it is the default one, and
    the string was not empty. *)
Theorem getKafkaVersion_supported_or_default (targetVersion : string) :
  match getKafkaVersion lib targetVersion with
  | (version, None) =>
      (targetVersion = "" /\ version = DefaultVersion lib)
      \/ (targetVersion <> ""
          /\ ParseKafkaVersion lib targetVersion = inl version
          /\ In version (SupportedVersions lib))
  | (version, Some _) =>
      targetVersion <> "" /\ version = DefaultVersion lib
      /\ forall v, ParseKafkaVersion lib targetVersion = inl v ->
                   ~ In v (SupportedVersions lib)
  end.
Proof.
  unfold getKafkaVersion.
  destruct (String.eqb_spec targetVersion "") as [->|Hne]; [now left|].
  destruct (ParseKafkaVersion lib targetVersion) as [v|e] eqn:Hparse.
  - destruct (existsb _ (SupportedVersions lib)) eqn:Hex.
    + right. split; [exact Hne|]. split; [reflexivity|].
      apply existsb_exists in Hex as (x & Hin & Hx).
      apply bool_decide_eq_true in Hx. now subst.
    + split; [exact Hne|]. split; [reflexivity|].
      intros v' [= <-] Hin.
      assert (Htrue : existsb (fun version => bool_decide (version = v))
                        (SupportedVersions lib) = true).
      { apply existsb_exists. exists v. split; [exact Hin|].
        now apply bool_decide_eq_true. }
      congruence.
  - split; [exact Hne|]. split; [reflexivity|]. intros v [=].
Qed.

Lemma getKafkaVersion_ok (targetVersion : string) (v : KafkaVersion) :
  getKafkaVersion lib targetVersion = (v, None) ->
  v = DefaultVersion lib \/ In v (SupportedVersions lib).
Proof.
  unfold getKafkaVersion.
  destruct (String.eqb targetVersion ""); [intros [= <-]; now left|].
  destruct (ParseKafkaVersion lib targetVersion) as [parsed|e]; [|discriminate].
  destruct (existsb _ (SupportedVersions lib)) eqn:Hex; [|discriminate].
  intros [= <-]. right.
  apply existsb_exists in Hex as (x & Hin & Hx).
  apply bool_decide_eq_true in Hx. now subst.
Qed.

Lemma splitComma_nonempty (s : string) : splitComma s <> [].
Proof.
  induction s as [|c s IH]; simpl; [discriminate|].
  destruct (Ascii.eqb c ","); [discriminate|].
  destruct (splitComma s); discriminate.
Qed.

Lemma splitComma_concat (s : string) :
  String.concat "," (splitComma s) = s.
Proof.
  induction s as [|c s IH]; simpl; [reflexivity|].
  destruct (Ascii.eqb_spec c ",") as [->|Hc].
  - pose proof (splitComma_nonempty s) as Hne.
    destruct (splitComma s) as [|x xs]; [congruence|].
    simpl in *. now rewrite IH.
  - pose proof (splitComma_nonempty s) as Hne.
    destruct (splitComma s) as [|x xs]; [congruence|].
    simpl in *. destruct xs as [|y ys]; simpl in *; now rewrite <- IH.
Qed.

Lemma splitComma_no_comma (s : string) :
  Forall (fun piece => ~ hasComma piece) (splitComma s).
Proof.
  unfold hasComma.
  induction s as [|c s IH]; simpl.
  - constructor; [simpl; tauto|constructor].
  - destruct (Ascii.eqb_spec c ",") as [->|Hc].
    + constructor; [simpl; tauto|exact IH].
    + destruct (splitComma s) as [|x xs].
      * constructor; [|constructor]. simpl. intros [H|[]]. congruence.
      * inversion IH as [|? ? Hx Hxs]; subst.
        constructor; [|exact Hxs]. simpl. intros [H|H]; [congruence|auto].
Qed.

(** X12: [NewKafkaTarget] returns nil with an error, having created no
    producer, or builds a target that copies the topic, the brokers and the
    byte limit of the configuration, having created one producer on the
    brokers split at the commas: the synchronous one if [ForceSync] is set,
    else the asynchronous one. The error that goes with the target is the
    error of the producer's creation, and the target has a producer, never
    both, exactly when there is none. After the asynchronous producer the
    two forwarding goroutines are started whether or not it could be
    created: when it could not, they call a nil producer and the process
    dies by their panic. This happens exactly when [ForceSync] is not set
    and the creation of the producer fails; under [ForceSync] a failed
    creation is an ordinary return. *)
Theorem NewKafkaTarget_target_or_error (cfg : KafkaConfig) :
  let c := NewKafkaTarget lib cfg in
  match target c with
  | None =>
      constructionError c <> None /\ omap created (events c) = []
  | Some kt =>
      topicName kt = TopicName cfg
      /\ brokers kt = Brokers cfg
      /\ messageByteLimit kt = ByteLimit cfg
      /\ syncProducer kt
         = (ForceSync cfg && bool_decide (constructionError c = None))
      /\ asyncProducer kt
         = (negb (ForceSync cfg) && bool_decide (constructionError c = None))
      /\ exists config,
           constructionError c
           = (if ForceSync cfg then NewSyncProducer lib else NewAsyncProducer lib)
               (splitComma (Brokers cfg)) config
           /\ events c
              = (if ForceSync cfg
                 then [SetGlobalLogger;
                       CreateSyncProducer (splitComma (Brokers cfg)) config]
                 else [SetGlobalLogger;
                       CreateAsyncProducer (splitComma (Brokers cfg)) config;
                       if bool_decide (constructionError c = None)
                       then ForwardResults else PanicOnNilProducer])
  end
  /\ (In PanicOnNilProducer (events c)
      <-> ForceSync cfg = false /\ target c <> None
          /\ constructionError c <> None).
Proof.
  unfold NewKafkaTarget.
  destruct (getKafkaVersion lib (TargetVersion cfg)) as [v [e|]]; simpl.
  { split; [split; [discriminate|reflexivity]|].
    split; [intros []|]. intros (_ & H & _). now contradiction H. }
  destruct (EnableSASL cfg);
    [destruct (saslSettings (SASLAlgorithm cfg)) as [s|e]|]; simpl;
    try (split; [split; [discriminate|reflexivity]|];
         split; [intros [H|[]]; discriminate H|];
         intros (_ & H & _); now contradiction H);
    (destruct (createTlsConfiguration lib _ _ _ _) as [t [e|]]; simpl;
     [split; [split; [discriminate|reflexivity]|];
      split; [intros [H|[]]; discriminate H|];
      intros (_ & H & _); now contradiction H|]);
    destruct (ForceSync cfg); simpl;
    (split;
     [(split; [reflexivity|]); (split; [reflexivity|]);
      (split; [reflexivity|]); (split; [reflexivity|]);
      (split; [reflexivity|]); eexists; split; reflexivity|]);
    try (split; [intros [H|[H|[]]]; discriminate H|];
         intros (H & _); discriminate H);
    (case_bool_decide as Herr;
     [split; [intros [H|[H|[H|[]]]]; discriminate H|];
      intros (_ & _ & H); now contradiction H
     |split; [intros _; repeat split; [discriminate|exact Herr]|];
      intros _; right; right; now left]).
Qed.

Lemma withTLSAndFlush_keeps (cfg : KafkaConfig) (t : option TlsConfig)
    (c : SaramaConfig) :
  let c' := withTLSAndFlush cfg t c in
  ClientID c' = ClientID c /\ Version c' = Version c
  /\ ProducerRetryMax c' = ProducerRetryMax c
  /\ ProducerMaxMessageBytes c' = ProducerMaxMessageBytes c
  /\ ProducerReturnSuccesses c' = ProducerReturnSuccesses c
  /\ ProducerReturnErrors c' = ProducerReturnErrors c
  /\ ProducerRequiredAcks c' = ProducerRequiredAcks c
  /\ ProducerIdempotent c' = ProducerIdempotent c
  /\ NetMaxOpenRequests c' = NetMaxOpenRequests c
  /\ ProducerCompression c' = ProducerCompression c
  /\ SASLEnable c' = SASLEnable c /\ SASLUser c' = SASLUser c
  /\ SASLPasswordField c' = SASLPasswordField c
  /\ SASLHandshake c' = SASLHandshake c /\ Mechanism c' = Mechanism c.
Proof. repeat split. Qed.

Lemma createTlsConfiguration_some (cfg : KafkaConfig) (t : option TlsConfig) :
  createTlsConfiguration lib (CertFile cfg) (KeyFile cfg) (CaFile cfg)
    (SkipVerifyTls cfg) = (t, None) ->
  CertFile cfg <> "" -> KeyFile cfg <> "" ->
  exists cert ca,
    LoadX509KeyPair lib (CertFile cfg) (KeyFile cfg) = inl cert
    /\ ReadFile lib (CaFile cfg) = inl ca
    /\ t = Some (mkTls [cert] [ca] (SkipVerifyTls cfg)).
Proof.
  unfold createTlsConfiguration. intros H Hc Hk.
  apply String.eqb_neq in Hc, Hk. rewrite Hc, Hk in H. simpl in H.
  destruct (LoadX509KeyPair lib _ _) as [cert|e]; [|discriminate].
  destruct (ReadFile lib _) as [ca|e]; [|discriminate].
  injection H as <-. eauto.
Qed.

(** X13: the settings of the configuration reach the producer. Whatever
    producer [NewKafkaTarget] creates, it is created on the addresses that
    [Brokers] lists between its commas, with a configuration that returns
    successes and errors, takes messages up to [ByteLimit] (the limit under
    which [Write] keeps a message), retries [MaxRetries] times, and has a
    default or supported version; an idempotent producer waits for all
    replicas with one request in flight; SASL and TLS are switched on as
    configured; and only an asynchronous producer has its flush settings
    changed. *)
Theorem producer_as_configured (cfg : KafkaConfig) (addrs : list string)
    (config : SaramaConfig) :
  In (addrs, config) (omap created (events (NewKafkaTarget lib cfg))) ->
  (addrs = splitComma (Brokers cfg)
   /\ String.concat "," addrs = Brokers cfg
   /\ Forall (fun a => ~ hasComma a) addrs)
  /\ (ClientID config = "snowplow_stream_replicator"
      /\ ProducerMaxMessageBytes config = ByteLimit cfg
      /\ ProducerRetryMax config = MaxRetries cfg
      /\ ProducerReturnSuccesses config = true
      /\ ProducerReturnErrors config = true
      /\ (Version config = DefaultVersion lib
          \/ In (Version config) (SupportedVersions lib)))
  /\ (WaitForAll cfg = true \/ Idempotent cfg = true ->
      ProducerRequiredAcks config = AcksWaitForAll)
  /\ (Idempotent cfg = true ->
      ProducerIdempotent config = true /\ NetMaxOpenRequests config = 1)
  /\ (Compress cfg = true -> ProducerCompression config = CompressionSnappy)
  /\ (EnableSASL cfg = true ->
      SASLEnable config = true /\ SASLHandshake config = true
      /\ SASLUser config = SASLUsername cfg
      /\ SASLPasswordField config = SASLPassword cfg
      /\ Mechanism config = mechanismOf (SASLAlgorithm cfg))
  /\ (CertFile cfg <> "" -> KeyFile cfg <> "" ->
      TLSEnable config = true
      /\ exists cert ca,
           TLSConfig config = Some (mkTls [cert] [ca] (SkipVerifyTls cfg)))
  /\ (if ForceSync cfg
      then FlushMessagesField config = FlushMessagesField (NewConfig lib)
           /\ FlushBytesField config = FlushBytesField (NewConfig lib)
           /\ FlushFrequencyField config = FlushFrequencyField (NewConfig lib)
      else FlushMessagesField config = FlushMessages cfg
           /\ FlushBytesField config = FlushBytes cfg
           /\ FlushFrequencyField config
              = wrap64 (wrap64 (FlushFrequency cfg) * Millisecond)).
Proof.
  unfold NewKafkaTarget.
  pose proof (getKafkaVersion_ok (TargetVersion cfg)) as Hv.
  destruct (getKafkaVersion lib (TargetVersion cfg)) as [v [e|]];
    [intros []|].
  assert (Hversion : v = DefaultVersion lib \/ In v (SupportedVersions lib))
    by exact (Hv v eq_refl).
  clear Hv.
  assert (Hsasl :
    forall c0,
      (if EnableSASL cfg
       then match saslSettings (SASLAlgorithm cfg) with
            | inr e => inr e
            | inl s => inl (withSASL cfg s (baseConfig lib cfg v))
            end
       else inl (baseConfig lib cfg v)) = inl c0 ->
      (ClientID c0 = "snowplow_stream_replicator"
       /\ ProducerMaxMessageBytes c0 = ByteLimit cfg
       /\ ProducerRetryMax c0 = MaxRetries cfg
       /\ ProducerReturnSuccesses c0 = true
       /\ ProducerReturnErrors c0 = true
       /\ Version c0 = v)
      /\ (WaitForAll cfg = true \/ Idempotent cfg = true ->
          ProducerRequiredAcks c0 = AcksWaitForAll)
      /\ (Idempotent cfg = true ->
          ProducerIdempotent c0 = true /\ NetMaxOpenRequests c0 = 1)
      /\ (Compress cfg = true -> ProducerCompression c0 = CompressionSnappy)
      /\ (EnableSASL cfg = true ->
          SASLEnable c0 = true /\ SASLHandshake c0 = true
          /\ SASLUser c0 = SASLUsername cfg
          /\ SASLPasswordField c0 = SASLPassword cfg
          /\ Mechanism c0 = mechanismOf (SASLAlgorithm cfg))
      /\ FlushMessagesField c0 = FlushMessagesField (NewConfig lib)
      /\ FlushBytesField c0 = FlushBytesField (NewConfig lib)
      /\ FlushFrequencyField c0 = FlushFrequencyField (NewConfig lib)).
  { intros c0 Hc0.
    assert (Hbase :
      (WaitForAll cfg = true \/ Idempotent cfg = true ->
       ProducerRequiredAcks (baseConfig lib cfg v) = AcksWaitForAll)
      /\ (Idempotent cfg = true ->
          ProducerIdempotent (baseConfig lib cfg v) = true
          /\ NetMaxOpenRequests (baseConfig lib cfg v) = 1)
      /\ (Compress cfg = true ->
          ProducerCompression (baseConfig lib cfg v) = CompressionSnappy)).
    { simpl. split; [|split].
      - intros [->| ->]; [reflexivity|]. now rewrite orb_true_r.
      - intros ->. split; reflexivity.
      - intros ->. reflexivity. }
    destruct (EnableSASL cfg) eqn:Hen.
    - unfold saslSettings, mechanismOf in *.
      destruct (String.eqb (SASLAlgorithm cfg) "sha512");
        [|destruct (String.eqb (SASLAlgorithm cfg) "sha256");
          [|destruct (String.eqb (SASLAlgorithm cfg) "plaintext");
            [|discriminate Hc0]]];
        injection Hc0 as <-; simpl ProducerRequiredAcks;
        simpl ProducerIdempotent; simpl NetMaxOpenRequests;
        simpl ProducerCompression;
        (split; [repeat split|]);
        (split; [exact (proj1 Hbase)|]);
        (split; [exact (proj1 (proj2 Hbase))|]);
        (split; [exact (proj2 (proj2 Hbase))|]);
        (split; [intros _; repeat split|]); repeat split.
    - injection Hc0 as <-.
      split; [repeat split|]. split; [exact (proj1 Hbase)|].
      split; [exact (proj1 (proj2 Hbase))|].
      split; [exact (proj2 (proj2 Hbase))|].
      split; [discriminate|]. repeat split. }
  cbv zeta.
  destruct (if EnableSASL cfg then _ else _) as [c0|e] eqn:Hafter;
    [|intros []].
  specialize (Hsasl c0 eq_refl).
  destruct Hsasl as ((H1 & H2 & H3 & H4 & H5 & H6) & Hacks & Hidem & Hcomp
                     & Hs & Hf1 & Hf2 & Hf3).
  destruct (createTlsConfiguration lib _ _ _ _) as [t [e|]] eqn:Htls;
    [intros []|].
  pose proof (withTLSAndFlush_keeps cfg t c0) as Hkeep. cbv zeta in Hkeep.
  destruct Hkeep as (K1 & K2 & K3 & K4 & K5 & K6 & K7 & K8 & K9 & K10 & K11
                     & K12 & K13 & K14 & K15).
  intros Hin.
  assert (Heq : (splitComma (Brokers cfg), withTLSAndFlush cfg t c0)
                = (addrs, config)).
  { destruct (negb (ForceSync cfg)); simpl in Hin;
      try (destruct (bool_decide _) in Hin; simpl in Hin);
      destruct Hin as [Hin|[]]; exact Hin. }
  clear Hin. injection Heq as <- <-.
  split.
  { split; [reflexivity|]. split; [apply splitComma_concat|].
    apply splitComma_no_comma. }
  split.
  { rewrite K1, K4, K3, K5, K6, K2, H6. repeat split; assumption. }
  split; [rewrite K7; exact Hacks|].
  split; [rewrite K8, K9; exact Hidem|].
  split; [rewrite K10; exact Hcomp|].
  split; [rewrite K11, K14, K12, K13, K15; exact Hs|].
  split.
  { intros Hc Hk.
    destruct (createTlsConfiguration_some cfg t Htls Hc Hk)
      as (cert & ca & _ & _ & ->).
    simpl. split; [reflexivity|]. eauto. }
  simpl. destruct (ForceSync cfg); repeat split; assumption.
Qed.

End KafkaConstructionFacts.

Lemma producer_as_configured_witness :
  exists addrs config,
    omap KafkaFacts.created
      (Kafka.events (Kafka.NewKafkaTarget KafkaFactsSamples.offline
                       KafkaFactsSamples.secured)) = [(addrs, config)]
    /\ addrs = ["broker1:9092"; "broker2:9092"]
    /\ Kafka.ProducerMaxMessageBytes config = 4
    /\ Kafka.ProducerRequiredAcks config = Kafka.AcksWaitForAll
    /\ Kafka.NetMaxOpenRequests config = 1
    /\ Kafka.Mechanism config = Kafka.SASLTypeSCRAMSHA512
    /\ Kafka.TLSEnable config = true
    /\ Kafka.FlushMessagesField config = 0.
Proof.
  eexists. eexists. split; [vm_compute; reflexivity|].
  match goal with
  | |- ?a = _ /\ Kafka.ProducerMaxMessageBytes ?c = _ /\ _ =>
      pose proof (producer_as_configured KafkaFactsSamples.offline
                    KafkaFactsSamples.secured a c (or_introl eq_refl))
        as ((Ha & _) & (_ & Hbytes & _) & Hacks & Hidem & _ & Hsasl & Htls
            & Hflush)
  end.
  split; [exact Ha|]. split; [exact Hbytes|].
  split; [exact (Hacks (or_intror eq_refl))|].
  split; [exact (proj2 (Hidem eq_refl))|].
  split; [exact (proj2 (proj2 (proj2 (proj2 (Hsasl eq_refl)))))|].
  split; [|exact (proj1 Hflush)].
  refine (proj1 (Htls _ _)); discriminate.
Defined.

(** ** The Kafka [Write], continued *)

Section KafkaWriteFacts.
Import Kafka WriteFacts.

Context {W : Type} (P : Producers W).

Lemma errorTracksFailed_recordFailed (st : WriteState W) m e w :
  errorTracksFailed (recordFailed st m e w).
Proof.
  unfold errorTracksFailed, recordFailed, multierror_Append. simpl.
  split; [discriminate|]. intros H. now apply app_eq_nil in H as [_ H].
Qed.

Lemma errorIsList_recordFailed (st : WriteState W) m e w :
  errorIsList (recordFailed st m e w).
Proof. right. unfold recordFailed, multierror_Append. simpl. eauto. Qed.

Lemma errorTracksFailed_recordSent (st : WriteState W) m w :
  errorTracksFailed st -> errorTracksFailed (recordSent st m w).
Proof. unfold errorTracksFailed. simpl. auto. Qed.

Lemma marked_recordFailed (h0 : Heap) (st : WriteState W) m e w :
  marked h0 st -> marked h0 (recordFailed st m e w).
Proof.
  unfold marked. intros H q. simpl. unfold heap_SetError.
  destruct (Nat.eqb_spec q m) as [->|Hne].
  - destruct (H m) as (es & Hes & _). exists (es ++ [e]).
    rewrite fold_left_app, <- Hes. simpl. split; [reflexivity|].
    split; [intros _ Hnil; now apply app_eq_nil in Hnil as [_ Hnil]|].
    intros _. apply in_or_app. right. now left.
  - destruct (H q) as (es & Hes & Hin). exists es. split; [exact Hes|].
    rewrite <- Hin. split.
    + intros Hq. apply in_app_or in Hq as [Hq|[Hq|[]]]; [exact Hq|congruence].
    + intros Hq. apply in_or_app. now left.
Qed.

Lemma marked_recordSent (h0 : Heap) (st : WriteState W) m w :
  marked h0 st -> marked h0 (recordSent st m w).
Proof. unfold marked. simpl. auto. Qed.

Lemma grownWithin_refl (msgs : list ptr) (st : WriteState W) :
  grownWithin msgs st st.
Proof.
  exists [], []. rewrite !app_nil_r.
  repeat split; apply sublist_nil_l.
Qed.

Lemma syncStep_fold_facts (h0 : Heap) (topic : string) (msgs : list ptr)
    (st : WriteState W) :
  let st' := fold_left (syncStep P topic) msgs st in
  (errorTracksFailed st -> errorTracksFailed st')
  /\ (marked h0 st -> marked h0 st')
  /\ (errorIsList st -> errorIsList st')
  /\ grownWithin msgs st st'.
Proof.
  revert st. induction msgs as [|m msgs IH]; intros st; simpl.
  - split; [auto|]. split; [auto|]. split; [auto|]. apply grownWithin_refl.
  - destruct (IH (syncStep P topic st m))
      as (He & Hm & Hl & (s & f & Hs & Hf & Hss & Hsf)).
    cbv zeta. unfold syncStep in *.
    destruct (SendMessage P (world st) _) as [[e|] w].
    + split; [intros _; apply He, errorTracksFailed_recordFailed|].
      split; [intros H; apply Hm, marked_recordFailed, H|].
      split; [intros _; apply Hl, errorIsList_recordFailed|].
      exists s, (m :: f). simpl in Hs, Hf.
      rewrite Hs, Hf, <- app_assoc. simpl.
      split; [reflexivity|]. split; [reflexivity|].
      split; [now apply sublist_cons|now apply sublist_skip].
    + split; [intros H; apply He, errorTracksFailed_recordSent, H|].
      split; [intros H; apply Hm, marked_recordSent, H|].
      split; [intros H; apply Hl, H|].
      exists (m :: s), f. simpl in Hs, Hf.
      rewrite Hs, Hf, <- app_assoc. simpl.
      split; [reflexivity|]. split; [reflexivity|].
      split; [now apply sublist_skip|now apply sublist_cons].
Qed.

Lemma drain_facts (h0 : Heap) (n : nat) (st st' : WriteState W) :
  drain P n st = Returned st' ->
  (errorTracksFailed st -> errorTracksFailed st')
  /\ (marked h0 st -> marked h0 st')
  /\ (errorIsList st -> errorIsList st').
Proof.
  revert st. induction n as [|n IH]; intros st; simpl.
  - intros [= <-]. auto.
  - destruct (asyncResults P (world st)) as [[r w]|]; [|discriminate].
    destruct (assertMessage (Metadata (Msg r))) as [m|]; [|discriminate].
    destruct (Err r) as [e|]; intros Hd; apply IH in Hd as (He & Hm & Hl).
    + split; [intros _; apply He, errorTracksFailed_recordFailed|].
      split; [intros H; apply Hm, marked_recordFailed, H|].
      intros _. apply Hl, errorIsList_recordFailed.
    + split; [intros H; apply He, errorTracksFailed_recordSent, H|].
      split; [intros H; apply Hm, marked_recordSent, H|].
      intros H. apply Hl, H.
Qed.

Lemma marked_start (h : Heap) (e : option error) (w : W) :
  marked h (mkWriteState [] [] e h [] w).
Proof.
  intros q. exists []. simpl. split; [reflexivity|]. split; [intros []|congruence].
Qed.

Lemma errorTracksFailed_start (h : Heap) (w : W) :
  errorTracksFailed (mkWriteState [] [] None h [] w).
Proof. split; reflexivity. Qed.

(** What the three branches of [Write] have in common when it returns. *)
Lemma Write_returned (kt : KafkaTarget) (h : Heap) (messages : list ptr)
    (w : W) (r : WriteReturn W) :
  Write P kt h messages w = Returned r ->
  exists st,
    result r
    = PkgModels.NewTargetWriteResult (sent st) (failed st)
        (filter (isOversized h (messageByteLimit kt)) messages) []
    /\ writeError r
       = errors_Wrap (errResult st)
           ("Error writing messages to Kafka topic: " +:+ topicName kt)
    /\ heapAfter r = heap st
    /\ marked h st
    /\ errorIsList st
    /\ (asyncProducer kt = true \/ syncProducer kt = true ->
        errorTracksFailed st)
    /\ (asyncProducer kt = false ->
        grownWithin (filter (fun m => ~ isOversized h (messageByteLimit kt) m)
                       messages)
          (mkWriteState [] [] None h [] w) st).
Proof.
  unfold Write. rewrite FilterOversizedMessages_filter.
  set (safe := filter _ messages).
  destruct (asyncProducer kt) eqn:Ha.
  - destruct (submit P _ h safe w) as [w'|]; [|discriminate].
    destruct (drain P _ _) as [st| |] eqn:Hd; [|discriminate..].
    intros [= <-]. exists st. simpl.
    destruct (drain_facts h _ _ _ Hd) as (He & Hm & Hl).
    split; [reflexivity|]. split; [reflexivity|]. split; [reflexivity|].
    split; [apply Hm, marked_start|].
    split; [apply Hl; now left|].
    split; [intros _; apply He, errorTracksFailed_start|discriminate].
  - destruct (syncProducer kt) eqn:Hs.
    + intros [= <-].
      destruct (syncStep_fold_facts h (topicName kt) safe
                  (mkWriteState [] [] None h [] w)) as (He & Hm & Hl & Hg).
      eexists. simpl.
      split; [reflexivity|]. split; [reflexivity|]. split; [reflexivity|].
      split; [apply Hm, marked_start|].
      split; [apply Hl; now left|].
      split; [intros _; apply He, errorTracksFailed_start|intros _; exact Hg].
    + intros [= <-].
      exists (mkWriteState [] []
                (multierror_Append None
                   (ErrText "no producer has been configured")) h [] w).
      split; [reflexivity|]. split; [reflexivity|]. split; [reflexivity|].
      split; [apply marked_start|].
      split; [right; unfold multierror_Append; simpl; eauto|].
      split; [intros [|]; discriminate|].
      intros _. exists [], []. repeat split; apply sublist_nil_l.
Qed.
(** X14: with a producer configured, the Kafka [Write] returns a nil error
    exactly when it reports no message failed; an error it returns is the
    list of the errors gathered, wrapped with the name of the topic. *)
Theorem Write_error_iff_failed (kt : KafkaTarget) (h : Heap)
    (messages : list ptr) (w : W) (r : WriteReturn W) :
  asyncProducer kt = true \/ syncProducer kt = true ->
  Write P kt h messages w = Returned r ->
  (writeError r = None <-> PkgModels.Failed (result r) = [])
  /\ (writeError r = None
      \/ exists es,
           writeError r
           = Some (ErrWrap (ErrMulti es)
                     ("Error writing messages to Kafka topic: " +:+ topicName kt))).
Proof.
  intros Hprod Hr.
  destruct (Write_returned kt h messages w r Hr)
    as (st & -> & -> & _ & _ & Hshape & He & _).
  specialize (He Hprod). unfold errorTracksFailed in He. simpl.
  destruct Hshape as [Hn|[es Hes]].
  - rewrite Hn in *. simpl. split; [exact He|now left].
  - rewrite Hes in *. simpl. split.
    + split; [discriminate|]. intros Hf. apply He in Hf. discriminate.
    + right. eauto.
Qed.

(** X15: the Kafka [Write] changes the stored messages by [SetError] only,
    and only those it reports failed: when it returns, every message is
    what it was before the call with some errors set on it in turn, at
    least one if the message is among the failed and none otherwise, so
    that a message not reported failed is unchanged. *)
Theorem Write_marks_the_failed_only (kt : KafkaTarget) (h : Heap)
    (messages : list ptr) (w : W) (r : WriteReturn W) (q : ptr) :
  Write P kt h messages w = Returned r ->
  (exists es,
     heapAfter r q = fold_left SetError es (h q)
     /\ (In q (PkgModels.Failed (result r)) <-> es <> []))
  /\ (~ In q (PkgModels.Failed (result r)) -> heapAfter r q = h q).
Proof.
  intros Hr.
  destruct (Write_returned kt h messages w r Hr)
    as (st & -> & _ & -> & Hm & _).
  simpl. destruct (Hm q) as (es & Hes & Hin).
  split; [exists es; split; assumption|].
  intros Hnot. destruct es as [|e es]; [exact Hes|].
  exfalso. apply Hnot, Hin. discriminate.
Qed.

(** X16: without the asynchronous producer, the Kafka [Write] keeps the
    order of the batch: the messages sent, the messages failed and the
    oversized messages are each a sublist of the batch, and the messages
    sent and failed together are the messages within the limit. *)
Theorem Write_sync_keeps_batch_order (kt : KafkaTarget) (h : Heap)
    (messages : list ptr) (w : W) (r : WriteReturn W) :
  asyncProducer kt = false ->
  Write P kt h messages w = Returned r ->
  sublist (PkgModels.Sent (result r)) messages
  /\ sublist (PkgModels.Failed (result r)) messages
  /\ sublist (PkgModels.Oversized (result r)) messages
  /\ Forall (fun m => ~ isOversized h (messageByteLimit kt) m)
        (PkgModels.Sent (result r) ++ PkgModels.Failed (result r))
  /\ Forall (isOversized h (messageByteLimit kt))
        (PkgModels.Oversized (result r)).
Proof.
  intros Ha Hr.
  destruct (Write_returned kt h messages w r Hr)
    as (st & -> & _ & _ & _ & _ & _ & Hg).
  destruct (Hg Ha) as (s & f & Hs & Hf & Hss & Hsf). simpl in *.
  rewrite Hs, Hf.
  assert (Hsafe : sublist (filter (fun m => ~ isOversized h (messageByteLimit kt) m)
                             messages) messages) by apply sublist_filter.
  split; [now transitivity (filter (fun m => ~ isOversized h (messageByteLimit kt) m) messages)|].
  split; [now transitivity (filter (fun m => ~ isOversized h (messageByteLimit kt) m) messages)|].
  split; [apply sublist_filter|].
  split.
  - apply Forall_app. split; apply Forall_forall; intros x Hx.
    + apply (elem_of_sublist _ _ _ Hx) in Hss.
      now apply list_elem_of_filter in Hss as [Hss _].
    + apply (elem_of_sublist _ _ _ Hx) in Hsf.
      now apply list_elem_of_filter in Hsf as [Hsf _].
  - apply Forall_forall. intros x Hx.
    now apply list_elem_of_filter in Hx as [Hx _].
Qed.

(** X17: a batch with nothing to send, empty or of oversized messages
    only, never reaches the producer: [Write] returns, also on the
    asynchronous path, with the broker side and the messages untouched, no
    callback invoked, every message reported oversized, and no error when a
    producer is configured. *)
Theorem Write_nothing_to_send (kt : KafkaTarget) (h : Heap)
    (messages : list ptr) (w : W) :
  Forall (isOversized h (messageByteLimit kt)) messages ->
  exists r,
    Write P kt h messages w = Returned r
    /\ worldAfter r = w /\ heapAfter r = h /\ ackedAfter r = []
    /\ result r = PkgModels.NewTargetWriteResult [] [] messages []
    /\ (asyncProducer kt = true \/ syncProducer kt = true ->
        writeError r = None).
Proof.
  intros Hall. unfold Write. rewrite FilterOversizedMessages_filter.
  assert (Hsafe : filter (fun m => ~ isOversized h (messageByteLimit kt) m)
                    messages = []).
  { induction Hall as [|m ms Hm _ IH]; [reflexivity|].
    rewrite filter_cons_False by (intros Hnot; exact (Hnot Hm)). exact IH. }
  assert (Hover : filter (isOversized h (messageByteLimit kt)) messages
                  = messages).
  { clear Hsafe. induction Hall as [|m ms Hm _ IH]; [reflexivity|].
    rewrite filter_cons_True by exact Hm. now rewrite IH. }
  rewrite Hsafe, Hover. simpl.
  destruct (asyncProducer kt); [|destruct (syncProducer kt)]; simpl;
    eexists; (split; [reflexivity|]); simpl; repeat split; auto.
  intros [|]; discriminate.
Qed.

End KafkaWriteFacts.

Lemma Write_error_iff_failed_witness :
  exists r,
    Kafka.Write TargetSamples.producers TargetSamples.syncTarget
      TargetSamples.heap TargetSamples.batch [] = Returned r
    /\ PkgModels.Failed (Kafka.result r) = [1%nat]
    /\ (Kafka.writeError r = None <-> PkgModels.Failed (Kafka.result r) = []).
Proof.
  eexists. split; [vm_compute; reflexivity|]. split; [reflexivity|].
  match goal with
  | |- Kafka.writeError ?r = None <-> _ =>
      exact (proj1 (Write_error_iff_failed TargetSamples.producers
                      TargetSamples.syncTarget TargetSamples.heap
                      TargetSamples.batch [] r (or_intror eq_refl) eq_refl))
  end.
Defined.

Lemma Write_marks_the_failed_only_witness :
  exists r,
    Kafka.Write TargetSamples.producers TargetSamples.asyncTarget
      TargetSamples.heap TargetSamples.batch [] = Returned r
    /\ PkgModels.Failed (Kafka.result r) = [1%nat]
    /\ err (Kafka.heapAfter r 1%nat) = Some TargetSamples.brokerDown
    /\ Kafka.heapAfter r 2%nat = TargetSamples.heap 2%nat.
Proof.
  eexists. split; [vm_compute; reflexivity|]. split; [reflexivity|].
  split; [reflexivity|].
  match goal with
  | |- Kafka.heapAfter ?r _ = _ =>
      refine (proj2 (Write_marks_the_failed_only TargetSamples.producers
                       TargetSamples.asyncTarget TargetSamples.heap
                       TargetSamples.batch [] r 2%nat eq_refl) _)
  end.
  simpl. intros [H|[]]. discriminate H.
Defined.

Lemma Write_sync_keeps_batch_order_witness :
  exists r,
    Kafka.Write TargetSamples.producers TargetSamples.syncTarget
      TargetSamples.heap TargetSamples.batch [] = Returned r
    /\ PkgModels.Sent (Kafka.result r) = [0; 2; 3]%nat
    /\ sublist (PkgModels.Sent (Kafka.result r)) TargetSamples.batch.
Proof.
  eexists. split; [vm_compute; reflexivity|]. split; [reflexivity|].
  match goal with
  | |- sublist (PkgModels.Sent (Kafka.result ?r)) _ =>
      exact (proj1 (Write_sync_keeps_batch_order TargetSamples.producers
                      TargetSamples.syncTarget TargetSamples.heap
                      TargetSamples.batch [] r eq_refl eq_refl))
  end.
Defined.

Lemma Write_nothing_to_send_witness :
  exists r,
    Kafka.Write TargetSamples.producers TargetSamples.asyncTarget
      TargetSamples.heap [5; 7]%nat [TargetSamples.staleResult] = Returned r
    /\ Kafka.worldAfter r = [TargetSamples.staleResult]
    /\ PkgModels.Oversized (Kafka.result r) = [5; 7]%nat
    /\ Kafka.writeError r = None.
Proof.
  destruct (Write_nothing_to_send TargetSamples.producers
              TargetSamples.asyncTarget TargetSamples.heap [5; 7]%nat
              [TargetSamples.staleResult])
    as (r & Hr & Hw & _ & _ & Hres & Herr).
  - repeat constructor.
  - exists r. split; [exact Hr|]. split; [exact Hw|].
    split; [now rewrite Hres|]. apply Herr. now left.
Defined.

(** ** The EventHub target, continued *)

Section EventHubFacts.
Import EventHub.

Context {W : Type} (hub : Hub W) (eht : EventHubTarget) (h : Heap).

Lemma sublist_concat {A : Type} (ls1 ls2 : list (list A)) :
  sublist ls1 ls2 -> sublist (concat ls1) (concat ls2).
Proof.
  induction 1 as [|x ls1 ls2 _ IH|x ls1 ls2 _ IH]; simpl.
  - constructor.
  - now apply sublist_app.
  - now apply sublist_inserts_l.
Qed.

Lemma concat_nonempty_nil {A : Type} (ls : list (list A)) :
  Forall (fun l => l <> []) ls -> concat ls = [] -> ls = [].
Proof.
  intros Hall Hnil. destruct Hall as [|l ls Hl _]; [reflexivity|].
  simpl in Hnil. apply app_eq_nil in Hnil as [Hnil _]. contradiction.
Qed.

(** The loop over the chunks moves each chunk as a whole to the messages
    sent or to the messages failed, and has an error as soon as one chunk
    has failed. *)
Lemma chunkLoop_fold_chunks (chunks : list (list ptr)) (st : WriteState W) :
  let st' := fold_left (chunkLoop hub eht h) chunks st in
  exists sentChunks failedChunks,
    PkgModels.Sent (writeResult st')
    = PkgModels.Sent (writeResult st) ++ concat sentChunks
    /\ PkgModels.Failed (writeResult st')
       = PkgModels.Failed (writeResult st) ++ concat failedChunks
    /\ sublist sentChunks chunks /\ sublist failedChunks chunks
    /\ sentChunks ++ failedChunks ≡ₚ chunks
    /\ (errResult st' = None <-> errResult st = None /\ failedChunks = [])
    /\ (chunks = [] -> st' = st).
Proof.
  revert st. induction chunks as [|chunk chunks IH]; intros st; simpl.
  - exists [], []. simpl. rewrite !app_nil_r.
    split; [reflexivity|]. split; [reflexivity|].
    split; [constructor|]. split; [constructor|]. split; [reflexivity|].
    split; [tauto|reflexivity].
  - destruct (IH (chunkLoop hub eht h st chunk))
      as (sc & fc & Hs & Hf & Hsc & Hfc & Hperm & Herr & _).
    pose proof (process_whole_chunk hub eht h (acked st) (world st) chunk)
      as [Hr _].
    cbv zeta in *.
    assert (Hstep :
      match fst (SendBatch hub (world st) (contextTimeout eht) (toEvents h chunk)
                   (batchByteLimit eht)) with
      | Some e =>
          PkgModels.Sent (writeResult (chunkLoop hub eht h st chunk))
          = PkgModels.Sent (writeResult st)
          /\ PkgModels.Failed (writeResult (chunkLoop hub eht h st chunk))
             = PkgModels.Failed (writeResult st) ++ chunk
          /\ errResult (chunkLoop hub eht h st chunk) <> None
      | None =>
          PkgModels.Sent (writeResult (chunkLoop hub eht h st chunk))
          = PkgModels.Sent (writeResult st) ++ chunk
          /\ PkgModels.Failed (writeResult (chunkLoop hub eht h st chunk))
             = PkgModels.Failed (writeResult st)
          /\ errResult (chunkLoop hub eht h st chunk) = errResult st
      end).
    { unfold chunkLoop.
      destruct (fst (SendBatch hub (world st) _ _ _)) as [e|];
        destruct Hr as (Hres & Hperr & _); rewrite Hres, Hperr; simpl;
        rewrite ?app_nil_r; (split; [reflexivity|]); (split; [reflexivity|]);
        [discriminate|reflexivity]. }
    clear Hr.
    destruct (fst (SendBatch hub (world st) _ _ _)) as [e|];
      destruct Hstep as (Hs1 & Hf1 & He1).
    + exists sc, (chunk :: fc). rewrite Hs, Hf, Hs1, Hf1. simpl.
      rewrite <- app_assoc.
      split; [reflexivity|]. split; [reflexivity|].
      split; [now apply sublist_cons|]. split; [now apply sublist_skip|].
      split; [rewrite <- Hperm; symmetry; apply Permutation_middle|].
      split; [|discriminate].
      rewrite Herr. split; [intros [H _]; contradiction|].
      intros [_ H]. discriminate H.
    + exists (chunk :: sc), fc. rewrite Hs, Hf, Hs1, Hf1. simpl.
      rewrite <- app_assoc.
      split; [reflexivity|]. split; [reflexivity|].
      split; [now apply sublist_skip|]. split; [now apply sublist_cons|].
      split; [now rewrite Hperm|]. split; [|discriminate].
      rewrite Herr, He1. reflexivity.
Qed.

(** X18: the EventHub [Write] classifies by whole chunks and keeps the
    order of the batch. The messages sent are some of the chunks, one after
    the other, and the messages failed are the other chunks; both lists and
    the oversized messages are sublists of the batch; and the error
    returned is nil exactly when no chunk, and so no message, has
    failed. *)
Theorem Write_eventhub_by_whole_chunks (messages : list ptr) (w : W) :
  let chunks :=
    fst (PkgModels.GetChunkedMessages h messages (chunkMessageLimit eht)
           (MaximumAllowedMessageSizeBytes eht) (chunkByteLimit eht)) in
  let out := Write hub eht h messages w in
  (exists sentChunks failedChunks,
     PkgModels.Sent (writeResult out) = concat sentChunks
     /\ PkgModels.Failed (writeResult out) = concat failedChunks
     /\ sublist sentChunks chunks /\ sublist failedChunks chunks
     /\ sentChunks ++ failedChunks ≡ₚ chunks
     /\ (errResult out = None <-> failedChunks = []))
  /\ (errResult out = None <-> PkgModels.Failed (writeResult out) = [])
  /\ sublist (PkgModels.Sent (writeResult out)) messages
  /\ sublist (PkgModels.Failed (writeResult out)) messages
  /\ sublist (PkgModels.Oversized (writeResult out)) messages.
Proof.
  unfold Write, MaximumAllowedMessageSizeBytes.
  pose proof (GetChunkedMessages_filter h (chunkMessageLimit eht)
                (messageByteLimit eht) (chunkByteLimit eht) messages) as Hchunks.
  destruct (PkgModels.GetChunkedMessages h messages _ _ _) as [chunks oversized].
  destruct Hchunks as (Hc & Ho & Hne).
  destruct (chunkLoop_fold_chunks chunks (start oversized w))
    as (sc & fc & Hs & Hf & Hsc & Hfc & Hperm & Herr & _).
  pose proof (chunkLoop_fold hub eht h chunks (start oversized w))
    as (_ & Hover & _).
  cbv zeta in *. set (st := fold_left _ chunks _) in *. simpl in *.
  assert (Herr' : errors_Wrap (errResult st) "Error writing messages to EventHub"
                  = None <-> fc = []).
  { destruct (errResult st) as [e|]; simpl.
    - split; [discriminate|]. intros Hfc0.
      assert (Hnone : Some e = None) by (apply Herr; tauto).
      discriminate Hnone.
    - split; [|reflexivity]. intros _. now apply Herr. }
  assert (Hsafe : sublist (concat chunks) messages).
  { rewrite Hc. apply sublist_filter. }
  split; [exists sc, fc; auto 10|].
  split; [|split; [|split]].
  - rewrite Herr', Hf. split; [now intros ->|].
    apply concat_nonempty_nil.
    apply Forall_forall. intros c Hin.
    rewrite Forall_forall in Hne. apply Hne.
    exact (elem_of_sublist _ _ _ Hin Hfc).
  - rewrite Hs. etransitivity; [apply sublist_concat, Hsc|exact Hsafe].
  - rewrite Hf. etransitivity; [apply sublist_concat, Hfc|exact Hsafe].
  - rewrite Hover, Ho. apply sublist_filter.
Qed.

(** X19: a batch with nothing to send, empty or of oversized messages
    only, never reaches the hub: the EventHub [Write] calls [SendBatch] for
    no chunk, invokes no callback, reports the whole batch oversized and
    returns no error. *)
Theorem Write_eventhub_nothing_to_send (messages : list ptr) (w : W) :
  Forall (isOversized h (messageByteLimit eht)) messages ->
  let out := Write hub eht h messages w in
  world out = w /\ acked out = [] /\ errResult out = None
  /\ writeResult out = PkgModels.onlyOversized messages.
Proof.
  intros Hall. unfold Write, MaximumAllowedMessageSizeBytes.
  pose proof (GetChunkedMessages_filter h (chunkMessageLimit eht)
                (messageByteLimit eht) (chunkByteLimit eht) messages) as Hchunks.
  destruct (PkgModels.GetChunkedMessages h messages _ _ _) as [chunks oversized].
  destruct Hchunks as (Hc & Ho & Hne).
  assert (Hsafe : filter (fun m => ~ isOversized h (messageByteLimit eht) m)
                    messages = []).
  { clear - Hall. induction Hall as [|m ms Hm _ IH]; [reflexivity|].
    rewrite filter_cons_False by (intros Hnot; exact (Hnot Hm)). exact IH. }
  assert (Hover : filter (isOversized h (messageByteLimit eht)) messages
                  = messages).
  { clear - Hall. induction Hall as [|m ms Hm _ IH]; [reflexivity|].
    rewrite filter_cons_True by exact Hm. now rewrite IH. }
  rewrite Hsafe in Hc. rewrite Hover in Ho. subst oversized.
  apply (concat_nonempty_nil _ Hne) in Hc. subst chunks. simpl.
  repeat split.
Qed.

End EventHubFacts.

Lemma Write_eventhub_nothing_to_send_witness :
  let out := EventHub.Write TargetSamples.hub TargetSamples.eventHubTarget
               TargetSamples.heap [5; 7]%nat 0%nat in
  EventHub.world out = 0%nat
  /\ PkgModels.Oversized (EventHub.writeResult out) = [5; 7]%nat.
Proof.
  destruct (Write_eventhub_nothing_to_send TargetSamples.hub
              TargetSamples.eventHubTarget TargetSamples.heap [5; 7]%nat 0%nat)
    as (Hw & _ & _ & Hres).
  - repeat constructor.
  - cbv zeta. split; [exact Hw|]. now rewrite Hres.
Defined.

(** ** The construction of the EventHub target *)

Section EventHubConstructionFacts.
Import EventHub EventHubConstruction.

Context {C : Type}.
Variable newHub : gmap string string -> HubRequest -> option C * option error.

Lemma LookupEnv_present (env : gmap string string) (name : string) :
  snd (LookupEnv env name) = true <-> is_Some (env !! name).
Proof.
  unfold LookupEnv. destruct (env !! name); simpl.
  - split; eauto.
  - split; [discriminate|]. intros [? ?]. discriminate.
Qed.

Lemma validAuthentication_mono (env env' : gmap string string) :
  setIn env env' ->
  validAuthentication env = true -> validAuthentication env' = true.
Proof.
  intros Hset. unfold validAuthentication. cbv zeta.
  assert (Hp : forall name, snd (LookupEnv env name) = true ->
                            snd (LookupEnv env' name) = true).
  { intros name Hn. apply LookupEnv_present, Hset, LookupEnv_present, Hn. }
  rewrite !orb_true_iff, !andb_true_iff, !orb_true_iff, !andb_true_iff.
  intros [[H|[H1 H2]]|[[H1 H2] [[H3 H4]|H3]]]; auto 10.
Qed.

(** X20: [NewEventHubTarget] decides by which authentication variables are
    set, not by their values. Without a valid combination it returns nil and
    its own error and asks for no hub. With one it asks the library for one
    hub, with the namespace, the name and the retry count of the
    configuration, and returns a target, never nil, that holds the client
    the library returned (nil or not), with the library's error, and copies
    the five limits of the configuration. And when it builds a target in
    one environment, it builds one, with the same settings and after the
    same request, in every environment in which at least the same variables
    are set, whatever their values, even empty; the client and the error
    are then what the library makes of that environment. *)
Theorem NewEventHubTarget_by_presence (env env' : gmap string string)
    (cfg : EventHubConfig) :
  setIn env env' ->
  let c := NewEventHubTarget newHub env cfg in
  let c' := NewEventHubTarget newHub env' cfg in
  let request := mkHubRequest (EventHubNamespace cfg) (EventHubName cfg)
                              (MaxAutoRetries cfg) in
  match target c with
  | None =>
      constructionError c = Some noAuthentication /\ requests c = []
  | Some built =>
      (client built, constructionError c) = newHub env request
      /\ requests c = [request]
      /\ MaximumAllowedMessageSizeBytes (settings built) = MessageByteLimit cfg
      /\ chunkByteLimit (settings built) = ChunkByteLimit cfg
      /\ chunkMessageLimit (settings built) = ChunkMessageLimit cfg
      /\ contextTimeoutInSeconds (settings built) = ContextTimeoutInSeconds cfg
      /\ batchByteLimit (settings built) = BatchByteLimit cfg
      /\ exists built',
           target c' = Some built'
           /\ settings built' = settings built
           /\ requests c' = [request]
           /\ (client built', constructionError c') = newHub env' request
  end.
Proof.
  intros Hset. cbv zeta. unfold NewEventHubTarget.
  destruct (validAuthentication env) eqn:Hv; simpl.
  - rewrite (validAuthentication_mono env env' Hset Hv). simpl.
    destruct (newHub env _) as [hub err].
    destruct (newHub env' _) as [hub' err']. simpl.
    repeat split. eexists. repeat split.
  - split; reflexivity.
Qed.

End EventHubConstructionFacts.

Lemma NewEventHubTarget_by_presence_witness :
  exists built built',
    EventHubConstruction.target
      (EventHubConstruction.NewEventHubTarget EventHubSamples.refusesEmptyKey
         EventHubSamples.keyPair EventHubSamples.config) = Some built
    /\ EventHubConstruction.client built = None
    /\ EventHubConstruction.constructionError
         (EventHubConstruction.NewEventHubTarget EventHubSamples.refusesEmptyKey
            EventHubSamples.keyPair EventHubSamples.config)
       = Some (ErrText "empty key")
    /\ EventHubConstruction.target
         (EventHubConstruction.NewEventHubTarget EventHubSamples.refusesEmptyKey
            EventHubSamples.keyPairAndMore EventHubSamples.config) = Some built'
    /\ EventHubConstruction.client built' = Some 1%nat
    /\ EventHubConstruction.settings built'
       = EventHubConstruction.settings built.
Proof.
  assert (Hset : EventHubConstruction.setIn EventHubSamples.keyPair
                   EventHubSamples.keyPairAndMore).
  { intros name [value Hvalue].
    destruct (decide (name = "EVENTHUB_KEY_NAME")) as [->|Hname];
      [vm_compute; eauto|].
    destruct (decide (name = "EVENTHUB_KEY_VALUE")) as [->|Hvalue'];
      [vm_compute; eauto|].
    unfold EventHubSamples.keyPair in Hvalue.
    rewrite lookup_insert_ne, lookup_singleton_ne in Hvalue by congruence.
    discriminate Hvalue. }
  pose proof (NewEventHubTarget_by_presence EventHubSamples.refusesEmptyKey
                EventHubSamples.keyPair EventHubSamples.keyPairAndMore
                EventHubSamples.config Hset) as H.
  cbv zeta in H.
  destruct (EventHubConstruction.target
              (EventHubConstruction.NewEventHubTarget
                 EventHubSamples.refusesEmptyKey
                 EventHubSamples.keyPair EventHubSamples.config))
    as [built|] eqn:Ht.
  - destruct H as (Hlib & _ & _ & _ & _ & _ & _ & built' & Ht' & Hsame & _ & Hlib').
    exists built, built'.
    assert (Hclient : EventHubConstruction.client built = None)
      by exact (f_equal fst Hlib).
    assert (Hclient' : EventHubConstruction.client built' = Some 1%nat)
      by exact (f_equal fst Hlib').
    split; [reflexivity|]. split; [exact Hclient|].
    split; [vm_compute; reflexivity|].
    split; [exact Ht'|]. split; [exact Hclient'|exact Hsame].
  - vm_compute in Ht. discriminate Ht.
Defined.

(** ** A target whose producer could not be created *)

Section KafkaWithoutProducer.
Import Kafka.

Context {W : Type} (P : Producers W).
Variable lib : Library.

Lemma NewKafkaTarget_sync_target (cfg : KafkaConfig) (kt : KafkaTarget) :
  ForceSync cfg = true ->
  target (NewKafkaTarget lib cfg) = Some kt ->
  asyncProducer kt = false
  /\ syncProducer kt
     = bool_decide (constructionError (NewKafkaTarget lib cfg) = None)
  /\ topicName kt = TopicName cfg
  /\ messageByteLimit kt = ByteLimit cfg.
Proof.
  intros Hsync. unfold NewKafkaTarget.
  destruct (getKafkaVersion lib (TargetVersion cfg)) as [v [e|]];
    [discriminate|].
  cbv zeta.
  destruct (if EnableSASL cfg then _ else _) as [c0|e]; [|discriminate].
  destruct (createTlsConfiguration lib _ _ _ _) as [t [e|]]; [discriminate|].
  rewrite Hsync. simpl. intros [= <-]. simpl. repeat split.
Qed.

(** X21: the target that [NewKafkaTarget] returns together with an error
    under [ForceSync] has no producer, and [Write] on it sends nothing:
    whatever the batch, it returns the error "no producer has been
    configured", wrapped with the topic, leaves the broker side and the
    messages untouched and invokes no callback; the messages within the
    byte limit are reported neither sent nor failed, so that the counts of
    the result add up to the number of oversized messages only. *)
Theorem Write_on_target_without_producer (cfg : KafkaConfig) (kt : KafkaTarget)
    (h : Heap) (messages : list ptr) (w : W) :
  ForceSync cfg = true ->
  target (NewKafkaTarget lib cfg) = Some kt ->
  constructionError (NewKafkaTarget lib cfg) <> None ->
  exists r,
    Write P kt h messages w = Returned r
    /\ writeError r
       = Some (ErrWrap (ErrMulti [ErrText "no producer has been configured"])
                 ("Error writing messages to Kafka topic: " +:+ TopicName cfg))
    /\ PkgModels.Sent (result r) = [] /\ PkgModels.Failed (result r) = []
    /\ PkgModels.Oversized (result r)
       = filter (isOversized h (ByteLimit cfg)) messages
    /\ PkgModels.classified (result r)
       = Z.of_nat (length (filter (isOversized h (ByteLimit cfg)) messages))
    /\ worldAfter r = w /\ heapAfter r = h /\ ackedAfter r = [].
Proof.
  intros Hsync Htarget Herr.
  destruct (NewKafkaTarget_sync_target cfg kt Hsync Htarget)
    as (Ha & Hs & Htopic & Hlimit).
  rewrite bool_decide_false in Hs by exact Herr.
  unfold Write. rewrite FilterOversizedMessages_filter, Ha, Hs, Htopic, Hlimit.
  eexists. split; [reflexivity|]. simpl.
  split; [reflexivity|]. split; [reflexivity|]. split; [reflexivity|].
  split; [reflexivity|].
  split; [|repeat split].
  unfold PkgModels.classified, PkgModels.OversizedCount, PkgModels.InvalidCount.
  simpl. lia.
Qed.

End KafkaWithoutProducer.

Lemma Write_on_target_without_producer_witness :
  exists kt r,
    Kafka.target (Kafka.NewKafkaTarget KafkaFactsSamples.offline
                    KafkaFactsSamples.secured) = Some kt
    /\ Kafka.Write TargetSamples.producers kt TargetSamples.heap
         TargetSamples.batch [] = Returned r
    /\ PkgModels.Oversized (Kafka.result r) = [5%nat]
    /\ PkgModels.classified (Kafka.result r) = 1.
Proof.
  eexists.
  destruct (Write_on_target_without_producer TargetSamples.producers
              KafkaFactsSamples.offline KafkaFactsSamples.secured _
              TargetSamples.heap TargetSamples.batch [] eq_refl eq_refl)
    as (r & Hr & _ & _ & _ & Hover & Hcount & _).
  - discriminate.
  - exists r. split; [reflexivity|]. split; [exact Hr|].
    split; [rewrite Hover; reflexivity|rewrite Hcount; reflexivity].
Defined.

(** ** The SQS source: the messages of a fetch *)

Section SQSProcessFacts.
Import SQS.

(** X22: [process] hands the target one message per SQS message, in the
    order of the fetch, also when the fetch is empty, and returns nil. Each
    message carries the body, the partition key drawn for it, the instant
    of the fetch as [TimePulled], no error, and a callback that deletes the
    SQS message it was built from, by its own receipt handle, on the queue
    of the source. A [SentTimestamp] that parses gives [TimeCreated] as
    that many milliseconds in nanoseconds (exactly, for timestamps within
    9223372036854 ms of the epoch); and an error of the target is
    logged. When [ReceiveMessage] fails, the target is not called, nothing
    is logged, and the error is returned, wrapped. *)
Theorem process_builds_one_message_each
    (queueURL : string) (timePulled : Time) (newUUID : nat -> string)
    (writeToTarget : list Message -> option error) :
  (forall msgs : list SQSMessage,
     let r := process queueURL (inl msgs) timePulled newUUID writeToTarget in
     returned r = None
     /\ exists messages,
          forwarded r = Some messages
          /\ length messages = length msgs
          /\ (forall e, writeToTarget messages = Some e ->
                        In (LogError e) (logged r))
          /\ forall i msg, msgs !! i = Some msg ->
               exists m,
                 messages !! i = Some m
                 /\ Data m = list_byte_of_string (Body msg)
                 /\ PartitionKey m = newUUID i
                 /\ AckFunc m = Some (AckDelete queueURL (ReceiptHandle msg))
                 /\ TimePulled m = timePulled
                 /\ err m = None
                 /\ forall s millis,
                      Attributes msg !! MessageSystemAttributeNameSentTimestamp
                      = Some s ->
                      ParseInt s = Some millis ->
                      TimeCreated m = wrap64 (millis * Millisecond)
                      /\ (- 9223372036854 <= millis <= 9223372036854 ->
                          TimeCreated m = millis * 1000000))
  /\ (forall e : error,
        process queueURL (inr e) timePulled newUUID writeToTarget
        = mkProcessReturn
            (Some (ErrWrap e "Failed to get message from SQS queue")) None []).
Proof.
  split; [|reflexivity].
  intros msgs r. subst r. unfold process, processFetch, processDeliver.
  set (built := imap _ msgs).
  split; [destruct (writeToTarget _); reflexivity|].
  exists (fst <$> built).
  split; [destruct (writeToTarget _); reflexivity|].
  split; [subst built; now rewrite length_fmap, length_imap|].
  split.
  { intros e He. rewrite He. simpl. apply in_or_app. right. now left. }
  intros i msg Hi.
  exists (fst (buildMessage queueURL timePulled (newUUID i) msg)).
  split; [subst built; now rewrite list_lookup_fmap, list_lookup_imap, Hi|].
  pose proof (buildMessage_fields queueURL timePulled (newUUID i) msg)
    as (HD & HK & HA & HP).
  cbv zeta in *.
  split; [exact HD|]. split; [exact HK|]. split; [exact HA|].
  split; [exact HP|].
  split.
  { unfold buildMessage.
    destruct (Attributes msg !! MessageSystemAttributeNameSentTimestamp) as [s|];
      [destruct (ParseInt s)|]; reflexivity. }
  intros s millis Hs Hparse.
  assert (Hcreated : TimeCreated (fst (buildMessage queueURL timePulled
                                         (newUUID i) msg))
                     = wrap64 (millis * Millisecond)).
  { unfold buildMessage. rewrite Hs, Hparse. reflexivity. }
  split; [exact Hcreated|].
  intros Hrange. rewrite Hcreated. unfold Millisecond.
  apply wrap64_small. unfold minInt64, maxInt64. lia.
Qed.

End SQSProcessFacts.

(** ** What the Kafka [Write] gives to the producer *)

Section ProducerCallsFacts.
Import Kafka ProducerCalls.

Context {W : Type} (P : Producers W).

Lemma keepsContent_recordFailed (h0 : Heap) (st : WriteState W) m e w :
  keepsContent h0 st -> keepsContent h0 (recordFailed st m e w).
Proof.
  intros H q. simpl. unfold heap_SetError.
  destruct (Nat.eqb_spec q m) as [->|_]; [simpl|]; apply H.
Qed.

Lemma sameAs_recordFailed (st : WriteState W)
    (st' : WriteState (W * list ProducerMessage)) m e w log :
  sameAs st st' -> sameAs (recordFailed st m e w) (recordFailed st' m e (w, log)).
Proof.
  intros (Hs & Hf & He & Hh & Ha & Hw). unfold sameAs. simpl.
  rewrite Hs, Hf, He, Hh, Ha. repeat split.
Qed.

Lemma sameAs_recordSent (st : WriteState W)
    (st' : WriteState (W * list ProducerMessage)) m w log :
  sameAs st st' -> sameAs (recordSent st m w) (recordSent st' m (w, log)).
Proof.
  intros (Hs & Hf & He & Hh & Ha & Hw). unfold sameAs. simpl.
  rewrite Hs, Hf, He, Hh, Ha. repeat split.
Qed.

Lemma syncStep_recorded (h0 : Heap) (topic : string) (msgs : list ptr)
    (st : WriteState W) (st' : WriteState (W * list ProducerMessage)) :
  sameAs st st' -> keepsContent h0 st ->
  sameAs (fold_left (syncStep P topic) msgs st)
         (fold_left (syncStep (recording P) topic) msgs st')
  /\ snd (world (fold_left (syncStep (recording P) topic) msgs st'))
     = snd (world st') ++ map (produced topic h0 (fun _ => AnyNil)) msgs.
Proof.
  revert st st'. induction msgs as [|m msgs IH]; intros st st' Hsame Hkeep; simpl.
  - split; [exact Hsame|now rewrite app_nil_r].
  - assert (Hstep :
      sameAs (syncStep P topic st m) (syncStep (recording P) topic st' m)
      /\ keepsContent h0 (syncStep P topic st m)
      /\ snd (world (syncStep (recording P) topic st' m))
         = snd (world st') ++ [produced topic h0 (fun _ => AnyNil) m]).
    { pose proof Hsame as (_ & _ & _ & Hh & _ & Hw).
      destruct (Hkeep m) as [HD HK].
      unfold syncStep, recording. simpl. rewrite Hh, Hw.
      destruct (SendMessage P (world st) _) as [[e|] w1].
      - split; [now apply sameAs_recordFailed|].
        split; [now apply keepsContent_recordFailed|].
        simpl. unfold produced. now rewrite HD, HK.
      - split; [now apply sameAs_recordSent|].
        split; [exact Hkeep|].
        simpl. unfold produced. now rewrite HD, HK. }
    destruct Hstep as (Hsame1 & Hkeep1 & Hlog1).
    destruct (IH _ _ Hsame1 Hkeep1) as [Hsame2 Hlog2].
    split; [exact Hsame2|]. rewrite Hlog2, Hlog1, <- app_assoc. reflexivity.
Qed.

Lemma submit_recorded (topic : string) (h : Heap) (msgs : list ptr) (w : W)
    (log : list ProducerMessage) :
  submit (recording P) topic h msgs (w, log)
  = match submit P topic h msgs w with
    | Some w' => Some (w', log ++ map (produced topic h AnyMessage) msgs)
    | None => None
    end.
Proof.
  revert w log. induction msgs as [|m msgs IH]; intros w log; simpl.
  - now rewrite app_nil_r.
  - destruct (Input P w _) as [w1|]; [|reflexivity].
    rewrite IH. destruct (submit P topic h msgs w1); [|reflexivity].
    now rewrite <- app_assoc.
Qed.

Lemma drain_recorded (n : nat) (st : WriteState W)
    (st' : WriteState (W * list ProducerMessage)) :
  sameAs st st' ->
  match drain P n st, drain (recording P) n st' with
  | Returned a, Returned b => sameAs a b /\ snd (world b) = snd (world st')
  | Blocked, Blocked | Panicked, Panicked => True
  | _, _ => False
  end.
Proof.
  revert st st'. induction n as [|n IH]; intros st st' Hsame; simpl.
  - split; [exact Hsame|reflexivity].
  - pose proof Hsame as (_ & _ & _ & _ & _ & Hw). rewrite Hw.
    destruct (asyncResults P (world st)) as [[r w1]|]; [|exact I].
    destruct (assertMessage (Metadata (Msg r))) as [m|]; [|exact I].
    destruct (Err r) as [e|].
    + apply (IH (recordFailed st m e w1)
                (recordFailed st' m e (w1, snd (world st')))).
      now apply sameAs_recordFailed.
    + apply (IH (recordSent st m w1) (recordSent st' m (w1, snd (world st')))).
      now apply sameAs_recordSent.
Qed.

(** X23: what [Write] gives to the producer. Keeping a record of the
    messages given to [SendMessage] and to [Input()] changes nothing of
    what [Write] does; and when [Write] returns, the record holds one
    message per message of the batch within the byte limit, in the order of
    the batch, each with the topic of the target and the partition key and
    data of its message, carrying the message as metadata on the
    asynchronous path and none on the synchronous one. Oversized messages
    are never given to the producer, and a target without producer is
    given nothing. *)
Theorem Write_gives_each_kept_message_once (kt : KafkaTarget) (h : Heap)
    (messages : list ptr) (w : W) :
  match Write P kt h messages w,
        Write (recording P) kt h messages (w, []) with
  | Returned r, Returned r' =>
      result r' = result r /\ writeError r' = writeError r
      /\ heapAfter r' = heapAfter r /\ ackedAfter r' = ackedAfter r
      /\ fst (worldAfter r') = worldAfter r
      /\ snd (worldAfter r') = given kt h messages
  | Blocked, Blocked | Panicked, Panicked => True
  | _, _ => False
  end.
Proof.
  unfold Write, given.
  destruct (PkgModels.FilterOversizedMessages h messages (messageByteLimit kt))
    as [safe oversized].
  simpl fst.
  destruct (asyncProducer kt).
  - rewrite submit_recorded.
    destruct (submit P (topicName kt) h safe w) as [w'|]; [|exact I].
    pose proof (drain_recorded (length safe)
                  (mkWriteState [] [] None h [] w')
                  (mkWriteState [] [] None h []
                     (w', [] ++ map (produced (topicName kt) h AnyMessage) safe)))
      as Hd.
    destruct (drain P _ _) as [a| |];
      destruct (drain (recording P) _ _) as [b| |];
      try (exact (Hd ltac:(repeat split))).
    destruct (Hd ltac:(repeat split)) as [(Hs & Hf & He & Hh & Ha & Hw) Hlog].
    simpl. rewrite Hs, Hf, He, Hh, Ha, Hw, Hlog. repeat split.
  - destruct (syncProducer kt).
    + destruct (syncStep_recorded h (topicName kt) safe
                  (mkWriteState [] [] None h [] w)
                  (mkWriteState [] [] None h [] (w, [])))
        as [(Hs & Hf & He & Hh & Ha & Hw) Hlog].
      * repeat split.
      * intros q. split; reflexivity.
      * simpl. rewrite Hs, Hf, He, Hh, Ha, Hw, Hlog. repeat split.
    + simpl. repeat split.
Qed.

End ProducerCallsFacts.

(** ** Progress of the read loop *)

Section ReadProgressFacts.
Import SQS ReadFacts ReadProgress Blocking.

Variable N : nat.
Variable world : World.

Ltac step_cases H :=
  unfold step, workerStep, setMain, setWorker in H;
  repeat match type of H with
         | None = Some _ => discriminate H
         | Some _ = Some _ => injection H as H; try subst
         | context [match ?x with _ => _ end] => destruct x eqn:?
         end.

Lemma maySend_le_slots (ws : list WorkerPC) :
  (countPC maySend ws <= slots ws)%nat.
Proof.
  induction ws as [|w ws IH]; [reflexivity|].
  rewrite countPC_cons, slots_cons. destruct w; simpl; lia.
Qed.

Lemma countPC_pos (f : WorkerPC -> bool) (ws : list WorkerPC) (i : nat)
    (w : WorkerPC) :
  ws !! i = Some w -> f w = true -> (1 <= countPC f ws)%nat.
Proof.
  revert i. induction ws as [|x ws IH]; intros [|i] Hi Hw; simpl in *;
    try discriminate; rewrite countPC_cons.
  - injection Hi as ->. rewrite Hw. simpl. lia.
  - specialize (IH i Hi Hw). lia.
Qed.

Lemma slots_pos (ws : list WorkerPC) :
  (1 <= slots ws)%nat ->
  exists i w, ws !! i = Some w /\ holdsSlot w = true.
Proof.
  induction ws as [|x ws IH]; [unfold slots; simpl; lia|].
  rewrite slots_cons. destruct (holdsSlot x) eqn:Hx.
  - intros _. exists 0%nat, x. split; [reflexivity|exact Hx].
  - simpl. intros H. destruct (IH H) as (i & w & Hi & Hw).
    exists (S i), w. split; assumption.
Qed.

Lemma not_all_done (ws : list WorkerPC) :
  forallb isDone ws = false ->
  exists i w, ws !! i = Some w /\ isDone w = false.
Proof.
  induction ws as [|x ws IH]; [discriminate|]. simpl.
  destruct (isDone x) eqn:Hx; simpl.
  - intros H. destruct (IH H) as (i & w & Hi & Hw).
    exists (S i), w. split; assumption.
  - intros _. exists 0%nat, x. split; [reflexivity|exact Hx].
Qed.

Lemma errorsFit_step (s s' : State) (a : Action) :
  errorsFit N s -> step N world s a = Some s' -> errorsFit N s'.
Proof.
  intros [Hslots Hfit] Hstep.
  split; [exact (slotsInvariant_step N world s s' a Hslots Hstep)|].
  unfold noStop, pending in *. destruct Hslots as [Heq Hle]. unfold inFlight in Heq.
  pose proof (maySend_le_slots (workers s)) as Hms.
  step_cases Hstep; simpl in *; intros [Hb Hr]; try discriminate;
    rewrite ?countPC_app, ?length_app in *; simpl in *;
    repeat match goal with
           | H : main _ = _ |- _ => rewrite H in *; simpl in *
           | H : processErrorSignal _ = _ |- _ => rewrite H in *; simpl in *
           end;
    try match goal with
        | H : workers s !! ?i = Some ?w |- context [<[?i := ?w']> _] =>
            pose proof (countPC_insert maySend _ _ _ w' H)
        end;
    simpl in *;
    try (specialize (Hfit (conj Hb Hr)));
    try (unfold countPC in *; simpl in *; lia).
Qed.

Lemma errorsFit_reachable (s : State) :
  reachable N world s -> errorsFit N s.
Proof.
  intros [schedule Hrun].
  apply (run_invariant N world (errorsFit N) errorsFit_step schedule init s);
    [|exact Hrun].
  split; [apply slotsInvariant_init|]. intros _. unfold pending, countPC. simpl. lia.
Qed.

Lemma worker_can_step_at (s : State) (i : nat) (w : WorkerPC) :
  workers s !! i = Some w ->
  isDone w = false ->
  (forall e, w = AtErrorSend e -> (length (processErrorSignal s) < N)%nat) ->
  (w = AtRelease -> (1 <= throttle s)%nat) ->
  exists s', workerStep N world s i w = Some s'.
Proof.
  intros Hi Hdone Hsend Hrelease.
  destruct w; simpl.
  - destruct (processFetch _ _ _ _) as [[messages logs]|e]; eauto.
  - destruct (processDeliver _ _) as [[e|] logs]; eauto.
  - specialize (Hsend e eq_refl). apply Nat.ltb_lt in Hsend.
    rewrite Hsend. eauto.
  - specialize (Hrelease eq_refl).
    destruct (throttle s); [lia|eauto].
  - eauto.
  - discriminate Hdone.
Qed.

Lemma worker_can_step (s : State) (i : nat) (w : WorkerPC) :
  workers s !! i = Some w ->
  isDone w = false ->
  (forall e, w = AtErrorSend e -> (length (processErrorSignal s) < N)%nat) ->
  (w = AtRelease -> (1 <= throttle s)%nat) ->
  canStep N world s.
Proof.
  intros Hi Hdone Hsend Hrelease. exists (WorkerStep i).
  destruct (worker_can_step_at s i w Hi Hdone Hsend Hrelease) as [s' Hs'].
  exists s'. split; [discriminate|].
  unfold step. rewrite Hi. destruct (main s); exact Hs'.
Qed.

(** Where every call of the queue and of the target returns: with at least
    one slot, in every reachable state in which no [Stop] has been called
    and [Read] has not returned, [Read] or one of its workers can take a
    step. *)
Lemma can_step_without_Stop (s : State) :
  (1 <= N)%nat ->
  reachable N world s ->
  stopsBlocked s = 0%nat -> stopsReturned s = 0%nat ->
  (forall r, main s <> HasReturned r) ->
  canStep N world s.
Proof.
  intros HN Hreach Hb Hr Hrunning.
  destruct (errorsFit_reachable s Hreach) as [[Heq Hle] Hfit].
  specialize (Hfit (conj Hb Hr)). unfold pending in Hfit. unfold inFlight in Heq.
  assert (Hroom : forall i e, workers s !! i = Some (AtErrorSend e) ->
                              main s <> AtSelect ->
                              (length (processErrorSignal s) < N)%nat).
  { intros i e Hi Hmain.
    pose proof (countPC_pos maySend _ _ _ Hi eq_refl) as Hpos.
    destruct (main s); simpl in Hfit; try lia. congruence. }
  destruct (main s) as [| | | |r|r] eqn:Hmain.
  - exists CallRead. unfold step. rewrite Hmain.
    destruct (GetQueueUrl world); eexists; (split; [discriminate|reflexivity]).
  - destruct (processErrorSignal s) as [|e rest] eqn:Herrs.
    + exists SelectDefault. unfold step. rewrite Hmain, Hb, Herrs.
      eexists. split; [discriminate|reflexivity].
    + exists SelectError. unfold step. rewrite Hmain, Herrs.
      eexists. split; [discriminate|reflexivity].
  - destruct (Nat.ltb (throttle s) N) eqn:Hlt.
    + exists SendThrottle. unfold step. rewrite Hmain, Hlt.
      eexists. split; [discriminate|reflexivity].
    + apply Nat.ltb_ge in Hlt. simpl in Heq.
      destruct (slots_pos (workers s)) as (i & w & Hi & Hw); [lia|].
      apply (worker_can_step s i w Hi).
      * destruct w; [reflexivity..|discriminate Hw|discriminate Hw].
      * intros e ->. apply (Hroom i e Hi). discriminate.
      * intros _. lia.
  - exists Launch. unfold step. rewrite Hmain.
    eexists. split; [discriminate|reflexivity].
  - destruct (forallb isDone (workers s)) eqn:Hall.
    + exists WaitReturns. unfold step. rewrite Hmain, Hall.
      eexists. split; [discriminate|reflexivity].
    + destruct (not_all_done _ Hall) as (i & w & Hi & Hw).
      apply (worker_can_step s i w Hi Hw).
      * intros e ->. apply (Hroom i e Hi). discriminate.
      * intros ->. simpl in Heq.
        pose proof (countPC_pos (fun w => holdsSlot w) _ _ _ Hi eq_refl) as Hpos.
        unfold countPC in Hpos. unfold slots in Heq. lia.
  - exfalso. exact (Hrunning r eq_refl).
Qed.

Lemma blocked_at_throttle_step (s s' : State) (a : Action) :
  N = 0%nat -> workers s = [] -> main s = AtThrottle ->
  step N world s a = Some s' ->
  workers s' = [] /\ main s' = AtThrottle
  /\ stopsReturned s' = stopsReturned s
  /\ fetches s' = fetches s /\ deliveries s' = deliveries s.
Proof.
  intros HN Hws Hmain Hstep.
  step_cases Hstep; simpl in *; try congruence;
    try (repeat split; assumption);
    try match goal with
        | H : Nat.ltb _ _ = true |- _ => apply Nat.ltb_lt in H; lia
        | H : workers _ !! _ = Some _ |- _ => rewrite Hws in H; discriminate H
        end.
Qed.

(** X25: with no slot at all ([concurrentWrites] zero) [Read] does no work
    and cannot be stopped. Once it has taken the [default] of its first
    select it stands at its send into [throttle] for good: along every
    schedule from there it stays at that send, launches no worker, calls
    neither [ReceiveMessage] nor [WriteToTarget], and lets no [Stop]
    return. *)
Theorem Read_without_slots_blocks (schedule : list Action) (s s' : State) :
  N = 0%nat ->
  reachable N world s ->
  main s = AtThrottle ->
  run N world s schedule = Some s' ->
  main s' = AtThrottle /\ workers s' = []
  /\ stopsReturned s' = stopsReturned s
  /\ fetches s' = fetches s /\ deliveries s' = deliveries s.
Proof.
  intros HN Hreach.
  pose proof (no_worker_without_slots N world s HN Hreach) as Hws.
  clear Hreach. revert s Hws.
  induction schedule as [|a schedule IH]; intros s Hws Hmain; simpl.
  - intros [= <-]. repeat split; assumption.
  - destruct (step N world s a) as [s1|] eqn:Ha; [|discriminate].
    intros Hrun.
    destruct (blocked_at_throttle_step s s1 a HN Hws Hmain Ha)
      as (Hws1 & Hmain1 & Hr1 & Hf1 & Hd1).
    destruct (IH s1 Hws1 Hmain1 Hrun) as (H1 & H2 & H3 & H4 & H5).
    split; [exact H1|]. split; [exact H2|].
    split; [congruence|]. split; congruence.
Qed.

Lemma remaining_insert (ws : list WorkerPC) (i : nat) (w w' : WorkerPC) :
  ws !! i = Some w ->
  (remaining (<[i := w']> ws) + rank w = remaining ws + rank w')%nat.
Proof.
  unfold remaining.
  revert i. induction ws as [|x ws IH]; intros [|i] Hi; simpl in *;
    try discriminate.
  - injection Hi as ->. lia.
  - specialize (IH i Hi). lia.
Qed.

Lemma worker_step_enabled (s : State) (i : nat) (w : WorkerPC) :
  workers s !! i = Some w ->
  isDone w = false ->
  (forall e, w = AtErrorSend e -> (length (processErrorSignal s) < N)%nat) ->
  (w = AtRelease -> (1 <= throttle s)%nat) ->
  exists s', step N world s (WorkerStep i) = Some s'.
Proof.
  intros Hi Hdone Hsend Hrelease.
  destruct (worker_can_step_at s i w Hi Hdone Hsend Hrelease) as [s' Hs'].
  exists s'. unfold step. rewrite Hi. destruct (main s); exact Hs'.
Qed.

Lemma worker_step_descends (s s' : State) (i : nat) :
  step N world s (WorkerStep i) = Some s' ->
  main s' = main s
  /\ (pending s' <= pending s)%nat
  /\ (remaining (workers s') < remaining (workers s))%nat
  /\ (fetches s <= fetches s')%nat
  /\ (deliveries s <= deliveries s')%nat.
Proof.
  intros Hstep. unfold pending.
  assert (Hw : exists w, workers s !! i = Some w
                         /\ workerStep N world s i w = Some s').
  { unfold step in Hstep. destruct (workers s !! i) as [w|] eqn:Hi.
    - exists w. split; [reflexivity|]. destruct (main s); exact Hstep.
    - destruct (main s); discriminate Hstep. }
  destruct Hw as (w & Hi & Hw). clear Hstep.
  unfold workerStep, setWorker in Hw.
  destruct w; simpl in Hw;
    repeat match type of Hw with
           | None = Some _ => discriminate Hw
           | Some _ = Some _ => injection Hw as Hw; try subst
           | context [match ?x with _ => _ end] => destruct x eqn:?
           end;
    simpl; rewrite ?length_app; simpl;
    match goal with
    | |- context [<[i := ?w']> _] =>
        pose proof (countPC_insert maySend _ _ _ w' Hi);
        pose proof (remaining_insert _ _ _ w' Hi)
    end;
    simpl in *; (split; [reflexivity|]); repeat split; lia.
Qed.

(** A step of [stepB] is a step: what holds of every reachable state holds
    where calls may block. *)
Lemma stepB_step (calls : Calls) (s s' : State) (a : Action) :
  stepB N world calls s a = Some s' -> step N world s a = Some s'.
Proof.
  unfold stepB. destruct a; auto.
  destruct (workers s !! i) as [w|] eqn:Hi; [|discriminate].
  destruct (callReturns calls s w); [auto|discriminate].
Qed.

Lemma runB_run (calls : Calls) (schedule : list Action) (s s' : State) :
  runB N world calls s schedule = Some s' -> run N world s schedule = Some s'.
Proof.
  revert s. induction schedule as [|a schedule IH]; intros s; simpl; [auto|].
  destruct (stepB N world calls s a) as [s1|] eqn:Ha; [|discriminate].
  rewrite (stepB_step calls s s1 a Ha). apply IH.
Qed.

Lemma reachableB_reachable (calls : Calls) (s : State) :
  reachableB N world calls s -> reachable N world s.
Proof. intros [schedule Hrun]. exists schedule. exact (runB_run _ _ _ _ Hrun). Qed.

Lemma stepB_when_calls_return (calls : Calls) (s : State) (a : Action) :
  inCallsThatReturn calls s ->
  stepB N world calls s a = step N world s a.
Proof.
  intros Hcalls. unfold stepB. destruct a; try reflexivity.
  destruct (workers s !! i) as [w|] eqn:Hi.
  - unfold inCallsThatReturn in Hcalls.
    rewrite (Forall_lookup_1 _ _ _ _ Hcalls Hi). reflexivity.
  - unfold step. rewrite Hi. destruct (main s); reflexivity.
Qed.

Lemma returnFrom_inCalls (calls : Calls) (s : State) :
  returnFrom calls s -> inCallsThatReturn calls s.
Proof.
  intros Hret. apply Forall_forall. intros w _.
  destruct w; simpl; try reflexivity; apply Hret; lia.
Qed.

(** X24: without [Stop], [Read] gets stuck only inside a call of the queue
    or of the target. With at least one slot, in every state that can be
    reached, calls that block for good included, in which no [Stop] has
    been called, [Read] has not returned and the calls that the workers are
    in return, some goroutine of the source can take a step: [Read] itself,
    or one of its workers. In particular a worker that stands at its send
    on the error channel finds room in the buffer whenever [Read] cannot
    move: the hang on a full error buffer needs a [Stop]. *)
Theorem Read_progresses_without_Stop (calls : Calls) (s : State) :
  (1 <= N)%nat ->
  reachableB N world calls s ->
  inCallsThatReturn calls s ->
  stopsBlocked s = 0%nat -> stopsReturned s = 0%nat ->
  (forall r, main s <> HasReturned r) ->
  canStepB N world calls s.
Proof.
  intros HN Hreach Hcalls Hb Hr Hrunning.
  destruct (can_step_without_Stop s HN (reachableB_reachable calls s Hreach)
              Hb Hr Hrunning) as (a & s' & Ha & Hstep).
  exists a, s'. split; [exact Ha|].
  rewrite (stepB_when_calls_return calls s a Hcalls). exact Hstep.
Qed.

(** X26: when the error channel has room and the calls still to come
    return, [Read] can return. From every reachable state in which [Read]
    waits for its workers, the errors buffered together with those that may
    still be sent do not exceed the capacity of the error channel, and the
    calls of the queue and of the target from here on return, the workers
    can run to their end, each step of theirs being enabled when its turn
    comes, and [Read] then returns what it left the loop with. (Without
    that room a worker can block at its send for good, and in a call that
    does not return it stays for good.) *)
Theorem Read_can_return_with_room (calls : Calls) (s : State)
    (r : option error) :
  reachableB N world calls s ->
  returnFrom calls s ->
  main s = AtWait r ->
  (pending s <= N)%nat ->
  exists schedule s',
    workersOnly schedule
    /\ runB N world calls s (schedule ++ [WaitReturns]) = Some s'
    /\ main s' = HasReturned r
    /\ Forall (fun w => w = Done) (workers s').
Proof.
  intros Hreach.
  pose proof (slotsInvariant_reachable N world s
                (reachableB_reachable calls s Hreach)) as Hslots.
  clear Hreach.
  remember (remaining (workers s)) as n eqn:Hn.
  revert s Hslots Hn.
  induction n as [n IH] using lt_wf_ind. intros s Hslots Hn Hret Hmain Hroom.
  destruct (forallb isDone (workers s)) eqn:Hall.
  - exists [], (setMain s (HasReturned r)). simpl.
    unfold step. rewrite Hmain, Hall.
    split; [constructor|]. split; [reflexivity|]. split; [reflexivity|].
    apply Forall_forall. intros w Hw.
    rewrite forallb_forall in Hall.
    specialize (Hall w (proj1 (list_elem_of_In _ _) Hw)).
    destruct w; try discriminate. reflexivity.
  - destruct (not_all_done _ Hall) as (i & w & Hi & Hw).
    destruct (worker_step_enabled s i w Hi Hw) as [s1 Hs1].
    + intros e ->.
      pose proof (countPC_pos maySend _ _ _ Hi eq_refl) as Hpos.
      unfold pending in Hroom. lia.
    + intros ->. destruct Hslots as [Heq _]. unfold inFlight in Heq.
      pose proof (countPC_pos (fun w => holdsSlot w) _ _ _ Hi eq_refl) as Hpos.
      unfold countPC in Hpos. unfold slots in Heq. lia.
    + destruct (worker_step_descends s s1 i Hs1) as (Hm1 & Hp1 & Hr1 & Hf1 & Hd1).
      destruct (IH (remaining (workers s1)) ltac:(lia) s1) as
        (schedule & s' & Hsched & Hrun & Hreturned & Hdone).
      * exact (slotsInvariant_step N world s s1 _ Hslots Hs1).
      * reflexivity.
      * intros k. destruct (Hret k) as [Hfetch Hdeliver].
        split; intros Hk; [apply Hfetch|apply Hdeliver]; lia.
      * congruence.
      * lia.
      * exists (WorkerStep i :: schedule), s'.
        split; [constructor; [eauto|exact Hsched]|].
        change (runB N world calls s ((WorkerStep i :: schedule) ++ [WaitReturns]))
          with (match stepB N world calls s (WorkerStep i) with
                | Some s1 => runB N world calls s1 (schedule ++ [WaitReturns])
                | None => None
                end).
        rewrite (stepB_when_calls_return calls s (WorkerStep i)
                   (returnFrom_inCalls calls s Hret)).
        rewrite Hs1. auto.
Qed.

End ReadProgressFacts.

Lemma Read_progresses_without_Stop_witness :
  exists s,
    Blocking.runB 3 SQSSamples.fourthDeliveryFails
      BlockingSamples.firstDeliveryBlocks SQS.init SQSSamples.launchTwo
    = Some s
    /\ SQS.workers s = [SQS.AtFetch; SQS.AtFetch]
    /\ Blocking.canStepB 3 SQSSamples.fourthDeliveryFails
         BlockingSamples.firstDeliveryBlocks s.
Proof.
  eexists. split; [vm_compute; reflexivity|]. split; [reflexivity|].
  match goal with
  | |- Blocking.canStepB _ _ _ ?s =>
      refine (Read_progresses_without_Stop 3 SQSSamples.fourthDeliveryFails
                BlockingSamples.firstDeliveryBlocks s _
                (ex_intro _ SQSSamples.launchTwo eq_refl) _ eq_refl eq_refl _)
  end.
  - lia.
  - repeat constructor.
  - intros r H. discriminate H.
Defined.

(** Where a call does not return, [Read] does get stuck without any
    [Stop]: with one slot, while the first delivery stays in the target,
    [Read] stands at its send into [throttle] and nothing can move. *)
Example Read_stuck_in_a_delivery :
  exists s,
    Blocking.runB 1 SQSSamples.fourthDeliveryFails
      BlockingSamples.firstDeliveryBlocks SQS.init
      BlockingSamples.oneWorkerDelivering = Some s
    /\ SQS.main s = SQS.AtThrottle
    /\ SQS.stopsBlocked s = 0%nat /\ SQS.stopsReturned s = 0%nat
    /\ ~ Blocking.canStepB 1 SQSSamples.fourthDeliveryFails
           BlockingSamples.firstDeliveryBlocks s.
Proof.
  eexists. split; [vm_compute; reflexivity|]. repeat split.
  intros (a & s' & Ha & Hstep).
  destruct a as [| | | | | | | |i]; try (now contradiction Ha);
    try (vm_compute in Hstep; discriminate Hstep).
  destruct i as [|i]; vm_compute in Hstep; discriminate Hstep.
Qed.

Lemma Read_without_slots_blocks_witness :
  exists s s',
    SQS.run 0 SQSSamples.fourthDeliveryFails SQS.init
      [SQS.CallRead; SQS.SelectDefault] = Some s
    /\ SQS.run 0 SQSSamples.fourthDeliveryFails s [SQS.CallStop; SQS.CallStop]
       = Some s'
    /\ SQS.stopsBlocked s' = 2%nat
    /\ SQS.main s' = SQS.AtThrottle /\ SQS.workers s' = []
    /\ SQS.stopsReturned s' = SQS.stopsReturned s
    /\ SQS.fetches s' = SQS.fetches s /\ SQS.deliveries s' = SQS.deliveries s.
Proof.
  eexists. eexists. split; [vm_compute; reflexivity|].
  split; [vm_compute; reflexivity|]. split; [reflexivity|].
  match goal with
  | |- SQS.main ?s' = _ /\ _ /\ _ = SQS.stopsReturned ?s /\ _ =>
      exact (Read_without_slots_blocks 0 SQSSamples.fourthDeliveryFails
               [SQS.CallStop; SQS.CallStop] s s' eq_refl
               (ex_intro _ [SQS.CallRead; SQS.SelectDefault] eq_refl)
               eq_refl eq_refl)
  end.
Defined.

Lemma Read_can_return_with_room_witness :
  exists s,
    Blocking.runB 3 SQSSamples.fourthDeliveryFails
      BlockingSamples.everyCallReturns SQS.init
      ReadSamples.exitWithWorker = Some s
    /\ SQS.workers s = [SQS.AtFetch]
    /\ exists schedule s',
         ReadProgress.workersOnly schedule
         /\ Blocking.runB 3 SQSSamples.fourthDeliveryFails
              BlockingSamples.everyCallReturns s
              (schedule ++ [SQS.WaitReturns]) = Some s'
         /\ SQS.main s' = SQS.HasReturned None
         /\ Forall (fun w => w = SQS.Done) (SQS.workers s').
Proof.
  eexists. split; [vm_compute; reflexivity|]. split; [reflexivity|].
  match goal with
  | |- context [Blocking.runB 3 _ _ ?s _] =>
      refine (Read_can_return_with_room 3 SQSSamples.fourthDeliveryFails
                BlockingSamples.everyCallReturns s None
                (ex_intro _ ReadSamples.exitWithWorker eq_refl) _ eq_refl _)
  end.
  - intros k. split; reflexivity.
  - vm_compute. lia.
Defined.
